(** * Lowering of gpu.launch_func to a TensorFlow runtime call

    A shallow embedding of
    tensorflow/compiler/mlir/tools/kernel_gen/transforms/tf_kernel_to_llvm_pass.cc:
    the rewrite pattern ConvertLaunchFuncOpToTfRuntimeCallPattern
    (generateParamsArray, matchAndRewrite) and the pass TFKernelToLLVMPass
    (runOnOperation).

    The IR is modelled as data: SSA values carry an identifier and a type,
    operations are constructors, a module body is a list of top-level
    operations.  The rewriter is a state monad over the module under
    rewriting; a violated assertion or a dereferenced null handle of the
    source has no result ([None]).  Source locations are not modelled. *)

From Stdlib Require Import ZArith String Ascii Bool Arith Lia List.
Import ListNotations.

Set Warnings "-register-all".

(** ** Types and values *)

Inductive Ty : Type :=
| LLVMVoid
| LLVMInt (width : N)
| LLVMPointer (pointee : Ty)
| LLVMStruct (fields : list Ty)
| LLVMArray (elem : Ty) (count : nat)
| LLVMFunction (result : Ty) (params : list Ty)
| IndexType
| MemRefType (elem : Ty) (rank : nat)
| UnrankedMemRefType (elem : Ty)
| OpKernelContextType
| OtherType (name : string).

(** [type.isa<LLVM::LLVMType>()] *)
Definition isLLVMType (t : Ty) : bool :=
  match t with
  | LLVMVoid | LLVMInt _ | LLVMPointer _ | LLVMStruct _
  | LLVMArray _ _ | LLVMFunction _ _ => true
  | _ => false
  end.

(** [type.cast<LLVM::LLVMType>()]: the cast asserts. *)
Definition castLLVMType (t : Ty) : option Ty :=
  if isLLVMType t then Some t else None.

Definition getPointerTo (t : Ty) : Ty := LLVMPointer t.

Record Value : Type := mkValue { value_id : nat; value_type : Ty }.

(** ** Operations *)

Inductive Linkage : Type := Internal | External.

Inductive LLVMOp : Type :=
| ConstantOp (res : Value) (value : Z)
| AllocaOp (res : Value) (array_size : Value) (alignment : Z)
| GEPOp (res : Value) (base : Value) (indices : list Value)
| StoreOp (value : Value) (addr : Value)
| BitcastOp (res : Value) (arg : Value)
| AddressOfOp (res : Value) (global_name : string)
| ExtractValueOp (res : Value) (container : Value) (position : list nat)
| CallOp (result_type : Ty) (callee : string) (operands : list Value)
| DialectCastOp (res : Value) (arg : Value)
| OtherLLVMOp (name : string) (operands : list Value) (results : list Value).

(** gpu.launch_func.  Its operand list is the asynchronous dependencies,
    the six launch dimensions and the kernel operands, in this order; the
    kernel is the symbol reference @module::@kernel. *)
Record LaunchFuncOp : Type := mkLaunch {
  asyncDependencies : list Value;
  asyncToken : option Value;
  gridSizeX : Value;
  gridSizeY : Value;
  gridSizeZ : Value;
  blockSizeX : Value;
  blockSizeY : Value;
  blockSizeZ : Value;
  kernelOperands : list Value;
  kernelModuleName : string;
  kernelName : string
}.

Definition kNumConfigOperands : nat := 6.

Definition getOperands (op : LaunchFuncOp) : list Value :=
  asyncDependencies op
  ++ [gridSizeX op; gridSizeY op; gridSizeZ op;
      blockSizeX op; blockSizeY op; blockSizeZ op]
  ++ kernelOperands op.

Definition getNumOperands (op : LaunchFuncOp) : nat := length (getOperands op).

Definition getNumKernelOperands (op : LaunchFuncOp) : nat :=
  getNumOperands op - length (asyncDependencies op) - kNumConfigOperands.

Definition getKernelModuleName (op : LaunchFuncOp) : string := kernelModuleName op.
Definition getKernelName (op : LaunchFuncOp) : string := kernelName op.

Inductive Dialect : Type :=
| LLVMDialect | GPUDialect | StandardOpsDialect | TFFrameworkDialect
| OtherDialect (name : string).

Inductive Operation : Type :=
| OpLaunchFunc (op : LaunchFuncOp)
| OpLLVM (op : LLVMOp)
| OpForeign (dialect : Dialect) (name : string)
            (operands : list Value) (results : list Value).

(** ** Module-level operations *)

Inductive Attribute : Type :=
| StringAttr (value : string)
| IntegerAttr (value : Z)
| UnitAttr
| OtherAttr (text : string).

Record GlobalOp : Type := mkGlobal {
  global_name : string;
  global_type : Ty;
  global_constant : bool;
  global_linkage : Linkage;
  global_value : Attribute
}.

Inductive FuncKind : Type := BuiltinFunc | LLVMFunc.

Record FuncOp : Type := mkFunc {
  func_name : string;
  func_kind : FuncKind;
  func_type : Ty;
  func_arguments : list Value;
  func_body : list Operation
}.

Record GPUModuleOp : Type := mkGPUModule {
  gpu_module_name : string;
  gpu_module_attrs : list (string * Attribute);
  gpu_module_body : list Operation
}.

Inductive TopOp : Type :=
| TGlobal (g : GlobalOp)
| TFunc (f : FuncOp)
| TGPUModule (g : GPUModuleOp).

Definition symbolName (t : TopOp) : string :=
  match t with
  | TGlobal g => global_name g
  | TFunc f => func_name f
  | TGPUModule g => gpu_module_name g
  end.

Record ModuleOp : Type := mkModule { getBody : list TopOp }.

(** ** Diagnostics *)

Inductive Severity : Type := SevError | SevWarning | SevRemark.

Record Diagnostic : Type := mkDiag {
  diag_severity : Severity;
  diag_operation : TopOp;
  diag_message : string
}.

(** ** The rewriter

    The module under rewriting is held as a zipper around the function
    that encloses the operation being rewritten: [mod_before] and
    [mod_after] are the module body in front of and behind that function,
    [blk_before] the operations of the function in front of the insertion
    point.  Creating an operation at the insertion point appends to
    [blk_before]; creating one at the start of the module body conses onto
    [mod_before]. *)

Record RewriterState : Type := mkState {
  mod_before : list TopOp;
  parent_func : FuncOp;
  mod_after : list TopOp;
  blk_before : list Operation;
  root_erased : bool;
  next_id : nat;
  diagnostics : list Diagnostic;
  match_failures : list string
}.

Definition moduleBody (st : RewriterState) : list TopOp :=
  mod_before st ++ TFunc (parent_func st) :: mod_after st.

Definition Rewriter (A : Type) : Type := RewriterState -> option (A * RewriterState).

Definition ret {A : Type} (a : A) : Rewriter A := fun st => Some (a, st).

Definition bind {A B : Type} (m : Rewriter A) (k : A -> Rewriter B) : Rewriter B :=
  fun st => match m st with
            | Some (a, st') => k a st'
            | None => None
            end.

Definition lift {A : Type} (o : option A) : Rewriter A :=
  fun st => match o with Some a => Some (a, st) | None => None end.

Declare Scope rewriter_scope.
Delimit Scope rewriter_scope with rw.
Notation "x <- m ;; k" := (bind m (fun x => k))
  (at level 61, m at next level, right associativity) : rewriter_scope.
Notation "m ;;; k" := (bind m (fun _ => k))
  (at level 61, right associativity) : rewriter_scope.
Open Scope rewriter_scope.

(** A rewriter state after some operations were created at the insertion
    point and [n] values were taken. *)
Definition advance (st : RewriterState) (ops : list Operation) (n : nat)
  : RewriterState :=
  mkState (mod_before st) (parent_func st) (mod_after st)
          (blk_before st ++ ops) (root_erased st) (n + next_id st)
          (diagnostics st) (match_failures st).

(** A rewriter state after an operation was created at the start of the
    module body. *)
Definition prependTop (t : TopOp) (st : RewriterState) : RewriterState :=
  mkState (t :: mod_before st) (parent_func st) (mod_after st)
          (blk_before st) (root_erased st) (next_id st)
          (diagnostics st) (match_failures st).

Definition withDiagnostic (d : Diagnostic) (st : RewriterState) : RewriterState :=
  mkState (mod_before st) (parent_func st) (mod_after st)
          (blk_before st) (root_erased st) (next_id st)
          (diagnostics st ++ [d]) (match_failures st).

Definition withMatchFailure (msg : string) (st : RewriterState) : RewriterState :=
  mkState (mod_before st) (parent_func st) (mod_after st)
          (blk_before st) (root_erased st) (next_id st)
          (diagnostics st) (match_failures st ++ [msg]).

Definition withRootErased (b : bool) (st : RewriterState) : RewriterState :=
  mkState (mod_before st) (parent_func st) (mod_after st)
          (blk_before st) b (next_id st)
          (diagnostics st) (match_failures st).

(** A fresh SSA value of the given type. *)
Definition freshValue (t : Ty) : Rewriter Value :=
  fun st =>
    Some (mkValue (next_id st) t,
          mkState (mod_before st) (parent_func st) (mod_after st)
                  (blk_before st) (root_erased st) (S (next_id st))
                  (diagnostics st) (match_failures st)).

(** [builder.create<...>] at the insertion point. *)
Definition insertOp (op : LLVMOp) : Rewriter unit :=
  fun st => Some (tt, advance st [OpLLVM op] 0).

(** Creation at the start of the module body. *)
Definition insertAtModuleStart (t : TopOp) : Rewriter unit :=
  fun st => Some (tt, prependTop t st).

Definition emitDiagnostic (d : Diagnostic) : Rewriter unit :=
  fun st => Some (tt, withDiagnostic d st).

(** [rewriter.notifyMatchFailure(op, msg)]: the reason goes to the
    rewriter's log and the result is failure. *)
Definition logMatchFailure (msg : string) : Rewriter unit :=
  fun st => Some (tt, withMatchFailure msg st).

(** [rewriter.eraseOp(root)] *)
Definition eraseOp : Rewriter unit :=
  fun st => Some (tt, withRootErased true st).

Definition getModuleBody : Rewriter (list TopOp) :=
  fun st => Some (moduleBody st, st).

Definition getParentFunc : Rewriter FuncOp :=
  fun st => Some (parent_func st, st).

(** ** Integer attributes *)

(** [builder.getI32IntegerAttr(v)]: the value as a signed 32-bit integer. *)
Definition getI32IntegerAttr (v : Z) : Z :=
  ((v + 2 ^ 31) mod 2 ^ 32 - 2 ^ 31)%Z.

(** ** LLVM operation builders *)

Definition createConstantOp (t : Ty) (attr : Z) : Rewriter Value :=
  res <- freshValue t ;;
  insertOp (ConstantOp res attr) ;;;
  ret res.

Definition createAllocaOp (t : Ty) (array_size : Value) (alignment : Z) : Rewriter Value :=
  res <- freshValue t ;;
  insertOp (AllocaOp res array_size alignment) ;;;
  ret res.

Definition createGEPOp (t : Ty) (base : Value) (indices : list Value) : Rewriter Value :=
  res <- freshValue t ;;
  insertOp (GEPOp res base indices) ;;;
  ret res.

Definition createStoreOp (value addr : Value) : Rewriter unit :=
  insertOp (StoreOp value addr).

Definition createBitcastOp (t : Ty) (arg : Value) : Rewriter Value :=
  res <- freshValue t ;;
  insertOp (BitcastOp res arg) ;;;
  ret res.

Definition createAddressOfOp (t : Ty) (name : string) : Rewriter Value :=
  res <- freshValue t ;;
  insertOp (AddressOfOp res name) ;;;
  ret res.

Definition createExtractValueOp (t : Ty) (container : Value) (position : list nat)
  : Rewriter Value :=
  res <- freshValue t ;;
  insertOp (ExtractValueOp res container position) ;;;
  ret res.

Definition createCallOp (result_type : Ty) (callee : string) (operands : list Value)
  : Rewriter unit :=
  insertOp (CallOp result_type callee operands).

(** ** The type converter's operand promotion *)

(** [ArrayRef::take_back(n)]: the last [n] elements, the whole list when
    it has no more than [n]. *)
Definition take_back {A : Type} (n : nat) (l : list A) : list A :=
  skipn (length l - n) l.

(** Type of the element of an aggregate at a position. *)
Fixpoint typeAt (t : Ty) (position : list nat) : Ty :=
  match position with
  | [] => t
  | i :: rest =>
      match t with
      | LLVMStruct fields => typeAt (nth i fields (OtherType "invalid")) rest
      | LLVMArray elem _ => typeAt elem rest
      | _ => OtherType "invalid"
      end
  end.

Definition extractField (packed : Value) (position : list nat) : Rewriter Value :=
  createExtractValueOp (typeAt (value_type packed) position) packed position.

Fixpoint extractFields (packed : Value) (positions : list (list nat))
  : Rewriter (list Value) :=
  match positions with
  | [] => ret []
  | p :: rest =>
      v <- extractField packed p ;;
      vs <- extractFields packed rest ;;
      ret (v :: vs)
  end.

(** Modelled from the spec: MemRefDescriptor::unpack is MLIR library code
    that is not under src/.  One memref argument is expanded into the
    fields of its descriptor: allocated pointer, aligned pointer, offset,
    [rank] sizes and [rank] strides. *)
Definition unpackMemRef (packed : Value) (rank : nat) : Rewriter (list Value) :=
  extractFields packed
    ([[0]; [1]; [2]]
     ++ map (fun i => [3; i]) (seq 0 rank)
     ++ map (fun i => [4; i]) (seq 0 rank)).

(** Modelled from the spec: UnrankedMemRefDescriptor::unpack is MLIR
    library code that is not under src/.  An unranked memref argument is
    expanded into its rank and the pointer to its ranked descriptor. *)
Definition unpackUnrankedMemRef (packed : Value) : Rewriter (list Value) :=
  extractFields packed [[0]; [1]].

(** Modelled from the spec: LLVMTypeConverter::promoteOperands is MLIR
    library code that is not under src/.  It walks the original operands
    and their converted values in lockstep; an operand of memref type is
    expanded into several converted values, any other operand is passed
    through as its converted value. *)
Fixpoint promoteOperands (opOperands operands : list Value) : Rewriter (list Value) :=
  match opOperands, operands with
  | operand :: opRest, llvmOperand :: rest =>
      promoted <- match value_type operand with
                  | UnrankedMemRefType _ => unpackUnrankedMemRef llvmOperand
                  | MemRefType _ rank => unpackMemRef llvmOperand rank
                  | _ => ret [llvmOperand]
                  end ;;
      others <- promoteOperands opRest rest ;;
      ret (promoted ++ others)
  | _, _ => ret []
  end.

(** ** The rewrite pattern *)

Definition kTfWrapperLibaryLaunchHelperName : string := "tfKernelGenLaunchKernel".

Definition llvm_void_type_ : Ty := LLVMVoid.
Definition llvm_int8_type_ : Ty := LLVMInt 8.
Definition llvm_pointer_type_ : Ty := getPointerTo llvm_int8_type_.
Definition llvm_pointer_pointer_type_ : Ty := getPointerTo llvm_pointer_type_.
Definition llvm_int32_type_ : Ty := LLVMInt 32.
Definition llvm_int64_type_ : Ty := LLVMInt 64.

Fixpoint castTypes (arguments : list Value) : option (list Ty) :=
  match arguments with
  | [] => Some []
  | argument :: rest =>
      match castLLVMType (value_type argument), castTypes rest with
      | Some t, Some ts => Some (t :: ts)
      | _, _ => None
      end
  end.

Definition createStructTy (elements : list Ty) : Ty := LLVMStruct elements.

(** The loop of generateParamsArray over [llvm::enumerate(arguments)],
    entered at index [index]. *)
Fixpoint storeArguments (struct_ptr array_ptr zero : Value) (argument_types : list Ty)
         (en_index : nat) (arguments : list Value) : Rewriter unit :=
  match arguments with
  | [] => ret tt
  | en_value :: rest =>
      index <- createConstantOp llvm_int32_type_
                 (getI32IntegerAttr (Z.of_nat en_index)) ;;
      field_type <- lift (nth_error argument_types en_index) ;;
      field_ptr <- createGEPOp (getPointerTo field_type) struct_ptr [zero; index] ;;
      createStoreOp en_value field_ptr ;;;
      element_ptr <- createGEPOp llvm_pointer_pointer_type_ array_ptr [index] ;;
      casted <- createBitcastOp llvm_pointer_type_ field_ptr ;;
      createStoreOp casted element_ptr ;;;
      storeArguments struct_ptr array_ptr zero argument_types (S en_index) rest
  end.

Definition generateParamsArray (launch_op : LaunchFuncOp) (operands : list Value)
  : Rewriter Value :=
  let num_kernel_operands := getNumKernelOperands launch_op in
  arguments <- promoteOperands
                 (take_back num_kernel_operands (getOperands launch_op))
                 (take_back num_kernel_operands operands) ;;
  let num_arguments := length arguments in
  argument_types <- lift (castTypes arguments) ;;
  let struct_type := createStructTy argument_types in
  one <- createConstantOp llvm_int32_type_ (getI32IntegerAttr 1) ;;
  struct_ptr <- createAllocaOp (getPointerTo struct_type) one 0 ;;
  array_size <- createConstantOp llvm_int32_type_
                  (getI32IntegerAttr (Z.of_nat num_arguments)) ;;
  array_ptr <- createAllocaOp llvm_pointer_pointer_type_ array_size 0 ;;
  zero <- createConstantOp llvm_int32_type_ (getI32IntegerAttr 0) ;;
  storeArguments struct_ptr array_ptr zero argument_types 0 arguments ;;;
  ret array_ptr.

(** ** Execution of the emitted marshalling code

    A block-structured memory: an allocation yields a fresh block of
    slots, a pointer is a block and a slot offset, a field of an aggregate
    and an element of a pointer array occupy one slot each. *)

Inductive RuntimeValue : Type :=
| RInt (z : Z)
| RPointer (block : nat) (offset : Z)
| ROpaque (tag : nat).

Record Memory : Type := mkMemory {
  mem_blocks : list Z;
  mem_cells : nat -> Z -> option RuntimeValue
}.

Definition Env : Type := nat -> option RuntimeValue.

Definition bindValue (env : Env) (v : Value) (r : RuntimeValue) : Env :=
  fun id => if Nat.eqb id (value_id v) then Some r else env id.

Definition lookupValue (env : Env) (v : Value) : option RuntimeValue :=
  env (value_id v).

Definition slotsOf (t : Ty) : Z :=
  match t with
  | LLVMStruct fields => Z.of_nat (length fields)
  | _ => 1%Z
  end.

Definition blockSize (mem : Memory) (block : nat) : option Z :=
  nth_error (mem_blocks mem) block.

Definition inBounds (mem : Memory) (block : nat) (offset : Z) : bool :=
  match blockSize mem block with
  | Some size => ((0 <=? offset) && (offset <? size))%Z
  | None => false
  end.

Definition allocate (mem : Memory) (size : Z) : nat * Memory :=
  (length (mem_blocks mem),
   mkMemory (mem_blocks mem ++ [size]) (mem_cells mem)).

Definition load (mem : Memory) (block : nat) (offset : Z) : option RuntimeValue :=
  if inBounds mem block offset then mem_cells mem block offset else None.

Definition store (mem : Memory) (block : nat) (offset : Z) (r : RuntimeValue)
  : option Memory :=
  if inBounds mem block offset
  then Some (mkMemory (mem_blocks mem)
               (fun b o => if (Nat.eqb b block && Z.eqb o offset)%bool
                           then Some r else mem_cells mem b o))
  else None.

Definition pointeeType (t : Ty) : option Ty :=
  match t with
  | LLVMPointer p => Some p
  | _ => None
  end.

Definition execLLVMOp (op : LLVMOp) (s : Env * Memory) : option (Env * Memory) :=
  let (env, mem) := s in
  match op with
  | ConstantOp res value => Some (bindValue env res (RInt value), mem)
  | AllocaOp res array_size _ =>
      match lookupValue env array_size, pointeeType (value_type res) with
      | Some (RInt n), Some t =>
          if (n <? 0)%Z then None
          else let (block, mem') := allocate mem (n * slotsOf t) in
               Some (bindValue env res (RPointer block 0), mem')
      | _, _ => None
      end
  | GEPOp res base [i] =>
      match lookupValue env base, lookupValue env i, pointeeType (value_type base) with
      | Some (RPointer block offset), Some (RInt vi), Some t =>
          Some (bindValue env res (RPointer block (offset + vi * slotsOf t)), mem)
      | _, _, _ => None
      end
  | GEPOp res base [i; j] =>
      match lookupValue env base, lookupValue env i, lookupValue env j,
            pointeeType (value_type base) with
      | Some (RPointer block offset), Some (RInt vi), Some (RInt vj),
        Some (LLVMStruct fields) =>
          if ((0 <=? vj) && (vj <? Z.of_nat (length fields)))%Z
          then Some (bindValue env res
                       (RPointer block
                          (offset + vi * Z.of_nat (length fields) + vj)), mem)
          else None
      | _, _, _, _ => None
      end
  | StoreOp value addr =>
      match lookupValue env value, lookupValue env addr with
      | Some r, Some (RPointer block offset) =>
          match store mem block offset r with
          | Some mem' => Some (env, mem')
          | None => None
          end
      | _, _ => None
      end
  | BitcastOp res arg =>
      match lookupValue env arg with
      | Some r => Some (bindValue env res r, mem)
      | None => None
      end
  | _ => None
  end.

Definition execOperation (op : Operation) (s : Env * Memory) : option (Env * Memory) :=
  match op with
  | OpLLVM o => execLLVMOp o s
  | _ => None
  end.

Fixpoint execOperations (ops : list Operation) (s : Env * Memory)
  : option (Env * Memory) :=
  match ops with
  | [] => Some s
  | op :: rest =>
      match execOperation op s with
      | Some s' => execOperations rest s'
      | None => None
      end
  end.

(** The operations created since an earlier rewriter state. *)
Definition emittedSince (st st' : RewriterState) : list Operation :=
  skipn (length (blk_before st)) (blk_before st').

(** ** Symbol tables, attributes and global strings *)

Inductive LogicalResult : Type := success | failure.

Definition failed (r : LogicalResult) : bool :=
  match r with failure => true | success => false end.

(** [SymbolTable::lookupSymbolIn]: the first operation of the symbol
    table's body that carries the name. *)
Definition lookupSymbolIn (body : list TopOp) (symbol : string) : option TopOp :=
  find (fun t => String.eqb (symbolName t) symbol) body.

(** [SymbolTable::lookupNearestSymbolFrom<gpu::GPUModuleOp>]: the nearest
    symbol table of a host operation is the module; the result is null
    when the symbol is missing or is no gpu.module. *)
Definition lookupNearestGPUModule (symbol : string) : Rewriter (option GPUModuleOp) :=
  body <- getModuleBody ;;
  ret match lookupSymbolIn body symbol with
      | Some (TGPUModule g) => Some g
      | _ => None
      end.

(** [SymbolTable::lookupNearestSymbolFrom<LLVM::LLVMFuncOp>] *)
Definition lookupNearestLLVMFunc (symbol : string) : Rewriter (option FuncOp) :=
  body <- getModuleBody ;;
  ret match lookupSymbolIn body symbol with
      | Some (TFunc f) =>
          match func_kind f with LLVMFunc => Some f | BuiltinFunc => None end
      | _ => None
      end.

Definition getAttr (attrs : list (string * Attribute)) (name : string)
  : option Attribute :=
  match find (fun kv => String.eqb (fst kv) name) attrs with
  | Some kv => Some (snd kv)
  | None => None
  end.

(** [op.getAttrOfType<StringAttr>(name)]: null when the attribute is
    missing or is no string attribute. *)
Definition getAttrOfType_StringAttr (g : GPUModuleOp) (name : string) : option string :=
  match getAttr (gpu_module_attrs g) name with
  | Some (StringAttr value) => Some value
  | _ => None
  end.

(** [op.emitOpError() << msg]: an error diagnostic attached to the
    operation, its message prefixed by the quoted operation name. *)
Definition emitOpError (g : GPUModuleOp) (msg : string) : Rewriter unit :=
  emitDiagnostic (mkDiag SevError (TGPUModule g) ("'gpu.module' op " ++ msg)).

Definition isGlobalNamed (name : string) (t : TopOp) : bool :=
  match t with
  | TGlobal g => String.eqb (global_name g) name
  | _ => false
  end.

Definition findGlobal (body : list TopOp) (name : string) : option TopOp :=
  find (isGlobalNamed name) body.

(** Modelled from the spec: LLVM::createGlobalString is MLIR library code
    that is not under src/.  The spec (4.2) describes it as EmitOrReuse:
    if a constant with the name already exists in the module, a handle to
    it is returned without re-emitting; otherwise a new constant is
    inserted at module scope.  The handle is the address of the named
    constant, taken at the insertion point. *)
Definition createGlobalString (name value : string) (linkage : Linkage)
  : Rewriter Value :=
  body <- getModuleBody ;;
  match findGlobal body name with
  | Some _ => ret tt
  | None =>
      insertAtModuleStart
        (TGlobal (mkGlobal name (LLVMArray llvm_int8_type_ (String.length value))
                           true linkage (StringAttr value)))
  end ;;;
  createAddressOfOp llvm_pointer_type_ name.

(** ** matchAndRewrite *)

Record ConvertLaunchFuncOpToTfRuntimeCallPattern : Type := mkPattern {
  pointerBitwidth : N;
  gpu_binary_annotation_ : string
}.

Definition llvm_intptr_type_ (p : ConvertLaunchFuncOpToTfRuntimeCallPattern) : Ty :=
  LLVMInt (pointerBitwidth p).

(** [gpu::LaunchFuncOpAdaptor(operands, attrs)]: the operand segments of
    the attribute dictionary place dimension [k] behind the asynchronous
    dependencies. *)
Definition adaptorConfigOperand (launch_op : LaunchFuncOp) (operands : list Value)
           (k : nat) : option Value :=
  nth_error operands (length (asyncDependencies launch_op) + k).

Definition entryPointType (p : ConvertLaunchFuncOpToTfRuntimeCallPattern) : Ty :=
  LLVMFunction llvm_void_type_
    [ llvm_pointer_type_;         (* void* context *)
      llvm_pointer_type_;         (* void* module_blob *)
      llvm_pointer_type_;         (* void* function_name *)
      llvm_intptr_type_ p;        (* intptr_t grid_x_dim *)
      llvm_intptr_type_ p;        (* intptr_t grid_y_dim *)
      llvm_intptr_type_ p;        (* intptr_t grid_z_dim *)
      llvm_intptr_type_ p;        (* intptr_t block_x_dim *)
      llvm_intptr_type_ p;        (* intptr_t block_y_dim *)
      llvm_intptr_type_ p;        (* intptr_t block_z_dim *)
      llvm_pointer_pointer_type_  (* void **kernel_params *) ].

Definition asyncMessage : string :=
  "Cannot convert with async dependency or result.".

Definition isEmpty {A : Type} (l : list A) : bool :=
  match l with [] => true | _ => false end.

Definition isSome {A : Type} (o : option A) : bool :=
  match o with Some _ => true | None => false end.

Definition matchAndRewrite (p : ConvertLaunchFuncOpToTfRuntimeCallPattern)
           (launch_op : LaunchFuncOp) (operands : list Value)
  : Rewriter LogicalResult :=
  if negb (isEmpty (asyncDependencies launch_op)) || isSome (asyncToken launch_op)
  then logMatchFailure asyncMessage ;;; ret failure
  else
    found <- lookupNearestGPUModule (getKernelModuleName launch_op) ;;
    kernel_module <- lift found ;;
    match getAttrOfType_StringAttr kernel_module (gpu_binary_annotation_ p) with
    | None =>
        emitOpError kernel_module
          ("missing " ++ gpu_binary_annotation_ p ++ " attribute") ;;;
        ret failure
    | Some binary =>
        let name_buffer := (gpu_module_name kernel_module ++ "_blob")%string in
        module_blob <- createGlobalString name_buffer binary Internal ;;
        let kernel_name := getKernelName launch_op in
        let kernel_name_buffer := (kernel_name ++ String Ascii.zero EmptyString)%string in
        let kernel_name_global_name :=
          (gpu_module_name kernel_module ++ "_" ++ kernel_name
             ++ "_kernel_name")%string in
        kernel_name_global <-
          createGlobalString kernel_name_global_name kernel_name_buffer Internal ;;
        parent <- getParentFunc ;;
        context_arg <- lift match func_kind parent with
                            | LLVMFunc => nth_error (func_arguments parent) 0
                            | BuiltinFunc => None
                            end ;;
        kernel_params <- generateParamsArray launch_op operands ;;
        existing <- lookupNearestLLVMFunc kTfWrapperLibaryLaunchHelperName ;;
        function <- match existing with
                    | Some f => ret f
                    | None =>
                        let f := mkFunc kTfWrapperLibaryLaunchHelperName LLVMFunc
                                        (entryPointType p) [] [] in
                        insertAtModuleStart (TFunc f) ;;;
                        ret f
                    end ;;
        grid_x <- lift (adaptorConfigOperand launch_op operands 0) ;;
        grid_y <- lift (adaptorConfigOperand launch_op operands 1) ;;
        grid_z <- lift (adaptorConfigOperand launch_op operands 2) ;;
        block_x <- lift (adaptorConfigOperand launch_op operands 3) ;;
        block_y <- lift (adaptorConfigOperand launch_op operands 4) ;;
        block_z <- lift (adaptorConfigOperand launch_op operands 5) ;;
        createCallOp llvm_void_type_ (func_name function)
          [context_arg; module_blob; kernel_name_global;
           grid_x; grid_y; grid_z; block_x; block_y; block_z; kernel_params] ;;;
        eraseOp ;;;
        ret success
    end.

(** ** The legality target *)

Inductive LegalizationAction : Type := Legal | Illegal.

Inductive OpDialect : Type :=
| DBuiltin
| DDialect (d : Dialect).

Definition OperationName : Type := (OpDialect * string)%type.

Definition dialect_eqb (a b : Dialect) : bool :=
  match a, b with
  | LLVMDialect, LLVMDialect => true
  | GPUDialect, GPUDialect => true
  | StandardOpsDialect, StandardOpsDialect => true
  | TFFrameworkDialect, TFFrameworkDialect => true
  | OtherDialect x, OtherDialect y => String.eqb x y
  | _, _ => false
  end.

Definition opDialect_eqb (a b : OpDialect) : bool :=
  match a, b with
  | DBuiltin, DBuiltin => true
  | DDialect x, DDialect y => dialect_eqb x y
  | _, _ => false
  end.

Definition opName_eqb (a b : OperationName) : bool :=
  opDialect_eqb (fst a) (fst b) && String.eqb (snd a) (snd b).

Record ConversionTarget : Type := mkTarget {
  dialectActions : list (OpDialect * LegalizationAction);
  operationActions : list (OperationName * LegalizationAction);
  recursivelyLegal : list OperationName
}.

Definition emptyTarget : ConversionTarget := mkTarget [] [] [].

Definition setDialectAction (a : LegalizationAction) (ds : list OpDialect)
           (t : ConversionTarget) : ConversionTarget :=
  mkTarget (map (fun d => (d, a)) ds ++ dialectActions t)
           (operationActions t) (recursivelyLegal t).

Definition setOpAction (a : LegalizationAction) (ops : list OperationName)
           (t : ConversionTarget) : ConversionTarget :=
  mkTarget (dialectActions t)
           (map (fun o => (o, a)) ops ++ operationActions t) (recursivelyLegal t).

Definition addLegalDialect := setDialectAction Legal.
Definition addIllegalDialect := setDialectAction Illegal.
Definition addLegalOp := setOpAction Legal.
Definition addIllegalOp := setOpAction Illegal.

Definition markOpRecursivelyLegal (ops : list OperationName) (t : ConversionTarget)
  : ConversionTarget :=
  mkTarget (dialectActions t) (operationActions t) (ops ++ recursivelyLegal t).

(** [ConversionTarget::getOpAction]: an action set for the operation
    itself wins over the action of its dialect. *)
Definition getOpAction (t : ConversionTarget) (n : OperationName)
  : option LegalizationAction :=
  match find (fun oa => opName_eqb (fst oa) n) (operationActions t) with
  | Some oa => Some (snd oa)
  | None =>
      match find (fun da => opDialect_eqb (fst da) (fst n)) (dialectActions t) with
      | Some da => Some (snd da)
      | None => None
      end
  end.

(** In a full conversion an operation of unknown legality has to be
    legalized like an illegal one. *)
Definition isLegalName (t : ConversionTarget) (n : OperationName) : bool :=
  match getOpAction t n with
  | Some Legal => true
  | _ => false
  end.

Definition isRecursivelyLegalName (t : ConversionTarget) (n : OperationName) : bool :=
  isLegalName t n && existsb (opName_eqb n) (recursivelyLegal t).

Definition llvmOpName (op : LLVMOp) : OperationName :=
  (DDialect LLVMDialect,
   match op with
   | ConstantOp _ _ => "mlir.constant"
   | AllocaOp _ _ _ => "alloca"
   | GEPOp _ _ _ => "getelementptr"
   | StoreOp _ _ => "store"
   | BitcastOp _ _ => "bitcast"
   | AddressOfOp _ _ => "mlir.addressof"
   | ExtractValueOp _ _ _ => "extractvalue"
   | CallOp _ _ _ => "call"
   | DialectCastOp _ _ => "mlir.cast"
   | OtherLLVMOp name _ _ => name
   end%string).

Definition LaunchFuncOpName : OperationName := (DDialect GPUDialect, "launch_func"%string).
Definition GPUModuleOpName : OperationName := (DDialect GPUDialect, "module"%string).
Definition ModuleOpName : OperationName := (DBuiltin, "module"%string).
Definition ModuleTerminatorOpName : OperationName := (DBuiltin, "module_terminator"%string).
Definition DialectCastOpName : OperationName := (DDialect LLVMDialect, "mlir.cast"%string).

Definition operationName (op : Operation) : OperationName :=
  match op with
  | OpLaunchFunc _ => LaunchFuncOpName
  | OpLLVM o => llvmOpName o
  | OpForeign d name _ _ => (DDialect d, name)
  end.

Definition topOpName (t : TopOp) : OperationName :=
  match t with
  | TGlobal _ => (DDialect LLVMDialect, "mlir.global"%string)
  | TFunc f =>
      match func_kind f with
      | LLVMFunc => (DDialect LLVMDialect, "func"%string)
      | BuiltinFunc => (DBuiltin, "func"%string)
      end
  | TGPUModule _ => GPUModuleOpName
  end.

Definition isLegal (t : ConversionTarget) (op : Operation) : bool :=
  isLegalName t (operationName op).

Definition isLegalTop (t : ConversionTarget) (op : TopOp) : bool :=
  isLegalName t (topOpName op).

(** ** The conversion engine *)

(** Modelled from the spec: the generic lowering rules registered next to
    the launch rule (populateStdExpandOpsPatterns,
    populateStdToLLVMConversionPatterns,
    PopulateTFFrameworkToLLVMConversionPatterns) and the value mapping of
    the type converter are external collaborators that are not under src/;
    they are taken as they come: what a rule turns an operation or a
    function signature into ([None] when no rule applies), the converted
    value of an operand and the pointer width of the data layout. *)
Record GenericRules : Type := mkRules {
  typeConverterPointerBitwidth : N;
  lowerOperation : Operation -> option (list Operation);
  lowerSignature : FuncOp -> option (Ty * list Value);
  remapValue : Value -> Value
}.

(** The function rule of the generic rules turns a builtin function into
    an llvm.func of the same name and body with a converted signature. *)
Definition lowerFunction (rules : GenericRules) (f : FuncOp) : option FuncOp :=
  match lowerSignature rules f with
  | Some (type, arguments) =>
      Some (mkFunc (func_name f) LLVMFunc type arguments (func_body f))
  | None => None
  end.

Definition keepOperations (ops : list Operation) : Rewriter unit :=
  fun st => Some (tt, advance st ops 0).

Definition resetRoot : Rewriter unit :=
  fun st => Some (tt, withRootErased false st).

Definition isRootErased : Rewriter bool :=
  fun st => Some (root_erased st, st).

Section ConversionEngine.

Variable target : ConversionTarget.
Variable pattern : ConvertLaunchFuncOpToTfRuntimeCallPattern.
Variable rules : GenericRules.

  (** Modelled from the spec: legalization of one operation by the
      external conversion engine (applyFullConversion), which is not under
      src/.  A legal operation stays; a launch instruction is handed to
      the launch rule with its converted operands; any other operation is
      handed to the generic rules, whose result has to be legal.  An
      operation that no rule legalizes stays in place and the conversion
      has failed. *)
Definition legalizeOperation (op : Operation) : Rewriter LogicalResult :=
    if isLegal target op then keepOperations [op] ;;; ret success
    else
      match op with
      | OpLaunchFunc launch_op =>
          resetRoot ;;;
          r <- matchAndRewrite pattern launch_op
                 (map (remapValue rules) (getOperands launch_op)) ;;
          erased <- isRootErased ;;
          if negb (failed r) && erased then ret success
          else keepOperations [op] ;;; ret failure
      | _ =>
          match lowerOperation rules op with
          | Some ops =>
              if forallb (isLegal target) ops
              then keepOperations ops ;;; ret success
              else keepOperations [op] ;;; ret failure
          | None => keepOperations [op] ;;; ret failure
          end
      end.

  (** The operations of a function body in order; at the first failure
      the remaining operations are left as they are. *)
Fixpoint legalizeOperations (ops : list Operation) : Rewriter LogicalResult :=
    match ops with
    | [] => ret success
    | op :: rest =>
        r <- legalizeOperation op ;;
        if failed r then keepOperations rest ;;; ret failure
        else legalizeOperations rest
    end.

  (** What the engine carries from one top-level operation to the next. *)
Record EngineState : Type := mkEngine {
    es_done : list TopOp;
    es_next_id : nat;
    es_diagnostics : list Diagnostic;
    es_match_failures : list string
  }.

Definition setBody (f : FuncOp) (body : list Operation) : FuncOp :=
    mkFunc (func_name f) (func_kind f) (func_type f) (func_arguments f) body.

Definition engineOf (st : RewriterState) (done : list TopOp) : EngineState :=
    mkEngine done (next_id st) (diagnostics st) (match_failures st).

  (** Modelled from the spec: the walk of the external conversion engine
      over the module body.  A function is brought to a legal signature
      first and then its body is legalized; a recursively legal operation
      (a Device Module) is not looked into. *)
Fixpoint convertTopOps (todo : list TopOp) (es : EngineState)
    : option (LogicalResult * list TopOp * EngineState) :=
    match todo with
    | [] => Some (success, es_done es, es)
    | TFunc f :: rest =>
        match (if isLegalTop target (TFunc f) then Some f
               else lowerFunction rules f) with
        | Some f' =>
            if isLegalTop target (TFunc f') then
              match legalizeOperations (func_body f')
                      (mkState (es_done es) f' rest [] false (es_next_id es)
                               (es_diagnostics es) (es_match_failures es)) with
              | Some (r, st) =>
                  let f'' := setBody f' (blk_before st) in
                  if failed r
                  then Some (failure, mod_before st ++ TFunc f'' :: rest,
                             engineOf st (mod_before st ++ [TFunc f'']))
                  else convertTopOps rest
                         (engineOf st (mod_before st ++ [TFunc f'']))
              | None => None
              end
            else Some (failure, es_done es ++ todo, es)
        | None => Some (failure, es_done es ++ todo, es)
        end
    | TGPUModule g :: rest =>
        if isLegalTop target (TGPUModule g)
           && (isRecursivelyLegalName target GPUModuleOpName
               || forallb (isLegal target) (gpu_module_body g))
        then convertTopOps rest
               (mkEngine (es_done es ++ [TGPUModule g]) (es_next_id es)
                         (es_diagnostics es) (es_match_failures es))
        else Some (failure, es_done es ++ todo, es)
    | TGlobal g :: rest =>
        if isLegalTop target (TGlobal g)
        then convertTopOps rest
               (mkEngine (es_done es ++ [TGlobal g]) (es_next_id es)
                         (es_diagnostics es) (es_match_failures es))
        else Some (failure, es_done es ++ todo, es)
    end.

End ConversionEngine.

(** ** The pass *)

Definition valuesOfLLVMOp (op : LLVMOp) : list Value :=
  match op with
  | ConstantOp res _ => [res]
  | AllocaOp res array_size _ => [res; array_size]
  | GEPOp res base indices => res :: base :: indices
  | StoreOp value addr => [value; addr]
  | BitcastOp res arg => [res; arg]
  | AddressOfOp res _ => [res]
  | ExtractValueOp res container _ => [res; container]
  | CallOp _ _ operands => operands
  | DialectCastOp res arg => [res; arg]
  | OtherLLVMOp _ operands results => operands ++ results
  end.

Definition valuesOfOperation (op : Operation) : list Value :=
  match op with
  | OpLaunchFunc l =>
      getOperands l ++ match asyncToken l with Some v => [v] | None => [] end
  | OpLLVM o => valuesOfLLVMOp o
  | OpForeign _ _ operands results => operands ++ results
  end.

Definition valuesOfTopOp (t : TopOp) : list Value :=
  match t with
  | TGlobal _ => []
  | TFunc f => func_arguments f ++ flat_map valuesOfOperation (func_body f)
  | TGPUModule g => flat_map valuesOfOperation (gpu_module_body g)
  end.

(** An identifier above every value of the module: values created by the
    conversion are distinct from the values that exist. *)
Definition nextFreeId (m : ModuleOp) : nat :=
  S (list_max (map value_id (flat_map valuesOfTopOp (getBody m)))).

Record TFKernelToLLVMPass : Type := mkPass { blob_annotation_ : string }.

(** The constructor keeps the default of the pass option (declared in
    kernel_gen_passes.h.inc, not under src/) when the given annotation is
    empty. *)
Definition CreateTFKernelToLLVMPass (default_annotation blob_annotation : string)
  : TFKernelToLLVMPass :=
  if String.eqb blob_annotation EmptyString then mkPass default_annotation
  else mkPass blob_annotation.

Definition passTarget : ConversionTarget :=
  markOpRecursivelyLegal [GPUModuleOpName]
    (addLegalOp [ModuleOpName; ModuleTerminatorOpName; GPUModuleOpName]
       (addIllegalOp [DialectCastOpName]
          (addIllegalDialect
             [DDialect GPUDialect; DDialect StandardOpsDialect;
              DDialect TFFrameworkDialect]
             (addLegalDialect [DDialect LLVMDialect] emptyTarget)))).

(** Modelled from the spec: applyFullConversion, the entry of the external
    conversion engine, which is not under src/; it returns success or
    failure and leaves the module as far as it was converted. *)
Definition applyFullConversion (m : ModuleOp) (target : ConversionTarget)
           (pattern : ConvertLaunchFuncOpToTfRuntimeCallPattern)
           (rules : GenericRules)
  : option (LogicalResult * ModuleOp * list Diagnostic * list string) :=
  match convertTopOps target pattern rules (getBody m)
          (mkEngine [] (nextFreeId m) [] []) with
  | Some (r, body, es) =>
      Some (r, mkModule body, es_diagnostics es, es_match_failures es)
  | None => None
  end.

Definition isGPUModuleOp (t : TopOp) : bool :=
  match t with TGPUModule _ => true | _ => false end.

(** [m.getOps<gpu::GPUModuleOp>()] *)
Definition getGPUModuleOps (m : ModuleOp) : list TopOp :=
  filter isGPUModuleOp (getBody m).

(** The loop erasing every operation of [m.getOps<gpu::GPUModuleOp>()]. *)
Definition eraseGPUModules (m : ModuleOp) : ModuleOp :=
  mkModule (filter (fun t => negb (isGPUModuleOp t)) (getBody m)).

Record PassOutcome : Type := mkOutcome {
  pass_failed : bool;
  pass_module : ModuleOp;
  pass_diagnostics : list Diagnostic;
  pass_match_failures : list string
}.

Definition runOnOperation (pass : TFKernelToLLVMPass) (rules : GenericRules)
           (m : ModuleOp) : option PassOutcome :=
  let pattern := mkPattern (typeConverterPointerBitwidth rules) (blob_annotation_ pass) in
  let target := passTarget in
  match applyFullConversion m target pattern rules with
  | Some (r, m', diags, log) =>
      (* signalPassFailure() sets the flag and returns *)
      let signalled := if failed r then true else false in
      (* Finally, strip the GPU modules, as they are no longer needed. *)
      Some (mkOutcome signalled (eraseGPUModules m') diags log)
  | None => None
  end.

(** ** Observations on modules *)

Definition isLaunchFunc (op : Operation) : bool :=
  match op with OpLaunchFunc _ => true | _ => false end.

Definition operationsOfTopOp (t : TopOp) : list Operation :=
  match t with
  | TGlobal _ => []
  | TFunc f => func_body f
  | TGPUModule g => gpu_module_body g
  end.


Definition globalsNamed (name : string) (m : ModuleOp) : list TopOp :=
  filter (isGlobalNamed name) (getBody m).

Definition isFuncNamed (name : string) (t : TopOp) : bool :=
  match t with
  | TFunc f => String.eqb (func_name f) name
  | _ => false
  end.

Definition functionsNamed (name : string) (m : ModuleOp) : list TopOp :=
  filter (isFuncNamed name) (getBody m).

(** ** The emitted marshalling code, spelled out

    The operations that the loop of generateParamsArray creates when the
    next free identifier is [next]; [storeArguments_emits] below shows
    that these are the operations the loop emits. *)

Fixpoint storeOps (struct_ptr array_ptr zero : Value) (argument_types : list Ty)
         (en_index : nat) (arguments : list Value) (next : nat) : list Operation :=
  match arguments with
  | [] => []
  | en_value :: rest =>
      let index := mkValue next llvm_int32_type_ in
      let field_type := nth en_index argument_types LLVMVoid in
      let field_ptr := mkValue (S next) (getPointerTo field_type) in
      let element_ptr := mkValue (S (S next)) llvm_pointer_pointer_type_ in
      let casted := mkValue (S (S (S next))) llvm_pointer_type_ in
      [ OpLLVM (ConstantOp index (getI32IntegerAttr (Z.of_nat en_index)));
        OpLLVM (GEPOp field_ptr struct_ptr [zero; index]);
        OpLLVM (StoreOp en_value field_ptr);
        OpLLVM (GEPOp element_ptr array_ptr [index]);
        OpLLVM (BitcastOp casted field_ptr);
        OpLLVM (StoreOp casted element_ptr) ]
      ++ storeOps struct_ptr array_ptr zero argument_types (S en_index) rest
           (4 + next)
  end.

Definition marshalStructPtr (argument_types : list Ty) (next : nat) : Value :=
  mkValue (S next) (getPointerTo (createStructTy argument_types)).

Definition marshalArrayPtr (next : nat) : Value :=
  mkValue (3 + next) llvm_pointer_pointer_type_.

Definition marshalOps (arguments : list Value) (argument_types : list Ty)
           (next : nat) : list Operation :=
  let one := mkValue next llvm_int32_type_ in
  let struct_ptr := marshalStructPtr argument_types next in
  let array_size := mkValue (2 + next) llvm_int32_type_ in
  let array_ptr := marshalArrayPtr next in
  let zero := mkValue (4 + next) llvm_int32_type_ in
  [ OpLLVM (ConstantOp one (getI32IntegerAttr 1));
    OpLLVM (AllocaOp struct_ptr one 0);
    OpLLVM (ConstantOp array_size
              (getI32IntegerAttr (Z.of_nat (length arguments))));
    OpLLVM (AllocaOp array_ptr array_size 0);
    OpLLVM (ConstantOp zero (getI32IntegerAttr 0)) ]
  ++ storeOps struct_ptr array_ptr zero argument_types 0 arguments (5 + next).

(** ** Shapes of created operations *)

(** The operations that the launch rule and its helpers create. *)
Definition isEmittedOp (op : Operation) : bool :=
  match op with
  | OpLLVM (ConstantOp _ _) | OpLLVM (AllocaOp _ _ _) | OpLLVM (GEPOp _ _ _)
  | OpLLVM (StoreOp _ _) | OpLLVM (BitcastOp _ _) | OpLLVM (AddressOfOp _ _)
  | OpLLVM (ExtractValueOp _ _ _) | OpLLVM (CallOp _ _ _) => true
  | _ => false
  end.

Definition isCallOp (op : Operation) : bool :=
  match op with
  | OpLLVM (CallOp _ _ _) => true
  | _ => false
  end.

(** An operation created by the marshaller or the promotion: any created
    operation but a call. *)
Definition isMarshalOp (op : Operation) : bool :=
  isEmittedOp op && negb (isCallOp op).

(** A GEP into the parameter pointer array: the slot of one entry. *)
Definition isElementSlot (array_ptr : Value) (op : Operation) : bool :=
  match op with
  | OpLLVM (GEPOp _ base [_]) => Nat.eqb (value_id base) (value_id array_ptr)
  | _ => false
  end.

Definition isSynchronous (launch_op : LaunchFuncOp) : bool :=
  isEmpty (asyncDependencies launch_op) && negb (isSome (asyncToken launch_op)).

(** ** Rewriter states, spelled out *)

(** The constant that createGlobalString inserts for a name and a payload. *)
Definition globalString (name value : string) (linkage : Linkage) : TopOp :=
  TGlobal (mkGlobal name (LLVMArray llvm_int8_type_ (String.length value))
                    true linkage (StringAttr value)).

(** The module-level effect of createGlobalString. *)
Definition emitOrReuse (name value : string) (linkage : Linkage)
           (st : RewriterState) : RewriterState :=
  match findGlobal (moduleBody st) name with
  | Some _ => st
  | None => prependTop (globalString name value linkage) st
  end.

(** The declaration of the runtime entry point. *)
Definition entryPointDeclaration (p : ConvertLaunchFuncOpToTfRuntimeCallPattern)
  : FuncOp :=
  mkFunc kTfWrapperLibaryLaunchHelperName LLVMFunc (entryPointType p) [] [].

(** The module-level effect of resolving the runtime entry point. *)
Definition ensureEntryPoint (p : ConvertLaunchFuncOpToTfRuntimeCallPattern)
           (st : RewriterState) : FuncOp * RewriterState :=
  match lookupSymbolIn (moduleBody st) kTfWrapperLibaryLaunchHelperName with
  | Some (TFunc f) =>
      match func_kind f with
      | LLVMFunc => (f, st)
      | BuiltinFunc =>
          (entryPointDeclaration p, prependTop (TFunc (entryPointDeclaration p)) st)
      end
  | _ => (entryPointDeclaration p, prependTop (TFunc (entryPointDeclaration p)) st)
  end.

Definition blobGlobalName (module_name : string) : string :=
  (module_name ++ "_blob")%string.

Definition kernelNameGlobalName (module_name kernel_name : string) : string :=
  (module_name ++ "_" ++ kernel_name ++ "_kernel_name")%string.

Definition missingAttributeDiagnostic (p : ConvertLaunchFuncOpToTfRuntimeCallPattern)
           (kernel_module : GPUModuleOp) : Diagnostic :=
  mkDiag SevError (TGPUModule kernel_module)
         ("'gpu.module' op missing " ++ gpu_binary_annotation_ p ++ " attribute").

(** The Device Module that the launch instruction resolves to. *)
Definition resolvedModule (st : RewriterState) (launch_op : LaunchFuncOp)
  : option GPUModuleOp :=
  match lookupSymbolIn (moduleBody st) (getKernelModuleName launch_op) with
  | Some (TGPUModule g) => Some g
  | _ => None
  end.

(** The state after the two global strings of a rewrite were requested. *)
Definition stateAfterGlobals (p : ConvertLaunchFuncOpToTfRuntimeCallPattern)
           (launch_op : LaunchFuncOp) (kernel_module : GPUModuleOp)
           (binary : string) (st : RewriterState) : RewriterState :=
  let module_blob := mkValue (next_id st) llvm_pointer_type_ in
  let blob_name := blobGlobalName (gpu_module_name kernel_module) in
  let st1 := advance (emitOrReuse blob_name binary Internal st)
                     [OpLLVM (AddressOfOp module_blob blob_name)] 1 in
  let kernel_name_global := mkValue (next_id st1) llvm_pointer_type_ in
  let global_name :=
    kernelNameGlobalName (gpu_module_name kernel_module) (getKernelName launch_op) in
  advance (emitOrReuse global_name
             (getKernelName launch_op ++ String Ascii.zero EmptyString) Internal st1)
          [OpLLVM (AddressOfOp kernel_name_global global_name)] 1.

(** A top-level operation that the launch rule creates. *)
Definition isCreatedTop (p : ConvertLaunchFuncOpToTfRuntimeCallPattern) (t : TopOp)
  : Prop :=
  (exists name value, t = globalString name value Internal)
  \/ t = TFunc (entryPointDeclaration p).

(** [st'] is [st] after operations were created at the insertion point and
    at the start of the module body. *)
Definition Extends (p : ConvertLaunchFuncOpToTfRuntimeCallPattern)
           (st st' : RewriterState) : Prop :=
  exists created ops,
    mod_before st' = created ++ mod_before st /\
    Forall (isCreatedTop p) created /\
    blk_before st' = blk_before st ++ ops /\
    forallb isEmittedOp ops = true /\
    parent_func st' = parent_func st /\
    mod_after st' = mod_after st /\
    next_id st <= next_id st'.


(** ** Module bodies under rewriting *)

(** [st'] is [st] after operations were added in front of the insertion
    point and created at the start of the module body. *)
Definition Grows (p : ConvertLaunchFuncOpToTfRuntimeCallPattern)
           (st st' : RewriterState) : Prop :=
  exists created ops,
    mod_before st' = created ++ mod_before st /\
    Forall (isCreatedTop p) created /\
    blk_before st' = blk_before st ++ ops /\
    parent_func st' = parent_func st /\
    mod_after st' = mod_after st.

(** Two top-level operations that stand for the same symbol: a Device
    Module or a global that is unchanged, a function of the same name. *)
Definition sameSymbol (t t' : TopOp) : Prop :=
  match t, t' with
  | TGPUModule g, TGPUModule g' => g = g'
  | TGlobal g, TGlobal g' => g = g'
  | TFunc f, TFunc f' => func_name f = func_name f'
  | _, _ => False
  end.

(** A module body that came from another one by rewriting functions in
    place and inserting operations that are no Device Modules. *)
Inductive Evolves : list TopOp -> list TopOp -> Prop :=
| Evolves_nil : Evolves [] []
| Evolves_keep : forall t t' o c,
    sameSymbol t t' -> Evolves o c -> Evolves (t :: o) (t' :: c)
| Evolves_insert : forall t o c,
    isGPUModuleOp t = false -> Evolves o c -> Evolves o (t :: c).

Definition isHostFunction (t : TopOp) : bool :=
  match t with TFunc _ => true | _ => false end.

(** The operations of the host functions of a module. *)
Definition hostOperations (body : list TopOp) : list Operation :=
  flat_map operationsOfTopOp (filter isHostFunction body).

(** A property of module bodies that the conversion keeps: it survives
    the replacement of a function by an llvm.func of the same name and every
    application of the launch rule. *)
Definition Stable (p : ConvertLaunchFuncOpToTfRuntimeCallPattern)
           (J : list TopOp -> Prop) : Prop :=
  (forall A f f' B,
      func_name f' = func_name f -> func_kind f' = LLVMFunc ->
      J (A ++ TFunc f :: B) -> J (A ++ TFunc f' :: B))
  /\ (forall l operands st r st',
         J (moduleBody st) ->
         matchAndRewrite p l operands st = Some (r, st') ->
         J (moduleBody st')).

(** The rewriter state in which the engine enters the body of a function. *)
Definition focusState (es : EngineState) (f : FuncOp) (rest : list TopOp)
  : RewriterState :=
  mkState (es_done es) f rest [] false (es_next_id es)
          (es_diagnostics es) (es_match_failures es).

(** The function whose body the engine legalizes: an llvm.func as it is, a
    builtin function with its signature lowered. *)
Definition focusOf (rules : GenericRules) (f : FuncOp) : option FuncOp :=
  match func_kind f with
  | LLVMFunc => Some f
  | BuiltinFunc => lowerFunction rules f
  end.

(** The launch rule as the pass registers it. *)
Definition passPattern (pass : TFKernelToLLVMPass) (rules : GenericRules)
  : ConvertLaunchFuncOpToTfRuntimeCallPattern :=
  mkPattern (typeConverterPointerBitwidth rules) (blob_annotation_ pass).


(** ** Strings *)

Fixpoint lastChar (s : string) : option ascii :=
  match s with
  | EmptyString => None
  | String c EmptyString => Some c
  | String _ rest => lastChar rest
  end.

(** A top-level operation whose operations are all legal; a Device Module
    is not looked into. *)
Definition hostLegal (t : TopOp) : bool :=
  match t with
  | TFunc f => forallb (isLegal passTarget) (func_body f)
  | _ => true
  end.

Definition launchesInto (module_name : string) (op : Operation) : bool :=
  match op with
  | OpLaunchFunc l => String.eqb (getKernelModuleName l) module_name
  | _ => false
  end.

(** ** Deduplication *)

(** No two global constants of a module body share a name. *)
Definition GlobalsUnique (body : list TopOp) : Prop :=
  forall name, length (filter (isGlobalNamed name) body) <= 1.

(** The functions that carry the name of the runtime entry point: none,
    or one llvm.func that is the first symbol of the name. *)
Definition EntryPointUnique (body : list TopOp) : Prop :=
  match lookupSymbolIn body kTfWrapperLibaryLaunchHelperName with
  | Some (TFunc f) =>
      func_kind f = LLVMFunc /\
      length (filter (isFuncNamed kTfWrapperLibaryLaunchHelperName) body) = 1
  | _ => length (filter (isFuncNamed kTfWrapperLibaryLaunchHelperName) body) = 0
  end.

Definition Deduplicated (body : list TopOp) : Prop :=
  GlobalsUnique body /\ EntryPointUnique body.

(** ** Further observations on rewriter states and operations *)

(** [st'] is [st] after at most [k] operations were created at the start
    of the module body; the enclosing function, the operations behind it,
    the diagnostics and the rewriter's log are as they were. *)
Definition Inserts (p : ConvertLaunchFuncOpToTfRuntimeCallPattern) (k : nat)
           (st st' : RewriterState) : Prop :=
  exists created,
    mod_before st' = created ++ mod_before st /\
    length created <= k /\
    Forall (isCreatedTop p) created /\
    parent_func st' = parent_func st /\
    mod_after st' = mod_after st /\
    diagnostics st' = diagnostics st /\
    match_failures st' = match_failures st.

Definition isAllocaOp (op : Operation) : bool :=
  match op with OpLLVM (AllocaOp _ _ _) => true | _ => false end.

Definition isStoreOp (op : Operation) : bool :=
  match op with OpLLVM (StoreOp _ _) => true | _ => false end.

Definition isExtractValueOp (op : Operation) : bool :=
  match op with OpLLVM (ExtractValueOp _ _ _) => true | _ => false end.

(** A top-level operation that the target of the pass accepts as it is: a
    global, a Device Module, or an llvm.func whose operations are legal. *)
Definition isLowered (t : TopOp) : bool :=
  isLegalTop passTarget t && hostLegal t.

(** The global constants of a module body, by name and payload. *)
Definition globalPayloads (body : list TopOp) : list (string * Attribute) :=
  flat_map (fun t => match t with
                     | TGlobal g => [(global_name g, global_value g)]
                     | _ => []
                     end) body.
(** ** The end-to-end scenario

    One host function with one launch instruction targeting Device Module
    K (entry point kern, blob the byte 0xAB), launch dimensions
    (2,1,1,4,1,1) held by the values 1 to 6, and two scalar arguments. *)

Definition example_context : Value := mkValue 0 llvm_pointer_type_.

Definition example_dim (id : nat) : Value := mkValue id llvm_int64_type_.

Definition example_arguments : list Value :=
  [mkValue 7 llvm_int32_type_; mkValue 8 llvm_int64_type_].

Definition example_launch : LaunchFuncOp :=
  mkLaunch [] None
           (example_dim 1) (example_dim 2) (example_dim 3)
           (example_dim 4) (example_dim 5) (example_dim 6)
           example_arguments "K" "kern".

Definition example_blob : string := String (ascii_of_nat 171) EmptyString.

Definition example_device_module : GPUModuleOp :=
  mkGPUModule "K" [("binary"%string, StringAttr example_blob)] [].

Definition example_function : FuncOp :=
  mkFunc "host" LLVMFunc (LLVMFunction LLVMVoid [llvm_pointer_type_])
         [example_context] [OpLaunchFunc example_launch].

Definition example_module : ModuleOp :=
  mkModule [TGPUModule example_device_module; TFunc example_function].

Definition example_rules : GenericRules :=
  mkRules 64 (fun _ => None) (fun _ => None) (fun v => v).

Definition example_pass : TFKernelToLLVMPass := mkPass "binary".

Definition example_pattern : ConvertLaunchFuncOpToTfRuntimeCallPattern :=
  mkPattern 64 "binary".

(** The rewriter state in which the launch instruction of the scenario is
    rewritten. *)
Definition example_state : RewriterState :=
  mkState [TGPUModule example_device_module] example_function [] [] false 9 [] [].

Definition example_env : Env :=
  fun id => if Nat.eqb id 7 then Some (RInt 11)
            else if Nat.eqb id 8 then Some (RInt 22) else None.

Definition example_memory : Memory := mkMemory [] (fun _ _ => None).


(** The scenario with an asynchronous dependency on the launch instruction. *)
Definition example_async_launch : LaunchFuncOp :=
  mkLaunch [mkValue 9 (OtherType "!gpu.async.token")] None
           (example_dim 1) (example_dim 2) (example_dim 3)
           (example_dim 4) (example_dim 5) (example_dim 6)
           example_arguments "K" "kern".

Definition example_async_module : ModuleOp :=
  mkModule [TGPUModule example_device_module;
            TFunc (mkFunc "host" LLVMFunc (LLVMFunction LLVMVoid [llvm_pointer_type_])
                          [example_context] [OpLaunchFunc example_async_launch])].

(** The scenario with a Device Module that carries no annotation, and with
    one whose annotation is no string. *)
Definition example_bare_device_module : GPUModuleOp := mkGPUModule "K" [] [].

Definition example_bare_module : ModuleOp :=
  mkModule [TGPUModule example_bare_device_module; TFunc example_function].

Definition example_bare_state : RewriterState :=
  mkState [TGPUModule example_bare_device_module] example_function [] [] false 9 [] [].

Definition example_odd_device_module : GPUModuleOp :=
  mkGPUModule "K" [("binary"%string, IntegerAttr 171)] [].

Definition example_odd_state : RewriterState :=
  mkState [TGPUModule example_odd_device_module] example_function [] [] false 9 [] [].

(** A launch instruction whose only kernel argument is a memref of rank 1;
    its converted value is the memref descriptor. *)
Definition example_descriptor_type : Ty :=
  LLVMStruct [LLVMPointer llvm_int32_type_; LLVMPointer llvm_int32_type_;
              llvm_int64_type_; LLVMArray llvm_int64_type_ 1;
              LLVMArray llvm_int64_type_ 1].

Definition example_memref_launch : LaunchFuncOp :=
  mkLaunch [] None
           (example_dim 1) (example_dim 2) (example_dim 3)
           (example_dim 4) (example_dim 5) (example_dim 6)
           [mkValue 7 (MemRefType llvm_int32_type_ 1)] "K" "kern".

Definition example_memref_operands : list Value :=
  [example_dim 1; example_dim 2; example_dim 3;
   example_dim 4; example_dim 5; example_dim 6;
   mkValue 7 example_descriptor_type].

(** The scenario with a second launch instruction into Device Module K. *)
Definition example_twice_module : ModuleOp :=
  mkModule [TGPUModule example_device_module;
            TFunc (mkFunc "host" LLVMFunc (LLVMFunction LLVMVoid [llvm_pointer_type_])
                          [example_context]
                          [OpLaunchFunc example_launch; OpLaunchFunc example_launch])].

(** The scenario without its Device Module: the launch instruction names
    a symbol that the module does not have. *)
Definition example_orphan_state : RewriterState :=
  mkState [] example_function [] [] false 9 [] [].

(** A memory that holds one block of one slot before the marshalling code
    runs. *)
Definition example_busy_memory : Memory :=
  mkMemory [1%Z]
           (fun block offset =>
              if (Nat.eqb block 0 && Z.eqb offset 0)%bool then Some (RInt 5) else None).

(** A module that is lowered already: a Device Module, a global string and
    an llvm.func of LLVM operations. *)
Definition example_lowered_module : ModuleOp :=
  mkModule [TGPUModule example_device_module;
            globalString "K_blob" example_blob Internal;
            TFunc (mkFunc "host" LLVMFunc (LLVMFunction LLVMVoid [llvm_pointer_type_])
                          [example_context]
                          [OpLLVM (AddressOfOp (mkValue 9 llvm_pointer_type_) "K_blob");
                           OpLLVM (ConstantOp (mkValue 10 llvm_int32_type_) 1)])].

(** Generic rules that lower the signature of every builtin function. *)
Definition example_lowering_rules : GenericRules :=
  mkRules 64 (fun _ => None)
          (fun f => Some (LLVMFunction LLVMVoid [], func_arguments f))
          (fun v => v).

(** The scenario with two launch instructions into Device Module K and,
    behind the host function, a builtin function that carries the name of
    the runtime entry point. *)
Definition example_squatter_module : ModuleOp :=
  mkModule [TGPUModule example_device_module;
            TFunc (mkFunc "host" LLVMFunc (LLVMFunction LLVMVoid [llvm_pointer_type_])
                          [example_context]
                          [OpLaunchFunc example_launch; OpLaunchFunc example_launch]);
            TFunc (mkFunc kTfWrapperLibaryLaunchHelperName BuiltinFunc
                          (OtherType "() -> ()") [] [])].

(** The scenario with a constant of the name of the kernel-name constant
    in the module already. *)
Definition example_stale_global : GlobalOp :=
  mkGlobal "K_kern_kernel_name" (LLVMArray llvm_int8_type_ 3) true Internal
           (StringAttr "zzz").

Definition example_stale_state : RewriterState :=
  mkState [TGlobal example_stale_global; TGPUModule example_device_module]
          example_function [] [] false 9 [] [].

(** Two Device Modules and two kernels whose kernel-name constants get
    the same name. *)
Definition example_clash_launch (module_name kernel_name : string) : LaunchFuncOp :=
  mkLaunch [] None
           (example_dim 1) (example_dim 2) (example_dim 3)
           (example_dim 4) (example_dim 5) (example_dim 6)
           example_arguments module_name kernel_name.

Definition example_clash_module : ModuleOp :=
  mkModule [TGPUModule (mkGPUModule "m_i" [("binary"%string, StringAttr "A")] []);
            TGPUModule (mkGPUModule "m" [("binary"%string, StringAttr "B")] []);
            TFunc (mkFunc "host" LLVMFunc (LLVMFunction LLVMVoid [llvm_pointer_type_])
                          [example_context]
                          [OpLaunchFunc (example_clash_launch "m_i" "k");
                           OpLaunchFunc (example_clash_launch "m" "i_k")])].

(** * Properties *)

(** ** The rewriter monad *)

Lemma bind_Some : forall (A B : Type) (m : Rewriter A) (k : A -> Rewriter B) st b st',
    bind m k st = Some (b, st') <->
    exists a st1, m st = Some (a, st1) /\ k a st1 = Some (b, st').
Proof.
  intros A B m k st b st'. unfold bind. split.
  - destruct (m st) as [[a st1]|]; [|discriminate].
    intros H. exists a, st1. split; [reflexivity | exact H].
  - intros (a & st1 & Hm & Hk). rewrite Hm. exact Hk.
Qed.

Lemma bind_eq : forall (A B : Type) (m : Rewriter A) (k : A -> Rewriter B) st a st1,
    m st = Some (a, st1) -> bind m k st = k a st1.
Proof. intros A B m k st a st1 H. unfold bind. rewrite H. reflexivity. Qed.

Lemma bind_None : forall (A B : Type) (m : Rewriter A) (k : A -> Rewriter B) st,
    m st = None -> bind m k st = None.
Proof. intros A B m k st H. unfold bind. rewrite H. reflexivity. Qed.

Lemma advance_nil : forall st, advance st [] 0 = st.
Proof.
  intros [mb pf ma bb re ni dg mf]. unfold advance. simpl.
  rewrite app_nil_r. reflexivity.
Qed.

Lemma advance_advance : forall st ops1 n1 ops2 n2,
    advance (advance st ops1 n1) ops2 n2 = advance st (ops1 ++ ops2) (n2 + n1).
Proof.
  intros st ops1 n1 ops2 n2. unfold advance. simpl.
  rewrite <- app_assoc. rewrite Nat.add_assoc. reflexivity.
Qed.

(** ** generateParamsArray emits [marshalOps] *)

Lemma castTypes_total : forall arguments,
    Forall (fun a => isLLVMType (value_type a) = true) arguments ->
    castTypes arguments = Some (map value_type arguments).
Proof.
  induction 1 as [|a rest Ha _ IH]; simpl.
  - reflexivity.
  - unfold castLLVMType. rewrite Ha, IH. reflexivity.
Qed.

Lemma storeArguments_emits :
  forall struct_ptr array_ptr zero types arguments en_index st,
    en_index + length arguments <= length types ->
    storeArguments struct_ptr array_ptr zero types en_index arguments st =
    Some (tt, advance st
                (storeOps struct_ptr array_ptr zero types en_index arguments
                   (next_id st))
                (4 * length arguments)).
Proof.
  intros struct_ptr array_ptr zero types arguments.
  induction arguments as [|a rest IH]; intros en_index st Hlen.
  - simpl. rewrite advance_nil. reflexivity.
  - simpl in Hlen.
    destruct (nth_error types en_index) as [t|] eqn:Hnth.
    2:{ apply nth_error_None in Hnth. lia. }
    destruct st as [mb pf ma bb re ni dg mf].
    cbn [storeArguments].
    unfold createConstantOp, createGEPOp, createStoreOp, createBitcastOp.
    cbv beta iota delta [bind ret lift freshValue insertOp advance
                         mod_before parent_func mod_after blk_before
                         root_erased next_id diagnostics match_failures].
    rewrite Hnth.
    cbv beta iota delta [mod_before parent_func mod_after blk_before
                         root_erased next_id diagnostics match_failures].
    rewrite IH by (cbn [length]; lia).
    unfold advance.
    cbv beta iota delta [mod_before parent_func mod_after blk_before
                         root_erased next_id diagnostics match_failures].
    cbn [storeOps length].
    rewrite (nth_error_nth _ _ LLVMVoid Hnth).
    rewrite <- !app_assoc. cbn [app].
    do 2 f_equal. f_equal. lia.
Qed.

Lemma generateParamsArray_emits :
  forall launch_op operands st arguments st1,
    promoteOperands
      (take_back (getNumKernelOperands launch_op) (getOperands launch_op))
      (take_back (getNumKernelOperands launch_op) operands) st
    = Some (arguments, st1) ->
    Forall (fun a => isLLVMType (value_type a) = true) arguments ->
    generateParamsArray launch_op operands st =
    Some (marshalArrayPtr (next_id st1),
          advance st1
            (marshalOps arguments (map value_type arguments) (next_id st1))
            (5 + 4 * length arguments)).
Proof.
  intros launch_op operands st arguments st1 Hprom Htypes.
  unfold generateParamsArray.
  rewrite (@bind_eq _ _ _ _ _ _ _ Hprom).
  unfold lift at 1. unfold bind at 1.
  rewrite (castTypes_total _ Htypes).
  destruct st1 as [mb pf ma bb re ni dg mf].
  unfold createConstantOp, createAllocaOp.
  cbv beta iota delta [bind ret freshValue insertOp advance
                       mod_before parent_func mod_after blk_before
                       root_erased next_id diagnostics match_failures].
  rewrite storeArguments_emits by (cbn [length]; rewrite length_map; lia).
  unfold advance, marshalOps, marshalStructPtr, marshalArrayPtr.
  cbv beta iota delta [mod_before parent_func mod_after blk_before
                       root_erased next_id diagnostics match_failures].
  rewrite <- !app_assoc. cbn [app Nat.add].
  do 2 f_equal. f_equal. lia.
Qed.

Lemma generateParamsArray_aborts_on_foreign_type :
  forall launch_op operands st arguments st1,
    promoteOperands
      (take_back (getNumKernelOperands launch_op) (getOperands launch_op))
      (take_back (getNumKernelOperands launch_op) operands) st
    = Some (arguments, st1) ->
    castTypes arguments = None ->
    generateParamsArray launch_op operands st = None.
Proof.
  intros launch_op operands st arguments st1 Hprom Hcast.
  unfold generateParamsArray. rewrite (@bind_eq _ _ _ _ _ _ _ Hprom).
  unfold lift, bind. rewrite Hcast. reflexivity.
Qed.

(** ** Execution of [marshalOps] *)

Lemma getI32IntegerAttr_small : forall z,
    (- 2 ^ 31 <= z < 2 ^ 31)%Z -> getI32IntegerAttr z = z.
Proof.
  intros z Hz. unfold getI32IntegerAttr.
  rewrite Z.mod_small; lia.
Qed.

Lemma execOperations_app : forall ops1 ops2 s,
    execOperations (ops1 ++ ops2) s =
    match execOperations ops1 s with
    | Some s' => execOperations ops2 s'
    | None => None
    end.
Proof.
  induction ops1 as [|op rest IH]; intros ops2 s; simpl.
  - reflexivity.
  - destruct (execOperation op s) as [s'|]; [apply IH | reflexivity].
Qed.

Lemma bindValue_same : forall env v r, lookupValue (bindValue env v r) v = Some r.
Proof.
  intros env v r. unfold lookupValue, bindValue. rewrite Nat.eqb_refl. reflexivity.
Qed.

Lemma bindValue_other : forall env v r id,
    id <> value_id v -> bindValue env v r id = env id.
Proof.
  intros env v r id H. unfold bindValue.
  destruct (Nat.eqb_spec id (value_id v)); [contradiction | reflexivity].
Qed.

Lemma lookup_bindValue_other : forall env v r w,
    value_id w <> value_id v -> lookupValue (bindValue env v r) w = lookupValue env w.
Proof. intros env v r w H. unfold lookupValue. apply bindValue_other. exact H. Qed.

Lemma store_inBounds : forall mem block offset r size,
    blockSize mem block = Some size -> (0 <= offset < size)%Z ->
    store mem block offset r =
    Some (mkMemory (mem_blocks mem)
            (fun b o => if (Nat.eqb b block && Z.eqb o offset)%bool
                        then Some r else mem_cells mem b o)).
Proof.
  intros mem block offset r size Hsize Hoff. unfold store, inBounds.
  rewrite Hsize.
  replace ((0 <=? offset)%Z && (offset <? size)%Z) with true; [reflexivity|].
  symmetry. apply andb_true_intro. split; [apply Z.leb_le | apply Z.ltb_lt]; lia.
Qed.

Lemma load_inBounds : forall mem block offset size,
    blockSize mem block = Some size -> (0 <= offset < size)%Z ->
    load mem block offset = mem_cells mem block offset.
Proof.
  intros mem block offset size Hsize Hoff. unfold load, inBounds.
  rewrite Hsize.
  replace ((0 <=? offset)%Z && (offset <? size)%Z) with true; [reflexivity|].
  symmetry. apply andb_true_intro. split; [apply Z.leb_le | apply Z.ltb_lt]; lia.
Qed.

Lemma exec_constant : forall res value env mem,
    execLLVMOp (ConstantOp res value) (env, mem)
    = Some (bindValue env res (RInt value), mem).
Proof. reflexivity. Qed.

Lemma exec_gep_field : forall res base i j env mem block offset vi vj fields,
    lookupValue env base = Some (RPointer block offset) ->
    lookupValue env i = Some (RInt vi) ->
    lookupValue env j = Some (RInt vj) ->
    value_type base = LLVMPointer (LLVMStruct fields) ->
    (0 <= vj < Z.of_nat (length fields))%Z ->
    execLLVMOp (GEPOp res base [i; j]) (env, mem)
    = Some (bindValue env res
              (RPointer block (offset + vi * Z.of_nat (length fields) + vj)),
            mem).
Proof.
  intros res base i j env mem block offset vi vj fields Hb Hi Hj Ht Hr.
  cbn [execLLVMOp]. rewrite Hb, Hi, Hj, Ht. cbn [pointeeType].
  replace ((0 <=? vj)%Z && (vj <? Z.of_nat (length fields))%Z) with true;
    [reflexivity|].
  symmetry. apply andb_true_intro. split; [apply Z.leb_le | apply Z.ltb_lt]; lia.
Qed.

Lemma exec_gep_element : forall res base i env mem block offset vi t,
    lookupValue env base = Some (RPointer block offset) ->
    lookupValue env i = Some (RInt vi) ->
    value_type base = LLVMPointer t ->
    execLLVMOp (GEPOp res base [i]) (env, mem)
    = Some (bindValue env res (RPointer block (offset + vi * slotsOf t)), mem).
Proof.
  intros res base i env mem block offset vi t Hb Hi Ht.
  cbn [execLLVMOp]. rewrite Hb, Hi, Ht. reflexivity.
Qed.

Lemma exec_store : forall value addr env mem r block offset size,
    lookupValue env value = Some r ->
    lookupValue env addr = Some (RPointer block offset) ->
    blockSize mem block = Some size -> (0 <= offset < size)%Z ->
    execLLVMOp (StoreOp value addr) (env, mem)
    = Some (env,
            mkMemory (mem_blocks mem)
              (fun b o => if (Nat.eqb b block && Z.eqb o offset)%bool
                          then Some r else mem_cells mem b o)).
Proof.
  intros value addr env mem r block offset size Hv Ha Hs Ho.
  cbn [execLLVMOp]. rewrite Hv, Ha.
  rewrite (store_inBounds _ _ _ _ _ Hs Ho). reflexivity.
Qed.

Lemma exec_bitcast : forall res arg env mem r,
    lookupValue env arg = Some r ->
    execLLVMOp (BitcastOp res arg) (env, mem) = Some (bindValue env res r, mem).
Proof.
  intros res arg env mem r H. cbn [execLLVMOp]. rewrite H. reflexivity.
Qed.

Lemma exec_alloca : forall res array_size alignment env mem n t,
    lookupValue env array_size = Some (RInt n) ->
    value_type res = LLVMPointer t -> (0 <= n)%Z ->
    execLLVMOp (AllocaOp res array_size alignment) (env, mem)
    = Some (bindValue env res (RPointer (length (mem_blocks mem)) 0),
            mkMemory (mem_blocks mem ++ [(n * slotsOf t)%Z]) (mem_cells mem)).
Proof.
  intros res array_size alignment env mem n t Hn Ht Hpos.
  cbn [execLLVMOp]. rewrite Hn, Ht. cbn [pointeeType].
  destruct (Z.ltb_spec n 0); [lia | reflexivity].
Qed.

Lemma Forall2_lookup_keep : forall (env env' : Env) next arguments vals,
    (forall w, value_id w < next -> lookupValue env' w = lookupValue env w) ->
    Forall (fun a => value_id a < next) arguments ->
    Forall2 (fun a v => lookupValue env a = Some v) arguments vals ->
    Forall2 (fun a v => lookupValue env' a = Some v) arguments vals.
Proof.
  intros env env' next arguments vals Hkeep Hlt Hvals.
  induction Hvals as [|x y l l' Hxy Hll IHl]; constructor.
  - inversion Hlt; subst. rewrite Hkeep by assumption. exact Hxy.
  - inversion Hlt; subst. apply IHl. assumption.
Qed.

Ltac unfold_values :=
  repeat match goal with
         | x := mkValue _ _ |- _ => progress unfold x
         end.

Ltac lookup_solve :=
  unfold_values;
  repeat (rewrite lookup_bindValue_other by (cbn [value_id]; lia));
  first [ apply bindValue_same | eassumption ].

Section StoreLoop.
Variables struct_ptr array_ptr zero : Value.
Variable types : list Ty.
Variables sblk ablk : nat.
Hypothesis struct_ptr_type : value_type struct_ptr = LLVMPointer (LLVMStruct types).
Hypothesis array_ptr_type : value_type array_ptr = llvm_pointer_pointer_type_.
Hypothesis blocks_differ : sblk <> ablk.

Lemma exec_storeOps :
    forall arguments vals idx next env mem asize,
      value_id struct_ptr < next -> value_id array_ptr < next ->
      value_id zero < next ->
      Forall (fun a => value_id a < next) arguments ->
      lookupValue env struct_ptr = Some (RPointer sblk 0) ->
      lookupValue env array_ptr = Some (RPointer ablk 0) ->
      lookupValue env zero = Some (RInt 0) ->
      Forall2 (fun a v => lookupValue env a = Some v) arguments vals ->
      blockSize mem sblk = Some (Z.of_nat (length types)) ->
      blockSize mem ablk = Some asize ->
      idx + length arguments <= length types ->
      (Z.of_nat (idx + length arguments) <= asize)%Z ->
      (Z.of_nat (idx + length arguments) <= 2 ^ 31)%Z ->
      exists env' mem',
        execOperations
          (storeOps struct_ptr array_ptr zero types idx arguments next) (env, mem)
        = Some (env', mem') /\
        (forall id, id < next -> env' id = env id) /\
        mem_blocks mem' = mem_blocks mem /\
        (forall k v, nth_error vals k = Some v ->
           mem_cells mem' sblk (Z.of_nat (idx + k)) = Some v /\
           mem_cells mem' ablk (Z.of_nat (idx + k))
           = Some (RPointer sblk (Z.of_nat (idx + k)))) /\
        (forall b o, (b <> sblk /\ b <> ablk) \/ (o < Z.of_nat idx)%Z ->
           mem_cells mem' b o = mem_cells mem b o).
  Proof.
    induction arguments as [|a rest IH];
      intros vals idx next env mem asize Hs Ha Hz Hargs Es Ea Ez Hvals Bs Ba
             Hlen Hasize Hrange.
    - inversion Hvals; subst. exists env, mem. simpl.
      repeat split; try reflexivity.
      + destruct k; discriminate.
      + destruct k; discriminate.
    - inversion Hvals as [|a' v rest' vrest Hav Hrest]; subst.
      inversion Hargs as [|a' rest' Halt Hrestlt]; subst.
      cbn [length] in *.
      cbn [storeOps app].
      set (index := mkValue next llvm_int32_type_).
      set (field_ptr := mkValue (S next) (getPointerTo (nth idx types LLVMVoid))).
      set (element_ptr := mkValue (S (S next)) llvm_pointer_pointer_type_).
      set (casted := mkValue (S (S (S next))) llvm_pointer_type_).
      rewrite getI32IntegerAttr_small by lia.
      cbn [execOperations execOperation].
      rewrite exec_constant.
      set (env1 := bindValue env index (RInt (Z.of_nat idx))).
      rewrite (@exec_gep_field field_ptr struct_ptr zero index env1 mem sblk 0%Z
                 0%Z (Z.of_nat idx) types);
        [ | subst env1; lookup_solve | subst env1; lookup_solve
          | subst env1; lookup_solve | exact struct_ptr_type | lia ].
      replace (0 + 0 * Z.of_nat (length types) + Z.of_nat idx)%Z
        with (Z.of_nat idx) by lia.
      set (env2 := bindValue env1 field_ptr (RPointer sblk (Z.of_nat idx))).
      rewrite (@exec_store a field_ptr env2 mem v sblk (Z.of_nat idx)
                 (Z.of_nat (length types)));
        [ | subst env2 env1; lookup_solve | subst env2 env1; lookup_solve
          | exact Bs | lia ].
      set (mem1 := mkMemory _ _).
      rewrite (@exec_gep_element element_ptr array_ptr index env2 mem1 ablk 0%Z
                 (Z.of_nat idx) llvm_pointer_type_);
        [ | subst env2 env1; lookup_solve | subst env2 env1; lookup_solve
          | exact array_ptr_type ].
      replace (0 + Z.of_nat idx * slotsOf llvm_pointer_type_)%Z
        with (Z.of_nat idx) by (cbn [slotsOf llvm_pointer_type_ getPointerTo]; lia).
      set (env3 := bindValue env2 element_ptr (RPointer ablk (Z.of_nat idx))).
      rewrite (@exec_bitcast casted field_ptr env3 mem1
                 (RPointer sblk (Z.of_nat idx)));
        [ | subst env3 env2 env1; lookup_solve ].
      set (env4 := bindValue env3 casted (RPointer sblk (Z.of_nat idx))).
      rewrite (@exec_store casted element_ptr env4 mem1
                 (RPointer sblk (Z.of_nat idx)) ablk (Z.of_nat idx) asize);
        [ | subst env4 env3 env2 env1; lookup_solve
          | subst env4 env3 env2 env1; lookup_solve
          | exact Ba | lia ].
      set (mem2 := mkMemory _ _).
      assert (Hkeep : forall w, value_id w < next ->
                                lookupValue env4 w = lookupValue env w).
      { intros w Hw. subst env4 env3 env2 env1.
        unfold_values.
        repeat (rewrite lookup_bindValue_other by (cbn [value_id]; lia)).
        reflexivity. }
      destruct (IH vrest (S idx) (4 + next) env4 mem2 asize) as
          (env' & mem' & Hexec & Henv & Hblocks & Hcells & Hframe).
      + lia.
      + lia.
      + lia.
      + eapply Forall_impl; [|exact Hrestlt]. cbn beta. intros; lia.
      + rewrite Hkeep by lia. exact Es.
      + rewrite Hkeep by lia. exact Ea.
      + rewrite Hkeep by lia. exact Ez.
      + apply (Forall2_lookup_keep _ _ _ _ _ Hkeep Hrestlt Hrest).
      + exact Bs.
      + exact Ba.
      + lia.
      + lia.
      + lia.
      + exists env', mem'. split; [exact Hexec|]. split; [|split; [|split]].
        * intros id Hid. rewrite Henv by lia.
          subst env4 env3 env2 env1. unfold_values.
          repeat (rewrite bindValue_other by (cbn [value_id]; lia)).
          reflexivity.
        * rewrite Hblocks. reflexivity.
        * intros k v0 Hk. destruct k as [|k].
          -- cbn [nth_error] in Hk. inversion Hk; subst v0.
             rewrite Nat.add_0_r.
             rewrite !Hframe by (right; lia).
             subst mem2 mem1. cbn [mem_cells].
             rewrite !Nat.eqb_refl, !Z.eqb_refl. cbn [andb].
             destruct (Nat.eqb_spec sblk ablk) as [E|_]; [contradiction|].
             cbn [andb]. split; reflexivity.
          -- cbn [nth_error] in Hk.
             replace (idx + S k) with (S idx + k) by lia.
             apply Hcells. exact Hk.
        * intros b o Hbo. rewrite Hframe by (destruct Hbo; [left; assumption | right; lia]).
          subst mem2 mem1. cbn [mem_cells].
          destruct Hbo as [[Hb1 Hb2]|Ho].
          -- destruct (Nat.eqb_spec b ablk); [contradiction|].
             destruct (Nat.eqb_spec b sblk); [contradiction|]. reflexivity.
          -- destruct (Z.eqb_spec o (Z.of_nat idx)); [lia|].
             rewrite !andb_false_r. reflexivity.
  Qed.
End StoreLoop.

Lemma skipn_length_app : forall (A : Type) (l l' : list A),
    skipn (length l) (l ++ l') = l'.
Proof. induction l as [|x l IH]; intros l'; simpl; [reflexivity | apply IH]. Qed.

Lemma emittedSince_advance : forall st ops n,
    emittedSince st (advance st ops n) = ops.
Proof. intros st ops n. unfold emittedSince, advance. simpl. apply skipn_length_app. Qed.

Lemma blockSize_app_old : forall mem size cells b z,
    blockSize mem b = Some z ->
    blockSize (mkMemory (mem_blocks mem ++ [size]) cells) b = Some z.
Proof.
  intros mem size cells b z H. unfold blockSize in *. cbn [mem_blocks].
  rewrite nth_error_app1; [exact H|]. apply nth_error_Some. congruence.
Qed.

Lemma blockSize_app_new : forall mem size cells,
    blockSize (mkMemory (mem_blocks mem ++ [size]) cells) (length (mem_blocks mem))
    = Some size.
Proof.
  intros mem size cells. unfold blockSize. cbn [mem_blocks].
  rewrite nth_error_app2 by lia. rewrite Nat.sub_diag. reflexivity.
Qed.

(** C5.  For every ordered list of kernel argument values, zero of them
    included, generateParamsArray returns the base address of a
    stack-allocated array of type-erased pointers, one per argument: when
    the emitted code is run, slot [i] of the array holds the address of
    field [i] of one stack-allocated aggregate, and that field holds the
    [i]-th argument value.  Both blocks are fresh and have as many slots as
    there are arguments, so that no argument gives an empty array and an
    empty aggregate.  The argument list is the promoted operand list; its
    values have LLVM types, are defined before the insertion point and are
    bound in the environment, and its length is in the range of the i32
    indices that the code emits. *)
Theorem generateParamsArray_marshals :
  forall launch_op operands st arguments st1 vals env mem,
    promoteOperands
      (take_back (getNumKernelOperands launch_op) (getOperands launch_op))
      (take_back (getNumKernelOperands launch_op) operands) st
    = Some (arguments, st1) ->
    Forall (fun a => isLLVMType (value_type a) = true) arguments ->
    Forall (fun a => value_id a < next_id st1) arguments ->
    Forall2 (fun a v => lookupValue env a = Some v) arguments vals ->
    (Z.of_nat (length arguments) < 2 ^ 31)%Z ->
    exists array_ptr st2 env' mem' ablk sblk,
      generateParamsArray launch_op operands st = Some (array_ptr, st2) /\
      value_type array_ptr = llvm_pointer_pointer_type_ /\
      execOperations (emittedSince st1 st2) (env, mem) = Some (env', mem') /\
      lookupValue env' array_ptr = Some (RPointer ablk 0) /\
      ablk <> sblk /\
      blockSize mem ablk = None /\ blockSize mem sblk = None /\
      blockSize mem' ablk = Some (Z.of_nat (length arguments)) /\
      blockSize mem' sblk = Some (Z.of_nat (length arguments)) /\
      (forall i v, nth_error vals i = Some v ->
         load mem' ablk (Z.of_nat i) = Some (RPointer sblk (Z.of_nat i)) /\
         load mem' sblk (Z.of_nat i) = Some v).
Proof.
  intros launch_op operands st arguments st1 vals env mem
         Hprom Htypes Hfresh Hvals Hrange.
  set (next := next_id st1).
  set (types := map value_type arguments).
  set (n := length arguments) in *.
  set (sblk := length (mem_blocks mem)).
  set (ablk := S sblk).
  exists (marshalArrayPtr next).
  eexists. 
  assert (Hn : length types = n) by (subst types n; apply length_map).
  (* run the five leading operations *)
  set (one := mkValue next llvm_int32_type_).
  set (struct_ptr := marshalStructPtr types next).
  set (array_size := mkValue (2 + next) llvm_int32_type_).
  set (array_ptr := marshalArrayPtr next).
  set (zero := mkValue (4 + next) llvm_int32_type_).
  set (env1 := bindValue env one (RInt 1)).
  set (mem1 := mkMemory (mem_blocks mem ++ [(1 * slotsOf (createStructTy types))%Z])
                        (mem_cells mem)).
  set (env2 := bindValue env1 struct_ptr (RPointer sblk 0)).
  set (env3 := bindValue env2 array_size (RInt (Z.of_nat n))).
  set (mem2 := mkMemory (mem_blocks mem1 ++ [(Z.of_nat n * slotsOf llvm_pointer_type_)%Z])
                        (mem_cells mem1)).
  set (env4 := bindValue env3 array_ptr (RPointer ablk 0)).
  set (env5 := bindValue env4 zero (RInt 0)).
  assert (Hkeep : forall w, value_id w < next ->
                            lookupValue env5 w = lookupValue env w).
  { intros w Hw. subst env5 env4 env3 env2 env1.
    unfold one, struct_ptr, array_size, array_ptr, zero,
      marshalStructPtr, marshalArrayPtr.
    repeat (rewrite lookup_bindValue_other by (cbn [value_id]; lia)).
    reflexivity. }
  destruct (@exec_storeOps struct_ptr array_ptr zero types sblk ablk
              eq_refl eq_refl (n_Sn sblk)
              arguments vals 0 (5 + next) env5 mem2 (Z.of_nat n))
    as (env' & mem' & Hexec & Henv & Hblocks & Hcells & Hframe).
  - unfold struct_ptr, marshalStructPtr. cbn [value_id]. lia.
  - unfold array_ptr, marshalArrayPtr. cbn [value_id]. lia.
  - unfold zero. cbn [value_id]. lia.
  - eapply Forall_impl; [|exact Hfresh]. cbn beta. fold next. intros; lia.
  - subst env5 env4 env3 env2.
    unfold one, struct_ptr, array_size, array_ptr, zero,
      marshalStructPtr, marshalArrayPtr.
    repeat (rewrite lookup_bindValue_other by (cbn [value_id]; lia)).
    apply bindValue_same.
  - subst env5 env4.
    unfold one, struct_ptr, array_size, array_ptr, zero,
      marshalStructPtr, marshalArrayPtr.
    repeat (rewrite lookup_bindValue_other by (cbn [value_id]; lia)).
    apply bindValue_same.
  - subst env5. apply bindValue_same.
  - apply (Forall2_lookup_keep _ _ _ _ _ Hkeep Hfresh Hvals).
  - subst mem2. apply blockSize_app_old. subst mem1.
    rewrite blockSize_app_new. cbn [slotsOf createStructTy]. f_equal. lia.
  - subst mem2 ablk sblk.
    replace (S (length (mem_blocks mem))) with (length (mem_blocks mem1))
      by (subst mem1; cbn [mem_blocks]; rewrite length_app; cbn [length]; lia).
    rewrite blockSize_app_new. cbn [slotsOf llvm_pointer_type_ getPointerTo].
    f_equal. lia.
  - cbn [Nat.add]. lia.
  - cbn [Nat.add]. lia.
  - cbn [Nat.add]. lia.
  - exists env', mem', ablk, sblk.
    split; [apply (generateParamsArray_emits _ _ _ _ _ Hprom Htypes)|].
    split; [reflexivity|].
    split.
    { rewrite emittedSince_advance. fold next types n.
      unfold marshalOps. fold one struct_ptr array_size array_ptr zero.
      rewrite !getI32IntegerAttr_small by lia.
      cbn [app execOperations execOperation].
      rewrite exec_constant. fold env1.
      rewrite (@exec_alloca struct_ptr one 0%Z env1 mem 1%Z (createStructTy types));
        [ | subst env1; apply bindValue_same | reflexivity | lia ].
      fold sblk mem1 env2. fold n.
      rewrite exec_constant. fold env3.
      rewrite (@exec_alloca array_ptr array_size 0%Z env3 mem1 (Z.of_nat n)
                 llvm_pointer_type_);
        [ | subst env3; apply bindValue_same | reflexivity | lia ].
      replace (length (mem_blocks mem1)) with ablk
        by (subst mem1 ablk sblk; cbn [mem_blocks]; rewrite length_app;
            cbn [length]; lia).
      fold mem2 env4.
      rewrite exec_constant. fold env5.
      exact Hexec. }
    assert (Bs' : blockSize mem' sblk = Some (Z.of_nat n)).
    { unfold blockSize. rewrite Hblocks. fold (blockSize mem2 sblk).
      subst mem2. apply blockSize_app_old. subst mem1.
      rewrite blockSize_app_new. cbn [slotsOf createStructTy]. f_equal. lia. }
    assert (Ba' : blockSize mem' ablk = Some (Z.of_nat n)).
    { unfold blockSize. rewrite Hblocks. fold (blockSize mem2 ablk).
      subst mem2 ablk sblk.
      replace (S (length (mem_blocks mem))) with (length (mem_blocks mem1))
        by (subst mem1; cbn [mem_blocks]; rewrite length_app; cbn [length]; lia).
      rewrite blockSize_app_new. cbn [slotsOf llvm_pointer_type_ getPointerTo].
      f_equal. lia. }
    split.
    { unfold lookupValue. rewrite Henv
        by (unfold array_ptr, marshalArrayPtr; cbn [value_id]; lia).
      fold (lookupValue env5 array_ptr). subst env5 env4.
      unfold zero, array_ptr, marshalArrayPtr.
      rewrite lookup_bindValue_other by (cbn [value_id]; lia).
      apply bindValue_same. }
    split; [subst ablk; lia|].
    split; [apply nth_error_None; subst ablk sblk; lia|].
    split; [apply nth_error_None; subst sblk; lia|].
    split; [exact Ba'|]. split; [exact Bs'|].
    intros i v Hi.
    assert (Hlt : i < n).
    { subst n. rewrite (Forall2_length Hvals).
      apply nth_error_Some. congruence. }
    destruct (Hcells i v Hi) as [Hc1 Hc2]. cbn [Nat.add] in Hc1, Hc2.
    rewrite (load_inBounds _ _ _ _ Ba') by lia.
    rewrite (load_inBounds _ _ _ _ Bs') by lia.
    split; assumption.
Qed.

(** The scenario's two arguments, marshalled and read back. *)
Lemma generateParamsArray_marshals_witness :
  exists array_ptr st2 env' mem' ablk sblk,
    generateParamsArray example_launch (getOperands example_launch) example_state
    = Some (array_ptr, st2) /\
    value_type array_ptr = llvm_pointer_pointer_type_ /\
    execOperations (emittedSince example_state st2) (example_env, example_memory)
    = Some (env', mem') /\
    lookupValue env' array_ptr = Some (RPointer ablk 0) /\
    ablk <> sblk /\
    blockSize example_memory ablk = None /\ blockSize example_memory sblk = None /\
    blockSize mem' ablk = Some 2%Z /\
    blockSize mem' sblk = Some 2%Z /\
    (forall i v, nth_error [RInt 11; RInt 22] i = Some v ->
       load mem' ablk (Z.of_nat i) = Some (RPointer sblk (Z.of_nat i)) /\
       load mem' sblk (Z.of_nat i) = Some v).
Proof.
  apply (@generateParamsArray_marshals example_launch (getOperands example_launch)
           example_state example_arguments example_state
           [RInt 11; RInt 22] example_env example_memory).
  - reflexivity.
  - repeat constructor.
  - repeat constructor.
  - repeat constructor.
  - vm_compute. reflexivity.
Defined.

(** ** The helpers of the launch rule *)

Lemma createGlobalString_eq : forall name value linkage st,
    createGlobalString name value linkage st =
    Some (mkValue (next_id st) llvm_pointer_type_,
          advance (emitOrReuse name value linkage st)
            [OpLLVM (AddressOfOp (mkValue (next_id st) llvm_pointer_type_) name)] 1).
Proof.
  intros name value linkage [mb pf ma bb re ni dg mf].
  unfold createGlobalString, emitOrReuse, getModuleBody, bind.
  cbv beta iota.
  destruct (findGlobal _ name); reflexivity.
Qed.

Lemma extractFields_frame : forall packed positions st vs st',
    extractFields packed positions st = Some (vs, st') ->
    exists ops, st' = advance st ops (length positions) /\
                length vs = length positions /\
                Forall (fun op => exists r c pos, op = OpLLVM (ExtractValueOp r c pos)) ops.
Proof.
  intros packed positions.
  induction positions as [|pos rest IH]; intros st vs st' H.
  - cbn in H. inversion H; subst. exists []. rewrite advance_nil.
    repeat split. constructor.
  - cbn [extractFields] in H.
    apply bind_Some in H. destruct H as (v & st1 & Hv & H).
    apply bind_Some in H. destruct H as (vs' & st2 & Hvs & H).
    unfold ret in H. inversion H; subst.
    destruct (IH _ _ _ Hvs) as (ops & Hst & Hlen & Hops).
    destruct st as [mb pf ma bb re ni dg mf].
    unfold extractField, createExtractValueOp, bind, ret, freshValue, insertOp in Hv.
    cbv beta iota in Hv. cbn [mod_before parent_func mod_after blk_before
                         root_erased next_id diagnostics match_failures] in Hv.
    inversion Hv; subst.
    eexists (_ :: ops). split.
    + unfold advance. cbn. rewrite <- app_assoc. cbn.
      do 2 f_equal. lia.
    + split; [cbn; lia|]. constructor; [|exact Hops]. eauto.
Qed.

Lemma extractFields_marshal : forall packed positions st vs st',
    extractFields packed positions st = Some (vs, st') ->
    exists ops n, st' = advance st ops n /\ forallb isMarshalOp ops = true.
Proof.
  intros packed positions st vs st' H.
  destruct (extractFields_frame _ _ _ _ _ H) as (ops & Hst & _ & Hops).
  exists ops, (length positions). split; [exact Hst|].
  apply forallb_forall. intros op Hin.
  rewrite Forall_forall in Hops. destruct (Hops op Hin) as (r & c & pos & ->).
  reflexivity.
Qed.

Lemma promoteOperands_frame : forall opOperands operands st arguments st',
    promoteOperands opOperands operands st = Some (arguments, st') ->
    exists ops n, st' = advance st ops n /\ forallb isMarshalOp ops = true.
Proof.
  induction opOperands as [|operand opRest IH]; intros operands st arguments st' H.
  - cbn in H. inversion H; subst. exists [], 0. rewrite advance_nil. split; reflexivity.
  - destruct operands as [|llvmOperand rest].
    + cbn in H. inversion H; subst. exists [], 0. rewrite advance_nil. split; reflexivity.
    + cbn [promoteOperands] in H.
      apply bind_Some in H. destruct H as (promoted & st1 & Hp & H).
      apply bind_Some in H. destruct H as (others & st2 & Ho & H).
      unfold ret in H. inversion H; subst.
      destruct (IH _ _ _ _ Ho) as (ops2 & n2 & Hst2 & Hops2).
      assert (Hfirst : exists ops1 n1, st1 = advance st ops1 n1
                                       /\ forallb isMarshalOp ops1 = true).
      { destruct (value_type operand);
          try (unfold ret in Hp; inversion Hp; subst; exists [], 0;
               rewrite advance_nil; split; reflexivity).
        - unfold unpackMemRef in Hp. eapply extractFields_marshal. exact Hp.
        - unfold unpackUnrankedMemRef in Hp. eapply extractFields_marshal. exact Hp. }
      destruct Hfirst as (ops1 & n1 & Hst1 & Hops1).
      exists (ops1 ++ ops2), (n2 + n1). subst st' st1.
      rewrite advance_advance. split; [reflexivity|].
      rewrite forallb_app, Hops1, Hops2. reflexivity.
Qed.

Lemma storeOps_marshal : forall struct_ptr array_ptr zero types arguments idx next,
    forallb isMarshalOp (storeOps struct_ptr array_ptr zero types idx arguments next)
    = true.
Proof.
  intros struct_ptr array_ptr zero types arguments.
  induction arguments as [|a rest IH]; intros idx next.
  - reflexivity.
  - cbn [storeOps app forallb isMarshalOp isEmittedOp isCallOp negb andb].
    apply IH.
Qed.

Lemma marshalOps_marshal : forall arguments types next,
    forallb isMarshalOp (marshalOps arguments types next) = true.
Proof.
  intros arguments types next. unfold marshalOps.
  cbn [app forallb isMarshalOp isEmittedOp isCallOp negb andb].
  apply storeOps_marshal.
Qed.

Lemma castTypes_Forall : forall arguments types,
    castTypes arguments = Some types ->
    Forall (fun a => isLLVMType (value_type a) = true) arguments.
Proof.
  induction arguments as [|a rest IH]; intros types H.
  - constructor.
  - cbn [castTypes] in H. unfold castLLVMType in H.
    destruct (isLLVMType (value_type a)) eqn:Ha; [|discriminate].
    destruct (castTypes rest) as [ts|] eqn:Hts; [|discriminate].
    constructor; [exact Ha | eapply IH; reflexivity].
Qed.

(** What a returning generateParamsArray has done. *)
Lemma generateParamsArray_inv : forall launch_op operands st array_ptr st',
    generateParamsArray launch_op operands st = Some (array_ptr, st') ->
    exists arguments st1,
      promoteOperands
        (take_back (getNumKernelOperands launch_op) (getOperands launch_op))
        (take_back (getNumKernelOperands launch_op) operands) st
      = Some (arguments, st1) /\
      Forall (fun a => isLLVMType (value_type a) = true) arguments /\
      array_ptr = marshalArrayPtr (next_id st1) /\
      st' = advance st1
              (marshalOps arguments (map value_type arguments) (next_id st1))
              (5 + 4 * length arguments).
Proof.
  intros launch_op operands st array_ptr st' H.
  destruct (promoteOperands
              (take_back (getNumKernelOperands launch_op) (getOperands launch_op))
              (take_back (getNumKernelOperands launch_op) operands) st)
    as [[arguments st1]|] eqn:Hprom.
  2:{ unfold generateParamsArray in H.
      rewrite (bind_None _ _ _ _ _ Hprom) in H. discriminate. }
  destruct (castTypes arguments) as [types|] eqn:Hcast.
  2:{ rewrite (generateParamsArray_aborts_on_foreign_type _ _ _ _ _ Hprom Hcast) in H.
      discriminate. }
  pose proof (castTypes_Forall _ _ Hcast) as Htypes.
  rewrite (generateParamsArray_emits _ _ _ _ _ Hprom Htypes) in H.
  inversion H; subst. exists arguments, st1. repeat split; assumption.
Qed.

Lemma generateParamsArray_frame : forall launch_op operands st array_ptr st',
    generateParamsArray launch_op operands st = Some (array_ptr, st') ->
    exists ops n, st' = advance st ops n /\ forallb isMarshalOp ops = true.
Proof.
  intros launch_op operands st array_ptr st' H.
  destruct (generateParamsArray_inv _ _ _ _ _ H)
    as (arguments & st1 & Hprom & _ & _ & Hst').
  destruct (promoteOperands_frame _ _ _ _ _ Hprom) as (ops1 & n1 & Hst1 & Hops1).
  eexists (ops1 ++ _), _. subst st' st1. rewrite advance_advance.
  split; [reflexivity|].
  rewrite forallb_app, Hops1, marshalOps_marshal. reflexivity.
Qed.

(** ** The cases of matchAndRewrite *)

Lemma isSynchronous_false : forall l,
    isSynchronous l = false <-> asyncDependencies l <> [] \/ asyncToken l <> None.
Proof.
  intros l. unfold isSynchronous.
  destruct (asyncDependencies l), (asyncToken l); cbn; split; intros H;
    try discriminate; try reflexivity;
    try (left; discriminate); try (right; discriminate).
  destruct H as [H|H]; contradiction.
Qed.

Lemma isSynchronous_true : forall l,
    isSynchronous l = true <-> asyncDependencies l = [] /\ asyncToken l = None.
Proof.
  intros l. unfold isSynchronous.
  destruct (asyncDependencies l), (asyncToken l); cbn; split; intros H;
    try discriminate; try reflexivity; try (split; reflexivity);
    destruct H; discriminate.
Qed.

Lemma matchAndRewrite_async : forall p launch_op operands st,
    isSynchronous launch_op = false ->
    matchAndRewrite p launch_op operands st
    = Some (failure, withMatchFailure asyncMessage st).
Proof.
  intros p l operands st H. unfold matchAndRewrite, isSynchronous in *.
  replace (negb (isEmpty (asyncDependencies l)) || isSome (asyncToken l))
    with true.
  - reflexivity.
  - destruct (isEmpty (asyncDependencies l)), (isSome (asyncToken l));
      cbn in *; congruence.
Qed.

Lemma matchAndRewrite_unresolved : forall p launch_op operands st,
    isSynchronous launch_op = true ->
    resolvedModule st launch_op = None ->
    matchAndRewrite p launch_op operands st = None.
Proof.
  intros p l operands st H Hres. unfold matchAndRewrite, isSynchronous in *.
  replace (negb (isEmpty (asyncDependencies l)) || isSome (asyncToken l))
    with false
    by (destruct (isEmpty (asyncDependencies l)), (isSome (asyncToken l));
        cbn in *; congruence).
  unfold lookupNearestGPUModule, getModuleBody, bind, ret, lift.
  unfold resolvedModule in Hres. rewrite Hres. reflexivity.
Qed.

Lemma matchAndRewrite_missing : forall p launch_op operands st kernel_module,
    isSynchronous launch_op = true ->
    resolvedModule st launch_op = Some kernel_module ->
    getAttrOfType_StringAttr kernel_module (gpu_binary_annotation_ p) = None ->
    matchAndRewrite p launch_op operands st
    = Some (failure, withDiagnostic (missingAttributeDiagnostic p kernel_module) st).
Proof.
  intros p l operands st km H Hres Hattr. unfold matchAndRewrite, isSynchronous in *.
  replace (negb (isEmpty (asyncDependencies l)) || isSome (asyncToken l))
    with false
    by (destruct (isEmpty (asyncDependencies l)), (isSome (asyncToken l));
        cbn in *; congruence).
  unfold lookupNearestGPUModule, getModuleBody, lift.
  unfold resolvedModule in Hres.
  unfold bind at 1. unfold bind at 1. unfold ret at 1. rewrite Hres.
  unfold bind at 1. rewrite Hattr.
  reflexivity.
Qed.

Lemma matchAndRewrite_rewrites :
  forall p launch_op operands st kernel_module binary,
    isSynchronous launch_op = true ->
    resolvedModule st launch_op = Some kernel_module ->
    getAttrOfType_StringAttr kernel_module (gpu_binary_annotation_ p) = Some binary ->
    let st2 := stateAfterGlobals p launch_op kernel_module binary st in
    matchAndRewrite p launch_op operands st =
    match func_kind (parent_func st), nth_error (func_arguments (parent_func st)) 0,
          generateParamsArray launch_op operands st2 with
    | LLVMFunc, Some context_arg, Some (kernel_params, st3) =>
        match nth_error operands 0, nth_error operands 1, nth_error operands 2,
              nth_error operands 3, nth_error operands 4, nth_error operands 5 with
        | Some grid_x, Some grid_y, Some grid_z,
          Some block_x, Some block_y, Some block_z =>
            Some (success,
                  withRootErased true
                    (advance (snd (ensureEntryPoint p st3))
                       [OpLLVM
                          (CallOp llvm_void_type_
                             (func_name (fst (ensureEntryPoint p st3)))
                             [context_arg;
                              mkValue (next_id st) llvm_pointer_type_;
                              mkValue (S (next_id st)) llvm_pointer_type_;
                              grid_x; grid_y; grid_z;
                              block_x; block_y; block_z; kernel_params])] 0))
        | _, _, _, _, _, _ => None
        end
    | _, _, _ => None
    end.
Proof.
  intros p l operands st km binary H Hres Hattr st2.
  pose proof H as Hsync. apply isSynchronous_true in Hsync.
  destruct Hsync as [Hdeps _].
  unfold matchAndRewrite, isSynchronous in *.
  replace (negb (isEmpty (asyncDependencies l)) || isSome (asyncToken l))
    with false
    by (destruct (isEmpty (asyncDependencies l)), (isSome (asyncToken l));
        cbn in *; congruence).
  unfold lookupNearestGPUModule, getModuleBody, lift.
  unfold resolvedModule in Hres.
  unfold bind at 1. unfold bind at 1. unfold ret at 1. rewrite Hres.
  unfold bind at 1. rewrite Hattr.
  unfold bind at 1. rewrite createGlobalString_eq.
  unfold bind at 1. rewrite createGlobalString_eq.
  fold (blobGlobalName (gpu_module_name km)).
  fold (kernelNameGlobalName (gpu_module_name km) (getKernelName l)).
  change (advance
            (emitOrReuse (kernelNameGlobalName (gpu_module_name km) (getKernelName l))
               (getKernelName l ++ String Ascii.zero EmptyString) Internal _) _ 1)
    with st2.
  assert (Hpf : parent_func st2 = parent_func st).
  { subst st2. unfold stateAfterGlobals, emitOrReuse.
    destruct st as [mb pf ma bb re ni dg mf].
    repeat match goal with |- context [findGlobal ?b ?n] =>
                           destruct (findGlobal b n) end; reflexivity. }
  assert (Hni : next_id (advance
                  (emitOrReuse (blobGlobalName (gpu_module_name km)) binary Internal st)
                  [OpLLVM (AddressOfOp (mkValue (next_id st) llvm_pointer_type_)
                             (blobGlobalName (gpu_module_name km)))] 1)
                = S (next_id st)).
  { unfold emitOrReuse. destruct st as [mb pf ma bb re ni dg mf].
    destruct (findGlobal _ _); reflexivity. }
  rewrite Hni.
  unfold getParentFunc. unfold bind at 1. rewrite Hpf.
  destruct (func_kind (parent_func st)).
  { reflexivity. }
  unfold bind at 1.
  destruct (nth_error (func_arguments (parent_func st)) 0) as [ctx|];
    [|reflexivity].
  unfold bind at 1.
  destruct (generateParamsArray l operands st2) as [[params st3]|]; [|reflexivity].
  unfold lookupNearestLLVMFunc, getModuleBody.
  unfold adaptorConfigOperand. rewrite Hdeps. cbn [length Nat.add].
  unfold ensureEntryPoint, entryPointDeclaration.
  destruct st3 as [mb pf ma bb re ni dg mf].
  unfold bind, ret, lift, insertAtModuleStart, createCallOp, insertOp, eraseOp.
  cbv beta iota.
  destruct (lookupSymbolIn _ kTfWrapperLibaryLaunchHelperName) as [[g|f|g]|];
    try destruct (func_kind f);
    cbn [mod_before parent_func mod_after blk_before
         root_erased next_id diagnostics match_failures];
    repeat match goal with
           | |- context [nth_error operands ?k] =>
               destruct (nth_error operands k); [|reflexivity]
           end;
    reflexivity.
Qed.

Lemma Extends_refl : forall p st, Extends p st st.
Proof.
  intros p st. exists [], []. cbn. rewrite app_nil_r.
  repeat split; try reflexivity. constructor. 
Qed.

Lemma Extends_trans : forall p st1 st2 st3,
    Extends p st1 st2 -> Extends p st2 st3 -> Extends p st1 st3.
Proof.
  intros p st1 st2 st3 (c1 & o1 & Hm1 & Hc1 & Hb1 & Ho1 & Hp1 & Ha1 & Hn1)
         (c2 & o2 & Hm2 & Hc2 & Hb2 & Ho2 & Hp2 & Ha2 & Hn2).
  exists (c2 ++ c1), (o1 ++ o2).
  rewrite Hm2, Hm1, Hb2, Hb1, Hp2, Hp1, Ha2, Ha1, <- !app_assoc.
  repeat split; try reflexivity.
  - apply Forall_app. split; assumption.
  - rewrite forallb_app, Ho1, Ho2. reflexivity.
  - lia.
Qed.

Lemma Extends_advance : forall p st ops n,
    forallb isEmittedOp ops = true -> Extends p st (advance st ops n).
Proof.
  intros p st ops n H. exists [], ops. cbn.
  repeat split; try reflexivity; try assumption. constructor. lia.
Qed.

Lemma Extends_prependTop : forall p st t,
    isCreatedTop p t -> Extends p st (prependTop t st).
Proof.
  intros p st t H. exists [t], []. cbn. rewrite app_nil_r.
  repeat split; try reflexivity. constructor; [exact H | constructor].
Qed.

Lemma Extends_withDiagnostic : forall p st d, Extends p st (withDiagnostic d st).
Proof.
  intros p st d. exists [], []. cbn. rewrite app_nil_r.
  repeat split; try reflexivity. constructor.
Qed.

Lemma Extends_withMatchFailure : forall p st msg, Extends p st (withMatchFailure msg st).
Proof.
  intros p st d. exists [], []. cbn. rewrite app_nil_r.
  repeat split; try reflexivity. constructor.
Qed.

Lemma Extends_withRootErased : forall p st b, Extends p st (withRootErased b st).
Proof.
  intros p st d. exists [], []. cbn. rewrite app_nil_r.
  repeat split; try reflexivity. constructor.
Qed.

Lemma Extends_emitOrReuse : forall p st name value,
    Extends p st (emitOrReuse name value Internal st).
Proof.
  intros p st name value. unfold emitOrReuse.
  destruct (findGlobal (moduleBody st) name).
  - apply Extends_refl.
  - apply Extends_prependTop. left. exists name, value. reflexivity.
Qed.

Lemma Extends_ensureEntryPoint : forall p st,
    Extends p st (snd (ensureEntryPoint p st)).
Proof.
  intros p st. unfold ensureEntryPoint.
  destruct (lookupSymbolIn (moduleBody st) kTfWrapperLibaryLaunchHelperName)
    as [[g|f|g]|]; try destruct (func_kind f); cbn [snd];
    try apply Extends_refl; apply Extends_prependTop; right; reflexivity.
Qed.

Lemma Extends_stateAfterGlobals : forall p l km binary st,
    Extends p st (stateAfterGlobals p l km binary st).
Proof.
  intros p l km binary st. unfold stateAfterGlobals.
  eapply Extends_trans; [|apply Extends_advance; reflexivity].
  eapply Extends_trans; [|apply Extends_emitOrReuse].
  eapply Extends_trans; [|apply Extends_advance; reflexivity].
  apply Extends_emitOrReuse.
Qed.

Lemma isMarshalOp_isEmittedOp : forall ops,
    forallb isMarshalOp ops = true -> forallb isEmittedOp ops = true.
Proof.
  intros ops H. apply forallb_forall. intros op Hin.
  rewrite forallb_forall in H. specialize (H op Hin).
  unfold isMarshalOp in H. apply andb_prop in H. tauto.
Qed.

Lemma Extends_generateParamsArray : forall p l operands st v st',
    generateParamsArray l operands st = Some (v, st') -> Extends p st st'.
Proof.
  intros p l operands st v st' H.
  destruct (generateParamsArray_frame _ _ _ _ _ H) as (ops & n & -> & Hops).
  apply Extends_advance. apply isMarshalOp_isEmittedOp. exact Hops.
Qed.

(** The outcomes of matchAndRewrite, case by case. *)
Lemma matchAndRewrite_cases : forall p l operands st r st',
    matchAndRewrite p l operands st = Some (r, st') ->
    (isSynchronous l = false /\ r = failure /\
     st' = withMatchFailure asyncMessage st)
    \/ (exists km,
          isSynchronous l = true /\ resolvedModule st l = Some km /\
          getAttrOfType_StringAttr km (gpu_binary_annotation_ p) = None /\
          r = failure /\ st' = withDiagnostic (missingAttributeDiagnostic p km) st)
    \/ (exists km binary context_arg kernel_params st3
               grid_x grid_y grid_z block_x block_y block_z,
          isSynchronous l = true /\ resolvedModule st l = Some km /\
          getAttrOfType_StringAttr km (gpu_binary_annotation_ p) = Some binary /\
          func_kind (parent_func st) = LLVMFunc /\
          nth_error (func_arguments (parent_func st)) 0 = Some context_arg /\
          generateParamsArray l operands (stateAfterGlobals p l km binary st)
          = Some (kernel_params, st3) /\
          nth_error operands 0 = Some grid_x /\
          nth_error operands 1 = Some grid_y /\
          nth_error operands 2 = Some grid_z /\
          nth_error operands 3 = Some block_x /\
          nth_error operands 4 = Some block_y /\
          nth_error operands 5 = Some block_z /\
          r = success /\
          st' = withRootErased true
                  (advance (snd (ensureEntryPoint p st3))
                     [OpLLVM
                        (CallOp llvm_void_type_
                           (func_name (fst (ensureEntryPoint p st3)))
                           [context_arg;
                            mkValue (next_id st) llvm_pointer_type_;
                            mkValue (S (next_id st)) llvm_pointer_type_;
                            grid_x; grid_y; grid_z;
                            block_x; block_y; block_z; kernel_params])] 0)).
Proof.
  intros p l operands st r st' H.
  destruct (isSynchronous l) eqn:Hsync.
  2:{ left. rewrite (matchAndRewrite_async _ _ _ _ Hsync) in H.
      inversion H; subst. repeat split; assumption. }
  right.
  destruct (resolvedModule st l) as [km|] eqn:Hres.
  2:{ rewrite (matchAndRewrite_unresolved _ _ _ _ Hsync Hres) in H. discriminate. }
  destruct (getAttrOfType_StringAttr km (gpu_binary_annotation_ p))
    as [binary|] eqn:Hattr.
  2:{ left. exists km.
      rewrite (matchAndRewrite_missing _ _ _ _ _ Hsync Hres Hattr) in H.
      inversion H; subst. repeat split; assumption. }
  right. exists km, binary.
  rewrite (matchAndRewrite_rewrites _ _ _ _ _ _ Hsync Hres Hattr) in H.
  cbv zeta in H.
  destruct (func_kind (parent_func st)); [discriminate|].
  destruct (nth_error (func_arguments (parent_func st)) 0) as [ctx|];
    [|discriminate].
  destruct (generateParamsArray l operands (stateAfterGlobals p l km binary st))
    as [[params st3]|]; [|discriminate].
  destruct (nth_error operands 0) as [gx|]; [|discriminate].
  destruct (nth_error operands 1) as [gy|]; [|discriminate].
  destruct (nth_error operands 2) as [gz|]; [|discriminate].
  destruct (nth_error operands 3) as [bx|]; [|discriminate].
  destruct (nth_error operands 4) as [b_y|]; [|discriminate].
  destruct (nth_error operands 5) as [bz|]; [|discriminate].
  inversion H; subst.
  exists ctx, params, st3, gx, gy, gz, bx, b_y, bz.
  repeat split; try reflexivity; assumption.
Qed.

Lemma matchAndRewrite_extends : forall p l operands st r st',
    matchAndRewrite p l operands st = Some (r, st') -> Extends p st st'.
Proof.
  intros p l operands st r st' H.
  destruct (matchAndRewrite_cases _ _ _ _ _ _ H)
    as [(_ & _ & ->)
       |[(km & _ & _ & _ & _ & ->)
        |(km & binary & ctx & params & st3 & gx & gy & gz & bx & b_y & bz
          & _ & _ & _ & _ & _ & Hgen & _ & _ & _ & _ & _ & _ & _ & ->)]].
  - apply Extends_withMatchFailure.
  - apply Extends_withDiagnostic.
  - eapply Extends_trans; [|apply Extends_withRootErased].
    eapply Extends_trans; [|apply Extends_advance; reflexivity].
    eapply Extends_trans; [|apply Extends_ensureEntryPoint].
    eapply Extends_trans; [apply Extends_stateAfterGlobals|].
    eapply Extends_generateParamsArray. exact Hgen.
Qed.

(** ** The conversion engine *)

Lemma Grows_refl : forall p st, Grows p st st.
Proof.
  intros p st. exists [], []. cbn. rewrite app_nil_r.
  repeat split; try reflexivity. constructor.
Qed.

Lemma Grows_trans : forall p st1 st2 st3,
    Grows p st1 st2 -> Grows p st2 st3 -> Grows p st1 st3.
Proof.
  intros p st1 st2 st3 (c1 & o1 & Hm1 & Hc1 & Hb1 & Hp1 & Ha1)
         (c2 & o2 & Hm2 & Hc2 & Hb2 & Hp2 & Ha2).
  exists (c2 ++ c1), (o1 ++ o2).
  rewrite Hm2, Hm1, Hb2, Hb1, Hp2, Hp1, Ha2, Ha1, <- !app_assoc.
  repeat split; try reflexivity.
  apply Forall_app. split; assumption.
Qed.

Lemma Extends_Grows : forall p st st', Extends p st st' -> Grows p st st'.
Proof.
  intros p st st' (c & o & Hm & Hc & Hb & _ & Hp & Ha & _).
  exists c, o. repeat split; assumption.
Qed.

Lemma Grows_advance : forall p st ops n, Grows p st (advance st ops n).
Proof.
  intros p st ops n. exists [], ops. cbn.
  repeat split; try reflexivity. constructor.
Qed.

Lemma Grows_withRootErased : forall p st b, Grows p st (withRootErased b st).
Proof. intros. apply Extends_Grows, Extends_withRootErased. Qed.

Lemma isLegal_launch : forall l, isLegal passTarget (OpLaunchFunc l) = false.
Proof. reflexivity. Qed.

Lemma isEmittedOp_legal : forall op,
    isEmittedOp op = true -> isLegal passTarget op = true.
Proof.
  intros [l|o|d n a b]; try discriminate.
  destruct o; try discriminate; reflexivity.
Qed.


Section EngineFacts.
Variable p : ConvertLaunchFuncOpToTfRuntimeCallPattern.
Variable rules : GenericRules.

  (** What the engine does with a launch instruction. *)
Lemma legalizeOperation_launch : forall l st,
      legalizeOperation passTarget p rules (OpLaunchFunc l) st =
      match matchAndRewrite p l (map (remapValue rules) (getOperands l))
              (withRootErased false st) with
      | Some (r, st') =>
          if negb (failed r) && root_erased st'
          then Some (success, st')
          else Some (failure, advance st' [OpLaunchFunc l] 0)
      | None => None
      end.
  Proof.
    intros l st. unfold legalizeOperation. rewrite isLegal_launch.
    unfold resetRoot, isRootErased, keepOperations.
    unfold bind at 1.
    change (mkState (mod_before st) (parent_func st) (mod_after st)
              (blk_before st) false (next_id st) (diagnostics st)
              (match_failures st))
      with (withRootErased false st).
    unfold bind at 1.
    destruct (matchAndRewrite p l (map (remapValue rules) (getOperands l))
                (withRootErased false st)) as [[r st']|]; [|reflexivity].
    unfold bind at 1.
    destruct (negb (failed r) && root_erased st'); reflexivity.
  Qed.

  (** What the engine does with any other operation. *)
Lemma legalizeOperation_other : forall op st,
      isLaunchFunc op = false ->
      legalizeOperation passTarget p rules op st =
      if isLegal passTarget op then Some (success, advance st [op] 0)
      else match lowerOperation rules op with
           | Some ops =>
               if forallb (isLegal passTarget) ops
               then Some (success, advance st ops 0)
               else Some (failure, advance st [op] 0)
           | None => Some (failure, advance st [op] 0)
           end.
  Proof.
    intros op st Hop. unfold legalizeOperation.
    destruct (isLegal passTarget op); [reflexivity|].
    destruct op as [l|o|d n a b]; [discriminate | |];
      destruct (lowerOperation rules _) as [ops|]; try reflexivity;
      destruct (forallb (isLegal passTarget) ops); reflexivity.
  Qed.

Lemma legalizeOperation_grows : forall op st r st',
      legalizeOperation passTarget p rules op st = Some (r, st') ->
      Grows p st st'.
  Proof.
    intros op st r st' H.
    destruct (isLaunchFunc op) eqn:Hop.
    - destruct op as [l|o|d n a b]; try discriminate.
      rewrite legalizeOperation_launch in H.
      destruct (matchAndRewrite p l (map (remapValue rules) (getOperands l))
                  (withRootErased false st)) as [[r0 st0]|] eqn:Hm; [|discriminate].
      apply matchAndRewrite_extends, Extends_Grows in Hm.
      assert (G : Grows p st st0)
        by (eapply Grows_trans; [apply Grows_withRootErased | exact Hm]).
      destruct (negb (failed r0) && root_erased st0); inversion H; subst.
      + exact G.
      + eapply Grows_trans; [exact G | apply Grows_advance].
    - rewrite (legalizeOperation_other _ _ Hop) in H.
      destruct (isLegal passTarget op).
      + inversion H; subst. apply Grows_advance.
      + destruct (lowerOperation rules op) as [ops|].
        * destruct (forallb (isLegal passTarget) ops); inversion H; subst;
            apply Grows_advance.
        * inversion H; subst. apply Grows_advance.
  Qed.

  (** A legalized operation has left legal operations only. *)
Lemma legalizeOperation_success_legal : forall op st st',
      legalizeOperation passTarget p rules op st = Some (success, st') ->
      exists ops, blk_before st' = blk_before st ++ ops /\
                  forallb (isLegal passTarget) ops = true.
  Proof.
    intros op st st' H.
    destruct (isLaunchFunc op) eqn:Hop.
    - destruct op as [l|o|d n a b]; try discriminate.
      rewrite legalizeOperation_launch in H.
      destruct (matchAndRewrite p l (map (remapValue rules) (getOperands l))
                  (withRootErased false st)) as [[r0 st0]|] eqn:Hm; [|discriminate].
      destruct (negb (failed r0) && root_erased st0); inversion H; subst.
      apply matchAndRewrite_extends in Hm.
      destruct Hm as (c & ops & _ & _ & Hb & Hops & _).
      exists ops. split; [exact Hb|].
      apply forallb_forall. intros op Hin. apply isEmittedOp_legal.
      rewrite forallb_forall in Hops. apply Hops. exact Hin.
    - rewrite (legalizeOperation_other _ _ Hop) in H.
      destruct (isLegal passTarget op) eqn:Hl.
      + inversion H; subst. exists [op]. split; [reflexivity|].
        cbn. rewrite Hl. reflexivity.
      + destruct (lowerOperation rules op) as [ops|]; [|discriminate].
        destruct (forallb (isLegal passTarget) ops) eqn:Hops; [|discriminate].
        inversion H; subst. exists ops. split; [reflexivity | exact Hops].
  Qed.

  (** A legalized launch instruction was rewritten by the launch rule. *)
Lemma legalizeOperation_success_launch : forall l st st',
      legalizeOperation passTarget p rules (OpLaunchFunc l) st = Some (success, st') ->
      matchAndRewrite p l (map (remapValue rules) (getOperands l))
        (withRootErased false st) = Some (success, st').
  Proof.
    intros l st st' H. rewrite legalizeOperation_launch in H.
    destruct (matchAndRewrite p l (map (remapValue rules) (getOperands l))
                (withRootErased false st)) as [[r0 st0]|]; [|discriminate].
    destruct r0; cbn [failed negb andb] in H.
    - destruct (root_erased st0); inversion H; subst. reflexivity.
    - discriminate.
  Qed.

Lemma legalizeOperations_step : forall op rest st,
      legalizeOperations passTarget p rules (op :: rest) st =
      match legalizeOperation passTarget p rules op st with
      | Some (r, st1) =>
          if failed r then Some (failure, advance st1 rest 0)
          else legalizeOperations passTarget p rules rest st1
      | None => None
      end.
  Proof.
    intros op rest st. cbn [legalizeOperations]. unfold bind at 1.
    destruct (legalizeOperation passTarget p rules op st) as [[r st1]|];
      [|reflexivity].
    destruct (failed r); reflexivity.
  Qed.

Lemma legalizeOperations_grows : forall ops st r st',
      legalizeOperations passTarget p rules ops st = Some (r, st') ->
      Grows p st st'.
  Proof.
    induction ops as [|op rest IH]; intros st r st' H.
    - cbn in H. inversion H; subst. apply Grows_refl.
    - rewrite legalizeOperations_step in H.
      destruct (legalizeOperation passTarget p rules op st) as [[r1 st1]|] eqn:H1;
        [|discriminate].
      apply legalizeOperation_grows in H1.
      destruct (failed r1).
      + inversion H; subst.
        eapply Grows_trans; [exact H1 | apply Grows_advance].
      + eapply Grows_trans; [exact H1 | eapply IH; exact H].
  Qed.

Lemma legalizeOperations_success_legal : forall ops st st',
      legalizeOperations passTarget p rules ops st = Some (success, st') ->
      exists ops', blk_before st' = blk_before st ++ ops' /\
                   forallb (isLegal passTarget) ops' = true.
  Proof.
    induction ops as [|op rest IH]; intros st st' H.
    - cbn in H. inversion H; subst. exists []. rewrite app_nil_r. split; reflexivity.
    - rewrite legalizeOperations_step in H.
      destruct (legalizeOperation passTarget p rules op st) as [[r1 st1]|] eqn:H1;
        [|discriminate].
      destruct r1; cbn [failed] in H; [|discriminate].
      destruct (legalizeOperation_success_legal _ _ _ H1) as (o1 & Hb1 & Hl1).
      destruct (IH _ _ H) as (o2 & Hb2 & Hl2).
      exists (o1 ++ o2). rewrite Hb2, Hb1, <- app_assoc. split; [reflexivity|].
      rewrite forallb_app, Hl1, Hl2. reflexivity.
  Qed.

End EngineFacts.

Lemma isLegalTop_func : forall f,
    isLegalTop passTarget (TFunc f) =
    match func_kind f with LLVMFunc => true | BuiltinFunc => false end.
Proof. intros f. unfold isLegalTop, topOpName. destruct (func_kind f); reflexivity. Qed.

Lemma moduleBody_advance : forall st ops n, moduleBody (advance st ops n) = moduleBody st.
Proof. reflexivity. Qed.

Lemma moduleBody_withRootErased : forall st b,
    moduleBody (withRootErased b st) = moduleBody st.
Proof. reflexivity. Qed.

Section EngineWalk.
Variable p : ConvertLaunchFuncOpToTfRuntimeCallPattern.
Variable rules : GenericRules.
Variable J : list TopOp -> Prop.
Hypothesis J_stable : Stable p J.

Lemma legalizeOperation_preserves : forall op st r st',
      legalizeOperation passTarget p rules op st = Some (r, st') ->
      J (moduleBody st) -> J (moduleBody st').
  Proof.
    intros op st r st' H HJ.
    destruct (isLaunchFunc op) eqn:Hop.
    - destruct op as [l|o|d n a b]; try discriminate.
      rewrite legalizeOperation_launch in H.
      destruct (matchAndRewrite p l (map (remapValue rules) (getOperands l))
                  (withRootErased false st)) as [[r0 st0]|] eqn:Hm; [|discriminate].
      assert (J0 : J (moduleBody st0)).
      { destruct J_stable as [_ Hstep]. eapply Hstep; [|exact Hm]. exact HJ. }
      destruct (negb (failed r0) && root_erased st0); inversion H; subst; exact J0.
    - rewrite (legalizeOperation_other _ _ _ _ Hop) in H.
      destruct (isLegal passTarget op).
      + inversion H; subst. exact HJ.
      + destruct (lowerOperation rules op) as [ops|].
        * destruct (forallb (isLegal passTarget) ops); inversion H; subst; exact HJ.
        * inversion H; subst. exact HJ.
  Qed.

Lemma legalizeOperations_preserves : forall ops st r st',
      legalizeOperations passTarget p rules ops st = Some (r, st') ->
      J (moduleBody st) -> J (moduleBody st').
  Proof.
    induction ops as [|op rest IH]; intros st r st' H HJ.
    - cbn in H. inversion H; subst. exact HJ.
    - rewrite legalizeOperations_step in H.
      destruct (legalizeOperation passTarget p rules op st) as [[r1 st1]|] eqn:H1;
        [|discriminate].
      pose proof (legalizeOperation_preserves _ _ _ _ H1 HJ) as J1.
      destruct (failed r1).
      + inversion H; subst. exact J1.
      + eapply IH; [exact H | exact J1].
  Qed.
End EngineWalk.

Lemma focusOf_spec : forall rules f f',
    focusOf rules f = Some f' ->
    func_name f' = func_name f /\ func_kind f' = LLVMFunc
    /\ func_body f' = func_body f.
Proof.
  intros rules f f' H. unfold focusOf in H.
  destruct (func_kind f) eqn:Hk.
  - unfold lowerFunction in H.
    destruct (lowerSignature rules f) as [[t a]|]; [|discriminate].
    inversion H; subst. repeat split.
  - inversion H; subst. repeat split. exact Hk.
Qed.

Section EngineSteps.
Variable p : ConvertLaunchFuncOpToTfRuntimeCallPattern.
Variable rules : GenericRules.

Lemma convertTopOps_global : forall g rest es,
      convertTopOps passTarget p rules (TGlobal g :: rest) es =
      convertTopOps passTarget p rules rest
        (mkEngine (es_done es ++ [TGlobal g]) (es_next_id es)
                  (es_diagnostics es) (es_match_failures es)).
  Proof. reflexivity. Qed.

Lemma convertTopOps_gpu : forall g rest es,
      convertTopOps passTarget p rules (TGPUModule g :: rest) es =
      convertTopOps passTarget p rules rest
        (mkEngine (es_done es ++ [TGPUModule g]) (es_next_id es)
                  (es_diagnostics es) (es_match_failures es)).
  Proof. reflexivity. Qed.

Lemma convertTopOps_func : forall f rest es,
      convertTopOps passTarget p rules (TFunc f :: rest) es =
      match focusOf rules f with
      | Some f' =>
          match legalizeOperations passTarget p rules (func_body f')
                  (focusState es f' rest) with
          | Some (r, st) =>
              let f'' := setBody f' (blk_before st) in
              if failed r
              then Some (failure, mod_before st ++ TFunc f'' :: rest,
                         engineOf st (mod_before st ++ [TFunc f'']))
              else convertTopOps passTarget p rules rest
                     (engineOf st (mod_before st ++ [TFunc f'']))
          | None => None
          end
      | None => Some (failure, es_done es ++ TFunc f :: rest, es)
      end.
  Proof.
    intros f rest es. cbn [convertTopOps]. rewrite isLegalTop_func.
    unfold focusOf.
    destruct (func_kind f) eqn:Hk.
    - destruct (lowerFunction rules f) as [f'|] eqn:Hl; [|reflexivity].
      rewrite isLegalTop_func.
      unfold lowerFunction in Hl.
      destruct (lowerSignature rules f) as [[t a]|]; [|discriminate].
      inversion Hl; subst. cbn [func_kind]. reflexivity.
    - rewrite isLegalTop_func, Hk. reflexivity.
  Qed.

Section Preservation.
Variable J : list TopOp -> Prop.
Hypothesis J_stable : Stable p J.

Lemma convertTopOps_preserves : forall todo es r body es',
        convertTopOps passTarget p rules todo es = Some (r, body, es') ->
        J (es_done es ++ todo) -> J body.
    Proof.
      induction todo as [|t rest IH]; intros es r body es' H HJ.
      - cbn in H. inversion H; subst. rewrite app_nil_r in HJ. exact HJ.
      - destruct t as [g|f|g].
        + rewrite convertTopOps_global in H. eapply IH; [exact H|].
          cbn [es_done]. rewrite <- app_assoc. exact HJ.
        + rewrite convertTopOps_func in H.
          destruct (focusOf rules f) as [f'|] eqn:Hf.
          2:{ inversion H; subst. exact HJ. }
          destruct (focusOf_spec _ _ _ Hf) as (Hname & Hkind & Hbody).
          destruct (legalizeOperations passTarget p rules (func_body f')
                      (focusState es f' rest)) as [[r1 st]|] eqn:Hl;
            [|discriminate].
          assert (J0 : J (moduleBody (focusState es f' rest))).
          { unfold moduleBody, focusState. cbn.
            destruct J_stable as [Hrepl _]. eapply Hrepl; eassumption. }
          pose proof (legalizeOperations_preserves _ _ _ J_stable _ _ _ _ Hl J0) as J1.
          destruct (legalizeOperations_grows _ _ _ _ _ _ Hl)
            as (created & ops & Hmb & _ & _ & Hpf & Hma).
          assert (J2 : J (mod_before st ++ TFunc (setBody f' (blk_before st)) :: rest)).
          { destruct J_stable as [Hrepl _].
            apply (Hrepl _ (parent_func st)); [ | | ].
            - rewrite Hpf. reflexivity.
            - exact Hkind.
            - unfold moduleBody in J1. rewrite Hma in J1. exact J1. }
          cbv zeta in H. destruct (failed r1).
          * inversion H; subst. exact J2.
          * eapply IH; [exact H|]. cbn [es_done engineOf].
            rewrite <- app_assoc. exact J2.
        + rewrite convertTopOps_gpu in H. eapply IH; [exact H|].
          cbn [es_done]. rewrite <- app_assoc. exact HJ.
    Qed.
End Preservation.

  (** Every launch instruction of a legalized body was rewritten by the
      launch rule in a state that has every kept property [I]; what the
      conversion keeps from there on holds at the end of the body. *)
Lemma legalizeOperations_success_trace :
    forall (I : list TopOp -> Prop), Stable p I ->
    forall ops st st' l,
      legalizeOperations passTarget p rules ops st = Some (success, st') ->
      I (moduleBody st) ->
      In (OpLaunchFunc l) ops ->
      exists st1 st2,
        I (moduleBody st1) /\
        matchAndRewrite p l (map (remapValue rules) (getOperands l)) st1
        = Some (success, st2) /\
        (forall J : list TopOp -> Prop, Stable p J ->
           J (moduleBody st2) -> J (moduleBody st')).
  Proof.
    intros I HI.
    induction ops as [|op rest IH]; intros st st' l H HJ Hin.
    - contradiction.
    - rewrite legalizeOperations_step in H.
      destruct (legalizeOperation passTarget p rules op st) as [[r1 st1]|] eqn:H1;
        [|discriminate].
      destruct r1; cbn [failed] in H; [|discriminate].
      destruct Hin as [->|Hin].
      + exists (withRootErased false st), st1.
        split; [exact HJ|]. split.
        * apply legalizeOperation_success_launch. exact H1.
        * intros J HJs J1.
          eapply legalizeOperations_preserves; [exact HJs | exact H | exact J1].
      + eapply IH; [exact H | | exact Hin].
        eapply legalizeOperation_preserves; [exact HI | exact H1 | exact HJ].
  Qed.

  (** Every launch instruction of a host function of a successfully
      converted module was rewritten by the launch rule in a state that
      has every kept property [I]; what the conversion keeps from there on
      holds of the final module body. *)
Lemma convertTopOps_success_launch :
    forall (I : list TopOp -> Prop), Stable p I ->
    forall todo es body es' f l,
      convertTopOps passTarget p rules todo es = Some (success, body, es') ->
      I (es_done es ++ todo) ->
      In (TFunc f) todo -> In (OpLaunchFunc l) (func_body f) ->
      exists st1 st2,
        I (moduleBody st1) /\
        matchAndRewrite p l (map (remapValue rules) (getOperands l)) st1
        = Some (success, st2) /\
        (forall J : list TopOp -> Prop, Stable p J -> J (moduleBody st2) -> J body).
  Proof.
    intros I HI.
    induction todo as [|t rest IH]; intros es body es' f l H HJ Hf Hl.
    - contradiction.
    - destruct t as [g|f0|g].
      + rewrite convertTopOps_global in H.
        destruct Hf as [Hf|Hf]; [discriminate|].
        eapply IH; [exact H | | exact Hf | exact Hl].
        cbn [es_done]. rewrite <- app_assoc. exact HJ.
      + rewrite convertTopOps_func in H.
        destruct (focusOf rules f0) as [f'|] eqn:Hfoc; [|discriminate].
        destruct (focusOf_spec _ _ _ Hfoc) as (Hname & Hkind & Hbody).
        destruct (legalizeOperations passTarget p rules (func_body f')
                    (focusState es f' rest)) as [[r1 st]|] eqn:Hleg;
          [|discriminate].
        assert (I0 : I (moduleBody (focusState es f' rest))).
        { unfold moduleBody, focusState. cbn.
          destruct HI as [Hrepl _]. eapply Hrepl; eassumption. }
        destruct (legalizeOperations_grows _ _ _ _ _ _ Hleg)
          as (created & ops & Hmb & _ & _ & Hpf & Hma).
        assert (Hafter : forall J : list TopOp -> Prop, Stable p J ->
                  J (moduleBody st) ->
                  J (es_done (engineOf st
                       (mod_before st ++ [TFunc (setBody f' (blk_before st))]))
                     ++ rest)).
        { intros J HJs J1. cbn [es_done engineOf]. rewrite <- app_assoc.
          cbn [app]. destruct HJs as [Hrepl _].
          apply (Hrepl _ (parent_func st)).
          - rewrite Hpf. reflexivity.
          - exact Hkind.
          - unfold moduleBody in J1. rewrite Hma in J1. exact J1. }
        cbv zeta in H. destruct r1; cbn [failed] in H; [|discriminate].
        destruct Hf as [Hf|Hf].
        * inversion Hf; subst f0. rewrite <- Hbody in Hl.
          destruct (legalizeOperations_success_trace I HI _ _ _ _ Hleg I0 Hl)
            as (st1 & st2 & I1 & Hm & Hkeep).
          exists st1, st2. split; [exact I1|]. split; [exact Hm|].
          intros J HJs J2.
          eapply convertTopOps_preserves; [exact HJs | exact H |].
          apply Hafter; [exact HJs|]. apply Hkeep; assumption.
        * eapply IH; [exact H | | exact Hf | exact Hl].
          apply Hafter; [exact HI|].
          eapply legalizeOperations_preserves; [exact HI | exact Hleg | exact I0].
      + rewrite convertTopOps_gpu in H.
        destruct Hf as [Hf|Hf]; [discriminate|].
        eapply IH; [exact H | | exact Hf | exact Hl].
        cbn [es_done]. rewrite <- app_assoc. exact HJ.
  Qed.
End EngineSteps.

(** ** Module bodies under conversion *)

Lemma sameSymbol_refl : forall t, sameSymbol t t.
Proof. intros [g|f|g]; reflexivity. Qed.

Lemma sameSymbol_name : forall t t', sameSymbol t t' -> symbolName t = symbolName t'.
Proof.
  intros [g|f|g] [g'|f'|g'] H; cbn in H; try contradiction; cbn; congruence.
Qed.

Lemma Evolves_refl : forall body, Evolves body body.
Proof.
  induction body as [|t rest IH]; constructor; [apply sameSymbol_refl | exact IH].
Qed.

Lemma Evolves_replace : forall A o f f' B,
    func_name f' = func_name f ->
    Evolves o (A ++ TFunc f :: B) -> Evolves o (A ++ TFunc f' :: B).
Proof.
  induction A as [|a A IH]; intros o f f' B Hname H; cbn [app] in *.
  - inversion H as [|t t' o' c Hs He|t o' c Hg He]; subst.
    + apply Evolves_keep; [|exact He].
      destruct t as [g|f0|g]; cbn in Hs; try contradiction. cbn. congruence.
    + apply Evolves_insert; [reflexivity | exact He].
  - inversion H as [|t t' o' c Hs He|t o' c Hg He]; subst.
    + apply Evolves_keep; [exact Hs|]. eapply IH; eassumption.
    + apply Evolves_insert; [exact Hg|]. eapply IH; eassumption.
Qed.

Lemma isCreatedTop_not_gpu : forall p t, isCreatedTop p t -> isGPUModuleOp t = false.
Proof. intros p t [(n & v & ->)| ->]; reflexivity. Qed.

Lemma Evolves_created : forall p created o c,
    Forall (isCreatedTop p) created -> Evolves o c -> Evolves o (created ++ c).
Proof.
  intros p created o c H He. induction H as [|t rest Ht _ IH]; cbn [app].
  - exact He.
  - apply Evolves_insert; [eapply isCreatedTop_not_gpu; exact Ht | exact IH].
Qed.

Lemma moduleBody_extends : forall p st st',
    Extends p st st' ->
    exists created, Forall (isCreatedTop p) created /\
                    moduleBody st' = created ++ moduleBody st.
Proof.
  intros p st st' (c & o & Hm & Hc & _ & _ & Hp & Ha & _).
  exists c. split; [exact Hc|].
  unfold moduleBody. rewrite Hm, Hp, Ha, <- app_assoc. reflexivity.
Qed.

Lemma Stable_Evolves : forall p orig, Stable p (Evolves orig).
Proof.
  intros p orig. split.
  - intros A f f' B Hname _ H. eapply Evolves_replace; eassumption.
  - intros l operands st r st' H Hm.
    apply matchAndRewrite_extends, moduleBody_extends in Hm.
    destruct Hm as (created & Hc & ->).
    eapply Evolves_created; eassumption.
Qed.

(** A Device Module found under a name in a converted module body is the
    Device Module of that name of the original body. *)
Lemma Evolves_lookup_gpu : forall o c name km km',
    Evolves o c ->
    lookupSymbolIn o name = Some (TGPUModule km) ->
    lookupSymbolIn c name = Some (TGPUModule km') ->
    km' = km.
Proof.
  intros o c name km km' H. unfold lookupSymbolIn.
  induction H as [|t t' o c Hs He IH|t o c Hg He IH]; cbn [find]; intros Ho Hc.
  - discriminate.
  - rewrite <- (sameSymbol_name _ _ Hs) in Hc.
    destruct (String.eqb (symbolName t) name).
    + inversion Ho; subst t. inversion Hc; subst t'. cbn in Hs. congruence.
    + apply IH; assumption.
  - destruct (String.eqb (symbolName t) name).
    + inversion Hc; subst t. discriminate.
    + apply IH; assumption.
Qed.

Lemma resolvedModule_Some : forall st l km,
    resolvedModule st l = Some km <->
    lookupSymbolIn (moduleBody st) (getKernelModuleName l) = Some (TGPUModule km).
Proof.
  intros st l km. unfold resolvedModule.
  destruct (lookupSymbolIn (moduleBody st) (getKernelModuleName l)) as [[g|f|g]|];
    split; intros H; try discriminate; inversion H; reflexivity.
Qed.

Lemma In_hostOperations : forall op body,
    In op (hostOperations body) <->
    exists f, In (TFunc f) body /\ In op (func_body f).
Proof.
  intros op body. unfold hostOperations. rewrite in_flat_map. split.
  - intros (t & Ht & Hop). apply filter_In in Ht. destruct Ht as [Ht Hf].
    destruct t as [g|f|g]; try discriminate. exists f. split; assumption.
  - intros (f & Hf & Hop). exists (TFunc f). split; [|exact Hop].
    apply filter_In. split; [exact Hf | reflexivity].
Qed.

(** ** The pass *)

Lemma runOnOperation_eq : forall pass rules m,
    runOnOperation pass rules m =
    match convertTopOps passTarget (passPattern pass rules) rules (getBody m)
            (mkEngine [] (nextFreeId m) [] []) with
    | Some (r, body, es) =>
        Some (mkOutcome (failed r) (eraseGPUModules (mkModule body))
                        (es_diagnostics es) (es_match_failures es))
    | None => None
    end.
Proof.
  intros pass rules m. unfold runOnOperation, applyFullConversion, passPattern.
  destruct (convertTopOps _ _ _ _ _) as [[[r body] es]|]; [|reflexivity].
  destruct r; reflexivity.
Qed.

(** Every launch instruction of a host function of a successfully lowered
    module was rewritten by the launch rule, in a module body that evolved
    from the input. *)
Lemma runOnOperation_success_launch : forall pass rules m out l,
    runOnOperation pass rules m = Some out ->
    pass_failed out = false ->
    In (OpLaunchFunc l) (hostOperations (getBody m)) ->
    exists st1 st2,
      Evolves (getBody m) (moduleBody st1) /\
      matchAndRewrite (passPattern pass rules) l
        (map (remapValue rules) (getOperands l)) st1 = Some (success, st2).
Proof.
  intros pass rules m out l Hrun Hok Hin.
  rewrite runOnOperation_eq in Hrun.
  destruct (convertTopOps passTarget (passPattern pass rules) rules (getBody m)
              (mkEngine [] (nextFreeId m) [] [])) as [[[r body] es]|] eqn:Hc;
    [|discriminate].
  inversion Hrun; subst out. cbn [pass_failed] in Hok.
  destruct r; [|discriminate].
  apply In_hostOperations in Hin. destruct Hin as (f & Hf & Hl).
  destruct (convertTopOps_success_launch _ rules (Evolves (getBody m))
              (Stable_Evolves _ _) _ _ _ _ f l Hc)
    as (st1 & st2 & He & Hm & _).
  - cbn [es_done app]. apply Evolves_refl.
  - exact Hf.
  - exact Hl.
  - exists st1, st2. split; assumption.
Qed.

(** ** Rejected launch instructions *)

(** C4.  A launch instruction that carries an asynchronous dependency or an
    asynchronous result is rejected by the launch rule: matchAndRewrite
    returns failure after noting that the asynchronous form cannot be
    converted, and creates nothing, so that no call to the runtime entry
    point is emitted for the instruction; the engine leaves the instruction
    in place; and a pass invocation over a module with such an instruction
    in a host function signals failure whenever it returns. *)
Theorem async_launch_rejected :
  forall pass rules m launch_op,
    asyncDependencies launch_op <> [] \/ asyncToken launch_op <> None ->
    (forall p operands st,
        exists st',
          matchAndRewrite p launch_op operands st = Some (failure, st') /\
          match_failures st' = match_failures st ++ [asyncMessage] /\
          blk_before st' = blk_before st /\
          moduleBody st' = moduleBody st /\
          root_erased st' = root_erased st) /\
    (forall p st,
        exists st',
          legalizeOperation passTarget p rules (OpLaunchFunc launch_op) st
          = Some (failure, st') /\
          blk_before st' = blk_before st ++ [OpLaunchFunc launch_op] /\
          moduleBody st' = moduleBody st) /\
    (In (OpLaunchFunc launch_op) (hostOperations (getBody m)) ->
     forall out, runOnOperation pass rules m = Some out -> pass_failed out = true).
Proof.
  intros pass rules m l Hasync.
  apply isSynchronous_false in Hasync.
  split; [|split].
  - intros p operands st. exists (withMatchFailure asyncMessage st).
    split; [apply matchAndRewrite_async; exact Hasync|].
    repeat split.
  - intros p st.
    exists (advance (withMatchFailure asyncMessage (withRootErased false st))
                    [OpLaunchFunc l] 0).
    split; [|split; reflexivity].
    rewrite legalizeOperation_launch.
    rewrite (matchAndRewrite_async _ _ _ _ Hasync). reflexivity.
  - intros Hin out Hrun.
    destruct (pass_failed out) eqn:Hf; [reflexivity|].
    destruct (runOnOperation_success_launch _ _ _ _ _ Hrun Hf Hin)
      as (st1 & st2 & _ & Hm).
    rewrite (matchAndRewrite_async _ _ _ _ Hasync) in Hm. discriminate.
Qed.

Lemma example_async_module_runs :
  exists out, runOnOperation example_pass example_rules example_async_module = Some out.
Proof. eexists. vm_compute. reflexivity. Qed.

(** The asynchronous scenario: the pass returns and has signalled failure. *)
Lemma async_launch_rejected_witness :
  (asyncDependencies example_async_launch <> []
   \/ asyncToken example_async_launch <> None) /\
  In (OpLaunchFunc example_async_launch)
     (hostOperations (getBody example_async_module)) /\
  exists out,
    runOnOperation example_pass example_rules example_async_module = Some out /\
    pass_failed out = true.
Proof.
  assert (H : asyncDependencies example_async_launch <> []
              \/ asyncToken example_async_launch <> None)
    by (left; discriminate).
  split; [exact H|].
  assert (Hin : In (OpLaunchFunc example_async_launch)
                   (hostOperations (getBody example_async_module)))
    by (left; reflexivity).
  split; [exact Hin|].
  destruct example_async_module_runs as [out Hout].
  exists out. split; [exact Hout|].
  exact (proj2 (proj2 (async_launch_rejected example_pass example_rules
                         example_async_module example_async_launch H))
           Hin out Hout).
Defined.

Lemma getAttrOfType_missing : forall km key,
    getAttr (gpu_module_attrs km) key = None ->
    getAttrOfType_StringAttr km key = None.
Proof. intros km key H. unfold getAttrOfType_StringAttr. rewrite H. reflexivity. Qed.

Lemma getAttrOfType_nonstring : forall km key a,
    getAttr (gpu_module_attrs km) key = Some a ->
    (forall s, a <> StringAttr s) ->
    getAttrOfType_StringAttr km key = None.
Proof.
  intros km key a H Hn. unfold getAttrOfType_StringAttr. rewrite H.
  destruct a; try reflexivity. exfalso. eapply Hn. reflexivity.
Qed.

(** A pass invocation over a module whose host functions launch into a
    Device Module without a string annotation signals failure. *)
Lemma runOnOperation_unannotated : forall pass rules m launch_op kernel_module,
    In (OpLaunchFunc launch_op) (hostOperations (getBody m)) ->
    lookupSymbolIn (getBody m) (getKernelModuleName launch_op)
    = Some (TGPUModule kernel_module) ->
    getAttrOfType_StringAttr kernel_module (blob_annotation_ pass) = None ->
    forall out, runOnOperation pass rules m = Some out -> pass_failed out = true.
Proof.
  intros pass rules m l km Hin Hlook Hattr out Hrun.
  destruct (pass_failed out) eqn:Hf; [reflexivity|].
  destruct (runOnOperation_success_launch _ _ _ _ _ Hrun Hf Hin)
    as (st1 & st2 & He & Hm).
  destruct (matchAndRewrite_cases _ _ _ _ _ _ Hm)
    as [(_ & Hr & _)
       |[(km' & _ & _ & _ & Hr & _)
        |(km' & binary & ctx & params & st3 & gx & gy & gz & bx & b_y & bz
          & _ & Hres & Hattr' & _)]]; try discriminate.
  apply resolvedModule_Some in Hres.
  rewrite (Evolves_lookup_gpu _ _ _ _ _ He Hlook Hres) in Hattr'.
  cbn [passPattern gpu_binary_annotation_] in Hattr'. congruence.
Qed.

(** C8.  When the Device Module that a launch instruction resolves to does
    not carry the configured blob annotation, the rewrite emits an error
    diagnostic on that Device Module whose message names the expected
    attribute key, creates nothing and returns failure; a pass invocation
    over a module with such a launch instruction in a host function
    signals failure whenever it returns.  (The rule resolves the Device
    Module once the launch instruction has passed the check for
    asynchronous markers.) *)
Theorem missing_annotation_rejected :
  forall p launch_op operands st kernel_module,
    isSynchronous launch_op = true ->
    resolvedModule st launch_op = Some kernel_module ->
    getAttr (gpu_module_attrs kernel_module) (gpu_binary_annotation_ p) = None ->
    (exists st' d,
        matchAndRewrite p launch_op operands st = Some (failure, st') /\
        diagnostics st' = diagnostics st ++ [d] /\
        diag_severity d = SevError /\
        diag_operation d = TGPUModule kernel_module /\
        diag_message d
        = ("'gpu.module' op missing " ++ gpu_binary_annotation_ p ++ " attribute")%string /\
        blk_before st' = blk_before st /\
        moduleBody st' = moduleBody st) /\
    (forall pass rules m,
        blob_annotation_ pass = gpu_binary_annotation_ p ->
        In (OpLaunchFunc launch_op) (hostOperations (getBody m)) ->
        lookupSymbolIn (getBody m) (getKernelModuleName launch_op)
        = Some (TGPUModule kernel_module) ->
        forall out, runOnOperation pass rules m = Some out -> pass_failed out = true).
Proof.
  intros p l operands st km Hsync Hres Hattr.
  apply getAttrOfType_missing in Hattr.
  split.
  - exists (withDiagnostic (missingAttributeDiagnostic p km) st),
           (missingAttributeDiagnostic p km).
    split; [apply matchAndRewrite_missing; assumption|].
    repeat split.
  - intros pass rules m Hkey Hin Hlook out Hrun.
    eapply runOnOperation_unannotated; try eassumption.
    rewrite Hkey. exact Hattr.
Qed.

Lemma example_bare_module_runs :
  exists out, runOnOperation example_pass example_rules example_bare_module = Some out.
Proof. eexists. vm_compute. reflexivity. Qed.

(** Device Module K without the attribute "binary": the rewrite fails with
    the diagnostic on K and the pass signals failure. *)
Lemma missing_annotation_rejected_witness :
  (isSynchronous example_launch = true /\
   resolvedModule example_bare_state example_launch = Some example_bare_device_module /\
   getAttr (gpu_module_attrs example_bare_device_module)
           (gpu_binary_annotation_ example_pattern) = None) /\
  (exists st' d,
      matchAndRewrite example_pattern example_launch (getOperands example_launch)
        example_bare_state = Some (failure, st') /\
      diagnostics st' = diagnostics example_bare_state ++ [d] /\
      diag_severity d = SevError /\
      diag_operation d = TGPUModule example_bare_device_module /\
      diag_message d = "'gpu.module' op missing binary attribute"%string /\
      blk_before st' = blk_before example_bare_state /\
      moduleBody st' = moduleBody example_bare_state) /\
  exists out,
    runOnOperation example_pass example_rules example_bare_module = Some out /\
    pass_failed out = true.
Proof.
  assert (H1 : isSynchronous example_launch = true) by reflexivity.
  assert (H2 : resolvedModule example_bare_state example_launch
               = Some example_bare_device_module) by reflexivity.
  assert (H3 : getAttr (gpu_module_attrs example_bare_device_module)
                       (gpu_binary_annotation_ example_pattern) = None)
    by reflexivity.
  split; [repeat split; assumption|].
  pose proof (missing_annotation_rejected example_pattern example_launch
                (getOperands example_launch) example_bare_state
                example_bare_device_module H1 H2 H3) as [Hrule Hpass].
  split; [exact Hrule|].
  destruct example_bare_module_runs as [out Hout].
  exists out. split; [exact Hout|].
  apply (Hpass example_pass example_rules example_bare_module eq_refl
               (or_introl eq_refl) eq_refl out Hout).
Defined.

(** C9.  When the Device Module carries an attribute under the configured
    key whose value is no string attribute, the rewrite does what it does
    for a missing annotation: it emits the missing-attribute diagnostic on
    the Device Module and returns failure, without creating anything from
    the payload; the message is the one that a Device Module without the
    attribute gets. *)
Theorem nonstring_annotation_rejected :
  forall p launch_op operands st kernel_module a,
    isSynchronous launch_op = true ->
    resolvedModule st launch_op = Some kernel_module ->
    getAttr (gpu_module_attrs kernel_module) (gpu_binary_annotation_ p) = Some a ->
    (forall s, a <> StringAttr s) ->
    matchAndRewrite p launch_op operands st
    = Some (failure, withDiagnostic (missingAttributeDiagnostic p kernel_module) st)
    /\ diag_message (missingAttributeDiagnostic p kernel_module)
       = ("'gpu.module' op missing " ++ gpu_binary_annotation_ p ++ " attribute")%string
    /\ blk_before (withDiagnostic (missingAttributeDiagnostic p kernel_module) st)
       = blk_before st
    /\ moduleBody (withDiagnostic (missingAttributeDiagnostic p kernel_module) st)
       = moduleBody st
    /\ (forall kernel_module0 st0,
          resolvedModule st0 launch_op = Some kernel_module0 ->
          getAttr (gpu_module_attrs kernel_module0) (gpu_binary_annotation_ p) = None ->
          exists st0',
            matchAndRewrite p launch_op operands st0 = Some (failure, st0') /\
            map diag_message (diagnostics st0')
            = map diag_message (diagnostics st0)
              ++ [diag_message (missingAttributeDiagnostic p kernel_module)]).
Proof.
  intros p l operands st km a Hsync Hres Hattr Hns.
  pose proof (getAttrOfType_nonstring _ _ _ Hattr Hns) as Hnone.
  split; [apply matchAndRewrite_missing; assumption|].
  repeat split.
  intros km0 st0 Hres0 Hattr0. apply getAttrOfType_missing in Hattr0.
  exists (withDiagnostic (missingAttributeDiagnostic p km0) st0).
  split; [apply matchAndRewrite_missing; assumption|].
  cbn [withDiagnostic diagnostics]. rewrite map_app. reflexivity.
Qed.

(** Device Module K whose attribute "binary" is an integer. *)
Lemma nonstring_annotation_rejected_witness :
  (isSynchronous example_launch = true /\
   resolvedModule example_odd_state example_launch = Some example_odd_device_module /\
   getAttr (gpu_module_attrs example_odd_device_module)
           (gpu_binary_annotation_ example_pattern) = Some (IntegerAttr 171) /\
   (forall s, IntegerAttr 171 <> StringAttr s)) /\
  matchAndRewrite example_pattern example_launch (getOperands example_launch)
    example_odd_state
  = Some (failure,
          withDiagnostic
            (missingAttributeDiagnostic example_pattern example_odd_device_module)
            example_odd_state).
Proof.
  assert (H4 : forall s, IntegerAttr 171 <> StringAttr s) by (intros s; discriminate).
  split; [repeat split; try reflexivity; exact H4|].
  exact (proj1 (nonstring_annotation_rejected example_pattern example_launch
                  (getOperands example_launch) example_odd_state
                  example_odd_device_module (IntegerAttr 171)
                  eq_refl eq_refl eq_refl H4)).
Defined.

(** ** Names of the global strings *)

Lemma lastChar_append : forall s t,
    t <> EmptyString -> lastChar (s ++ t)%string = lastChar t.
Proof.
  induction s as [|c s IH]; intros t Ht; cbn [String.append].
  - reflexivity.
  - cbn [lastChar]. rewrite (IH t Ht).
    destruct (s ++ t)%string eqn:E; [|reflexivity].
    destruct s; cbn in E; [contradiction | discriminate].
Qed.

Lemma append_inj_l : forall s a b, (s ++ a)%string = (s ++ b)%string -> a = b.
Proof.
  induction s as [|c s IH]; intros a b H; cbn [String.append] in H.
  - exact H.
  - inversion H. apply IH. assumption.
Qed.

Lemma blob_name_not_kernel_name : forall module_name module_name' kernel_name,
    blobGlobalName module_name <> kernelNameGlobalName module_name' kernel_name.
Proof.
  intros m m' k H. unfold blobGlobalName, kernelNameGlobalName in H.
  apply (f_equal lastChar) in H.
  rewrite lastChar_append in H by discriminate.
  replace (m' ++ "_" ++ k ++ "_kernel_name")%string
    with ((m' ++ "_" ++ k) ++ "_kernel_name")%string in H.
  - rewrite lastChar_append in H by discriminate. cbn in H. discriminate.
  - clear. induction m' as [|c s IH]; cbn [String.append].
    + f_equal.
    + f_equal. exact IH.
Qed.

Lemma blob_name_not_entry_point : forall module_name,
    blobGlobalName module_name <> kTfWrapperLibaryLaunchHelperName.
Proof.
  intros m H. unfold blobGlobalName in H. apply (f_equal lastChar) in H.
  rewrite lastChar_append in H by discriminate. cbn in H. discriminate.
Qed.

Lemma kernel_name_not_entry_point : forall module_name kernel_name,
    kernelNameGlobalName module_name kernel_name <> kTfWrapperLibaryLaunchHelperName.
Proof.
  intros m k H. unfold kernelNameGlobalName in H. apply (f_equal lastChar) in H.
  replace (m ++ "_" ++ k ++ "_kernel_name")%string
    with ((m ++ "_" ++ k) ++ "_kernel_name")%string in H.
  - rewrite lastChar_append in H by discriminate. cbn in H. discriminate.
  - clear. induction m as [|c s IH]; cbn [String.append].
    + f_equal.
    + f_equal. exact IH.
Qed.

(** ** Global strings in the module body *)

Lemma moduleBody_prependTop : forall t st,
    moduleBody (prependTop t st) = t :: moduleBody st.
Proof. reflexivity. Qed.

Lemma moduleBody_emitOrReuse : forall name value linkage st,
    moduleBody (emitOrReuse name value linkage st) =
    match findGlobal (moduleBody st) name with
    | Some _ => moduleBody st
    | None => globalString name value linkage :: moduleBody st
    end.
Proof.
  intros name value linkage st. unfold emitOrReuse.
  destruct (findGlobal (moduleBody st) name); reflexivity.
Qed.

Lemma findGlobal_cons_same : forall name value linkage body,
    findGlobal (globalString name value linkage :: body) name
    = Some (globalString name value linkage).
Proof.
  intros name value linkage body. unfold findGlobal. cbn.
  rewrite String.eqb_refl. reflexivity.
Qed.

Lemma findGlobal_cons_other : forall name name' value linkage body,
    name <> name' ->
    findGlobal (globalString name value linkage :: body) name'
    = findGlobal body name'.
Proof.
  intros name name' value linkage body H. unfold findGlobal. cbn.
  destruct (String.eqb_spec name name'); [contradiction | reflexivity].
Qed.

Lemma findGlobal_cons_func : forall f body name,
    findGlobal (TFunc f :: body) name = findGlobal body name.
Proof. reflexivity. Qed.

Lemma findGlobal_emitOrReuse_same : forall name value linkage st,
    findGlobal (moduleBody (emitOrReuse name value linkage st)) name =
    match findGlobal (moduleBody st) name with
    | Some g => Some g
    | None => Some (globalString name value linkage)
    end.
Proof.
  intros name value linkage st. rewrite moduleBody_emitOrReuse.
  destruct (findGlobal (moduleBody st) name) eqn:E.
  - exact E.
  - apply findGlobal_cons_same.
Qed.

Lemma findGlobal_emitOrReuse_other : forall name name' value linkage st,
    name <> name' ->
    findGlobal (moduleBody (emitOrReuse name value linkage st)) name'
    = findGlobal (moduleBody st) name'.
Proof.
  intros name name' value linkage st H. rewrite moduleBody_emitOrReuse.
  destruct (findGlobal (moduleBody st) name).
  - reflexivity.
  - apply findGlobal_cons_other. exact H.
Qed.

Lemma moduleBody_ensureEntryPoint : forall p st,
    moduleBody (snd (ensureEntryPoint p st)) = moduleBody st
    \/ moduleBody (snd (ensureEntryPoint p st))
       = TFunc (entryPointDeclaration p) :: moduleBody st.
Proof.
  intros p st. unfold ensureEntryPoint.
  destruct (lookupSymbolIn (moduleBody st) kTfWrapperLibaryLaunchHelperName)
    as [[g|f|g]|]; try destruct (func_kind f); cbn [snd];
    (left; reflexivity) || (right; reflexivity).
Qed.

Lemma findGlobal_ensureEntryPoint : forall p st name,
    findGlobal (moduleBody (snd (ensureEntryPoint p st))) name
    = findGlobal (moduleBody st) name.
Proof.
  intros p st name.
  destruct (moduleBody_ensureEntryPoint p st) as [-> | ->]; reflexivity.
Qed.

Lemma moduleBody_generateParamsArray : forall l operands st v st',
    generateParamsArray l operands st = Some (v, st') ->
    moduleBody st' = moduleBody st.
Proof.
  intros l operands st v st' H.
  destruct (generateParamsArray_frame _ _ _ _ _ H) as (ops & n & -> & _).
  reflexivity.
Qed.

Lemma lookupSymbolIn_name : forall body name t,
    lookupSymbolIn body name = Some t -> symbolName t = name.
Proof.
  intros body name t H. unfold lookupSymbolIn in H.
  apply find_some in H. destruct H as [_ H]. apply String.eqb_eq. exact H.
Qed.

Lemma resolvedModule_name : forall st l km,
    resolvedModule st l = Some km -> gpu_module_name km = getKernelModuleName l.
Proof.
  intros st l km H. apply resolvedModule_Some in H.
  apply lookupSymbolIn_name in H. exact H.
Qed.

(** C6, as the emitter has it.  After a successful rewrite of a launch
    instruction the names
    <device-module-name>_<entry-point-name>_kernel_name and
    <device-module-name>_blob denote global constants of the module.
    Where the module had no constant of the name, the constant was
    emitted by the rewrite: the payload of the kernel-name constant is the
    entry-point name followed by one zero byte that is appended
    explicitly, the payload of the blob constant is the annotation.
    Emission is by name: where the module already had a constant of the
    name, that constant is kept as it is and is what the name denotes
    afterwards. *)
Theorem global_strings_emitted :
  forall p launch_op operands st st',
    matchAndRewrite p launch_op operands st = Some (success, st') ->
    exists kernel_module binary,
      resolvedModule st launch_op = Some kernel_module /\
      gpu_module_name kernel_module = getKernelModuleName launch_op /\
      getAttrOfType_StringAttr kernel_module (gpu_binary_annotation_ p) = Some binary /\
      let blob_name := (getKernelModuleName launch_op ++ "_blob")%string in
      let kernel_name_name :=
        (getKernelModuleName launch_op ++ "_" ++ getKernelName launch_op
           ++ "_kernel_name")%string in
      let payload := (getKernelName launch_op ++ String Ascii.zero EmptyString)%string in
      findGlobal (moduleBody st') blob_name =
      match findGlobal (moduleBody st) blob_name with
      | Some g => Some g
      | None =>
          Some (TGlobal (mkGlobal blob_name
                           (LLVMArray llvm_int8_type_ (String.length binary))
                           true Internal (StringAttr binary)))
      end /\
      findGlobal (moduleBody st') kernel_name_name =
      match findGlobal (moduleBody st) kernel_name_name with
      | Some g => Some g
      | None =>
          Some (TGlobal (mkGlobal kernel_name_name
                           (LLVMArray llvm_int8_type_ (String.length payload))
                           true Internal (StringAttr payload)))
      end /\
      String.length payload = S (String.length (getKernelName launch_op)) /\
      lastChar payload = Some Ascii.zero.
Proof.
  intros p l operands st st' H.
  destruct (matchAndRewrite_cases _ _ _ _ _ _ H)
    as [(_ & Hr & _)
       |[(km & _ & _ & _ & Hr & _)
        |(km & binary & ctx & params & st3 & gx & gy & gz & bx & b_y & bz
          & _ & Hres & Hattr & _ & _ & Hgen & _ & _ & _ & _ & _ & _ & _ & ->)]];
    try discriminate.
  exists km, binary.
  pose proof (resolvedModule_name _ _ _ Hres) as Hname.
  split; [exact Hres|]. split; [exact Hname|]. split; [exact Hattr|].
  cbv zeta.
  assert (Hbody : forall name,
             findGlobal
               (moduleBody
                  (withRootErased true
                     (advance (snd (ensureEntryPoint p st3))
                        [OpLLVM
                           (CallOp llvm_void_type_
                              (func_name (fst (ensureEntryPoint p st3)))
                              [ctx; mkValue (next_id st) llvm_pointer_type_;
                               mkValue (S (next_id st)) llvm_pointer_type_;
                               gx; gy; gz; bx; b_y; bz; params])] 0))) name
             = findGlobal (moduleBody (stateAfterGlobals p l km binary st)) name).
  { intros name. rewrite moduleBody_withRootErased, moduleBody_advance.
    rewrite findGlobal_ensureEntryPoint.
    rewrite (moduleBody_generateParamsArray _ _ _ _ _ Hgen). reflexivity. }
  rewrite !Hbody. unfold stateAfterGlobals.
  rewrite !moduleBody_advance. rewrite Hname.
  fold (blobGlobalName (getKernelModuleName l)).
  fold (kernelNameGlobalName (getKernelModuleName l) (getKernelName l)).
  split; [|split; [|split]].
  - rewrite findGlobal_emitOrReuse_other
      by (intros E; symmetry in E; exact (blob_name_not_kernel_name _ _ _ E)).
    rewrite moduleBody_advance. apply findGlobal_emitOrReuse_same.
  - rewrite findGlobal_emitOrReuse_same. rewrite moduleBody_advance.
    rewrite findGlobal_emitOrReuse_other by apply blob_name_not_kernel_name.
    reflexivity.
  - clear. induction (getKernelName l) as [|c s IH]; cbn; [reflexivity|].
    f_equal. exact IH.
  - apply lastChar_append. discriminate.
Qed.

Lemma example_rewrite_succeeds :
  exists st',
    matchAndRewrite example_pattern example_launch (getOperands example_launch)
      example_state = Some (success, st').
Proof. eexists. vm_compute. reflexivity. Qed.

(** The scenario: K_blob holds the byte 0xAB and K_kern_kernel_name holds
    kern and one zero byte. *)
Lemma global_strings_emitted_witness :
  exists st',
    matchAndRewrite example_pattern example_launch (getOperands example_launch)
      example_state = Some (success, st') /\
    findGlobal (moduleBody st') "K_blob"
    = Some (globalString "K_blob" example_blob Internal) /\
    findGlobal (moduleBody st') "K_kern_kernel_name"
    = Some (globalString "K_kern_kernel_name" ("kern" ++ String Ascii.zero EmptyString)
                         Internal).
Proof.
  destruct example_rewrite_succeeds as [st' Hrun]. exists st'.
  split; [exact Hrun|].
  destruct (global_strings_emitted _ _ _ _ _ Hrun)
    as (km & binary & Hres & _ & Hattr & Hblob & Hname & _).
  assert (Hkm : Some km = Some example_device_module)
    by (rewrite <- Hres; reflexivity).
  injection Hkm as ->.
  assert (Hbin : Some binary = Some example_blob)
    by (rewrite <- Hattr; reflexivity).
  injection Hbin as ->.
  split; [exact Hblob | exact Hname].
Defined.

(** C6 as stated fails where a constant of the name is in the module
    already.  With a stale constant K_kern_kernel_name in front of the
    scenario the rewrite succeeds and the module holds the blob and the
    stale payload, but no constant with the kernel name and its zero
    byte.  With the Device Modules m_i and m and the kernels k and i_k,
    whose kernel-name constants get the same name, the pass succeeds and
    the one constant of that name holds k and its zero byte: no constant
    of the module holds i_k. *)
Lemma kernel_name_payload_counterexample :
  (exists st',
      matchAndRewrite example_pattern example_launch (getOperands example_launch)
        example_stale_state = Some (success, st') /\
      globalPayloads (moduleBody st')
      = [("K_blob"%string, StringAttr example_blob);
         ("K_kern_kernel_name"%string, StringAttr "zzz")]) /\
  (exists out,
      runOnOperation example_pass example_rules example_clash_module = Some out /\
      pass_failed out = false /\
      kernelNameGlobalName "m" "i_k" = kernelNameGlobalName "m_i" "k" /\
      globalPayloads (getBody (pass_module out))
      = [("m_blob"%string, StringAttr "B");
         (kernelNameGlobalName "m" "i_k",
          StringAttr ("k" ++ String Ascii.zero EmptyString));
         ("m_i_blob"%string, StringAttr "A")]).
Proof.
  split.
  - eexists. split; vm_compute; reflexivity.
  - eexists. split; [vm_compute; reflexivity|].
    split; [reflexivity|]. split; [reflexivity|].
    vm_compute. reflexivity.
Qed.

(** ** The call to the runtime entry point *)

Lemma blk_before_emitOrReuse : forall name value linkage st,
    blk_before (emitOrReuse name value linkage st) = blk_before st.
Proof.
  intros name value linkage st. unfold emitOrReuse.
  destruct (findGlobal (moduleBody st) name); reflexivity.
Qed.

Lemma blk_before_ensureEntryPoint : forall p st,
    blk_before (snd (ensureEntryPoint p st)) = blk_before st.
Proof.
  intros p st. unfold ensureEntryPoint.
  destruct (lookupSymbolIn (moduleBody st) kTfWrapperLibaryLaunchHelperName)
    as [[g|f|g]|]; try destruct (func_kind f); reflexivity.
Qed.

Lemma func_name_ensureEntryPoint : forall p st,
    func_name (fst (ensureEntryPoint p st)) = kTfWrapperLibaryLaunchHelperName.
Proof.
  intros p st. unfold ensureEntryPoint.
  destruct (lookupSymbolIn (moduleBody st) kTfWrapperLibaryLaunchHelperName)
    as [[g|f|g]|] eqn:E; try destruct (func_kind f); try reflexivity.
  apply lookupSymbolIn_name in E. exact E.
Qed.

Lemma blk_before_stateAfterGlobals : forall p l km binary st,
    blk_before (stateAfterGlobals p l km binary st) =
    blk_before st ++
    [OpLLVM (AddressOfOp (mkValue (next_id st) llvm_pointer_type_)
               (blobGlobalName (gpu_module_name km)));
     OpLLVM (AddressOfOp (mkValue (S (next_id st)) llvm_pointer_type_)
               (kernelNameGlobalName (gpu_module_name km) (getKernelName l)))].
Proof.
  intros p l km binary st. unfold stateAfterGlobals.
  cbn [advance blk_before]. rewrite blk_before_emitOrReuse.
  cbn [advance blk_before]. rewrite blk_before_emitOrReuse.
  rewrite <- app_assoc. cbn [app]. do 4 f_equal.
  unfold emitOrReuse. destruct (findGlobal (moduleBody st) _); reflexivity.
Qed.

Lemma forallb_marshal_no_call : forall ops,
    forallb isMarshalOp ops = true -> existsb isCallOp ops = false.
Proof.
  induction ops as [|op rest IH]; intros H; cbn in *.
  - reflexivity.
  - apply andb_prop in H. destruct H as [Hop Hrest].
    unfold isMarshalOp in Hop. apply andb_prop in Hop. destruct Hop as [_ Hc].
    apply negb_true_iff in Hc. rewrite Hc. apply IH. exact Hrest.
Qed.

Lemma next_id_emitOrReuse : forall name value linkage st,
    next_id (emitOrReuse name value linkage st) = next_id st.
Proof.
  intros name value linkage st. unfold emitOrReuse.
  destruct (findGlobal (moduleBody st) name); reflexivity.
Qed.

(** The two requests for global strings of a rewrite, as calls. *)
Lemma createGlobalString_twice : forall p l km binary st,
    exists st1,
      createGlobalString (blobGlobalName (gpu_module_name km)) binary Internal st
      = Some (mkValue (next_id st) llvm_pointer_type_, st1) /\
      createGlobalString
        (kernelNameGlobalName (gpu_module_name km) (getKernelName l))
        (getKernelName l ++ String Ascii.zero EmptyString) Internal st1
      = Some (mkValue (S (next_id st)) llvm_pointer_type_,
              stateAfterGlobals p l km binary st).
Proof.
  intros p l km binary st.
  eexists. split; [apply createGlobalString_eq|].
  rewrite createGlobalString_eq. unfold stateAfterGlobals.
  cbn [advance next_id]. rewrite next_id_emitOrReuse. reflexivity.
Qed.

(** The allocation of the parameter array is among the operations that
    generateParamsArray creates. *)
Lemma generateParamsArray_allocates : forall l operands st array_ptr st',
    generateParamsArray l operands st = Some (array_ptr, st') ->
    exists ops array_size,
      blk_before st' = blk_before st ++ ops /\
      emittedSince st st' = ops /\
      forallb isMarshalOp ops = true /\
      In (OpLLVM (AllocaOp array_ptr array_size 0)) ops.
Proof.
  intros l operands st array_ptr st' H.
  destruct (generateParamsArray_inv _ _ _ _ _ H)
    as (arguments & st1 & Hprom & _ & -> & ->).
  destruct (promoteOperands_frame _ _ _ _ _ Hprom) as (ops1 & n1 & -> & Hops1).
  rewrite advance_advance.
  exists (ops1 ++ marshalOps arguments (map value_type arguments)
                    (next_id (advance st ops1 n1))),
    (mkValue (2 + next_id (advance st ops1 n1)) llvm_int32_type_).
  split; [reflexivity|].
  split; [apply emittedSince_advance|].
  split; [rewrite forallb_app, Hops1, marshalOps_marshal; reflexivity|].
  apply in_or_app. right. unfold marshalOps.
  right; right; right; left. reflexivity.
Qed.

(** C7.  A successful rewrite ends in the call to the runtime entry point
    with the operands context, blob, name, grid x, y, z, block x, y, z,
    parameter array: the context is the first argument of the enclosing
    llvm.func, blob and name are the handles that the two requests for
    global strings of this rewrite returned, the six dimensions are the
    converted operands 0 to 5 of the launch instruction as they are, and
    the parameter array is what generateParamsArray returned when it ran
    behind those two requests: the allocation that defines it is among
    the operations that this call of generateParamsArray created, in
    front of the call.  The call has the void result type, nothing is
    created after it, no other call is created, and the launch
    instruction is erased. *)
Theorem runtime_call_emitted :
  forall p launch_op operands st st',
    matchAndRewrite p launch_op operands st = Some (success, st') ->
    exists context_arg module_blob kernel_name_global kernel_params emitted
           grid_x grid_y grid_z block_x block_y block_z,
      blk_before st' =
      blk_before st ++ emitted ++
      [OpLLVM (CallOp llvm_void_type_ kTfWrapperLibaryLaunchHelperName
                 [context_arg; module_blob; kernel_name_global;
                  grid_x; grid_y; grid_z; block_x; block_y; block_z;
                  kernel_params])] /\
      existsb isCallOp emitted = false /\
      func_kind (parent_func st) = LLVMFunc /\
      nth_error (func_arguments (parent_func st)) 0 = Some context_arg /\
      In (OpLLVM (AddressOfOp module_blob
                    (getKernelModuleName launch_op ++ "_blob")%string)) emitted /\
      In (OpLLVM (AddressOfOp kernel_name_global
                    (getKernelModuleName launch_op ++ "_"
                       ++ getKernelName launch_op ++ "_kernel_name")%string))
         emitted /\
      (exists kernel_module binary st1 st2 st3 array_size,
          resolvedModule st launch_op = Some kernel_module /\
          getAttrOfType_StringAttr kernel_module (gpu_binary_annotation_ p)
          = Some binary /\
          createGlobalString (getKernelModuleName launch_op ++ "_blob") binary
            Internal st = Some (module_blob, st1) /\
          createGlobalString
            (getKernelModuleName launch_op ++ "_"
               ++ getKernelName launch_op ++ "_kernel_name")
            (getKernelName launch_op ++ String Ascii.zero EmptyString)
            Internal st1 = Some (kernel_name_global, st2) /\
          generateParamsArray launch_op operands st2 = Some (kernel_params, st3) /\
          blk_before st3 = blk_before st ++ emitted /\
          In (OpLLVM (AllocaOp kernel_params array_size 0))
             (emittedSince st2 st3) /\
          In (OpLLVM (AllocaOp kernel_params array_size 0)) emitted) /\
      nth_error operands 0 = Some grid_x /\
      nth_error operands 1 = Some grid_y /\
      nth_error operands 2 = Some grid_z /\
      nth_error operands 3 = Some block_x /\
      nth_error operands 4 = Some block_y /\
      nth_error operands 5 = Some block_z /\
      (forall remap, operands = map remap (getOperands launch_op) ->
                     grid_x = remap (gridSizeX launch_op) /\
                     grid_y = remap (gridSizeY launch_op) /\
                     grid_z = remap (gridSizeZ launch_op) /\
                     block_x = remap (blockSizeX launch_op) /\
                     block_y = remap (blockSizeY launch_op) /\
                     block_z = remap (blockSizeZ launch_op)) /\
      root_erased st' = true.
Proof.
  intros p l operands st st' H.
  destruct (matchAndRewrite_cases _ _ _ _ _ _ H)
    as [(_ & Hr & _)
       |[(km & _ & _ & _ & Hr & _)
        |(km & binary & ctx & params & st3 & gx & gy & gz & bx & b_y & bz
          & Hsync & Hres & Hattr & Hkind & Hctx & Hgen
          & H0 & H1 & H2 & H3 & H4 & H5 & _ & ->)]];
    try discriminate.
  pose proof (resolvedModule_name _ _ _ Hres) as Hname.
  destruct (generateParamsArray_allocates _ _ _ _ _ Hgen)
    as (ops & array_size & Hst3 & Hsince & Hops & Halloca).
  destruct (createGlobalString_twice p l km binary st) as (st1 & Hblob & Hkname).
  exists ctx, (mkValue (next_id st) llvm_pointer_type_),
         (mkValue (S (next_id st)) llvm_pointer_type_), params.
  exists ([OpLLVM (AddressOfOp (mkValue (next_id st) llvm_pointer_type_)
                     (blobGlobalName (gpu_module_name km)));
           OpLLVM (AddressOfOp (mkValue (S (next_id st)) llvm_pointer_type_)
                     (kernelNameGlobalName (gpu_module_name km) (getKernelName l)))]
          ++ ops).
  exists gx, gy, gz, bx, b_y, bz.
  assert (Hblk3 : blk_before st3
                  = blk_before st
                    ++ [OpLLVM (AddressOfOp (mkValue (next_id st) llvm_pointer_type_)
                                  (blobGlobalName (gpu_module_name km)));
                        OpLLVM (AddressOfOp (mkValue (S (next_id st)) llvm_pointer_type_)
                                  (kernelNameGlobalName (gpu_module_name km)
                                     (getKernelName l)))]
                    ++ ops).
  { rewrite Hst3, blk_before_stateAfterGlobals, <- app_assoc. reflexivity. }
  split.
  { cbn [withRootErased advance blk_before].
    rewrite blk_before_ensureEntryPoint, func_name_ensureEntryPoint.
    rewrite Hblk3. rewrite <- !app_assoc. reflexivity. }
  split.
  { cbn [app existsb isCallOp orb]. apply forallb_marshal_no_call. exact Hops. }
  split; [exact Hkind|]. split; [exact Hctx|].
  unfold blobGlobalName, kernelNameGlobalName in *.
  rewrite Hname in *.
  split; [left; reflexivity|]. split; [right; left; reflexivity|].
  split.
  { exists km, binary, st1, (stateAfterGlobals p l km binary st), st3, array_size.
    split; [exact Hres|]. split; [exact Hattr|].
    split; [exact Hblob|]. split; [exact Hkname|]. split; [exact Hgen|].
    split; [exact Hblk3|].
    split; [rewrite Hsince; exact Halloca|].
    right; right. exact Halloca. }
  repeat (split; [assumption|]).
  split; [|reflexivity].
  intros remap ->. apply isSynchronous_true in Hsync. destruct Hsync as [Hdeps _].
  unfold getOperands in *. rewrite Hdeps in *. cbn in H0, H1, H2, H3, H4, H5.
  repeat split; congruence.
Qed.

(** The scenario: the call is the last operation of the host function. *)
Lemma runtime_call_emitted_witness :
  exists st' module_blob kernel_name_global kernel_params emitted,
    matchAndRewrite example_pattern example_launch (getOperands example_launch)
      example_state = Some (success, st') /\
    blk_before st' =
    emitted ++
    [OpLLVM (CallOp LLVMVoid "tfKernelGenLaunchKernel"
               [example_context; module_blob; kernel_name_global;
                example_dim 1; example_dim 2; example_dim 3;
                example_dim 4; example_dim 5; example_dim 6;
                kernel_params])] /\
    In (OpLLVM (AddressOfOp module_blob "K_blob")) emitted /\
    In (OpLLVM (AddressOfOp kernel_name_global "K_kern_kernel_name")) emitted /\
    existsb isCallOp emitted = false.
Proof.
  destruct example_rewrite_succeeds as [st' Hrun].
  destruct (runtime_call_emitted _ _ _ _ _ Hrun)
    as (ctx & blob & name & params & emitted & gx & gy & gz & bx & b_y & bz
        & Hblk & Hcalls & _ & Hctx & Hblob & Hname & _
        & H0 & H1 & H2 & H3 & H4 & H5 & _).
  exists st', blob, name, params, emitted.
  split; [exact Hrun|].
  split; [|split; [exact Hblob | split; [exact Hname | exact Hcalls]]].
  rewrite Hblk. cbn [example_state blk_before app].
  cbn in Hctx, H0, H1, H2, H3, H4, H5.
  inversion Hctx; inversion H0; inversion H1; inversion H2;
    inversion H3; inversion H4; inversion H5; subst.
  reflexivity.
Defined.

(** ** The size of the parameter pointer array *)

Lemma take_back_app : forall (A : Type) (a b : list A),
    take_back (length b) (a ++ b) = b.
Proof.
  intros A a b. unfold take_back. rewrite length_app.
  replace (length a + length b - length b) with (length a) by lia.
  apply skipn_length_app.
Qed.

Lemma getNumKernelOperands_length : forall l,
    getNumKernelOperands l = length (kernelOperands l).
Proof.
  intros l. unfold getNumKernelOperands, getNumOperands, getOperands, kNumConfigOperands.
  rewrite !length_app. cbn [length]. lia.
Qed.

Lemma take_back_kernelOperands : forall l,
    take_back (getNumKernelOperands l) (getOperands l) = kernelOperands l.
Proof.
  intros l. rewrite getNumKernelOperands_length. unfold getOperands.
  rewrite app_assoc. apply take_back_app.
Qed.

Lemma storeOps_element_slots : forall struct_ptr array_ptr zero types arguments idx next,
    length (filter (isElementSlot array_ptr)
              (storeOps struct_ptr array_ptr zero types idx arguments next))
    = length arguments.
Proof.
  intros struct_ptr array_ptr zero types arguments.
  induction arguments as [|a rest IH]; intros idx next.
  - reflexivity.
  - cbn [storeOps app filter isElementSlot]. rewrite Nat.eqb_refl.
    cbn [length]. f_equal. apply IH.
Qed.

Lemma marshalOps_element_slots : forall arguments types next,
    length (filter (isElementSlot (marshalArrayPtr next))
              (marshalOps arguments types next))
    = length arguments.
Proof.
  intros arguments types next. unfold marshalOps.
  cbn [app filter isElementSlot]. apply storeOps_element_slots.
Qed.

Lemma extractFields_total : forall packed positions st,
    exists vs st',
      extractFields packed positions st = Some (vs, st') /\
      length vs = length positions.
Proof.
  intros packed positions.
  induction positions as [|pos rest IH]; intros st.
  - exists [], st. split; reflexivity.
  - cbn [extractFields].
    assert (Hfirst : exists v st1, extractField packed pos st = Some (v, st1)).
    { destruct st as [mb pf ma bb re ni dg mf]. eexists. eexists. reflexivity. }
    destruct Hfirst as (v & st1 & Hv).
    destruct (IH st1) as (vs & st' & Hvs & Hlen).
    exists (v :: vs), st'. split.
    + rewrite (bind_eq _ _ _ _ _ _ _ Hv), (bind_eq _ _ _ _ _ _ _ Hvs).
      reflexivity.
    + cbn [length]. rewrite Hlen. reflexivity.
Qed.

(** One memref operand is promoted to the fields of its descriptor. *)
Lemma promoteOperands_memref : forall operand llvmOperand elem rank st,
    value_type operand = MemRefType elem rank ->
    exists arguments st',
      promoteOperands [operand] [llvmOperand] st = Some (arguments, st') /\
      length arguments = 3 + 2 * rank.
Proof.
  intros operand llvmOperand elem rank st Hty.
  cbn [promoteOperands]. rewrite Hty. unfold unpackMemRef.
  destruct (extractFields_total llvmOperand
              ([[0]; [1]; [2]] ++ map (fun i => [3; i]) (seq 0 rank)
               ++ map (fun i => [4; i]) (seq 0 rank)) st)
    as (vs & st' & Hvs & Hlen).
  exists (vs ++ []), st'. split.
  - rewrite (bind_eq _ _ _ _ _ _ _ Hvs). reflexivity.
  - rewrite app_nil_r, Hlen, !length_app, !length_map, !length_seq.
    cbn [length]. lia.
Qed.

(** C10.  The parameter pointer array has one entry per argument that the
    promotion of the trailing kernel operands yields: its allocation size
    is the constant of that count (as an i32 attribute) and one slot of
    the array is addressed per promoted argument.  The operands handed to
    the promotion are the kernel operands of the launch instruction, the
    trailing suffix of its operand list, with the equally long suffix of
    the converted operands.  The count of promoted arguments can exceed
    the count of kernel operands: one memref operand of rank [r] is
    promoted to [3 + 2 * r] values. *)
Theorem parameter_array_entries :
  forall launch_op operands st array_ptr st',
    generateParamsArray launch_op operands st = Some (array_ptr, st') ->
    exists arguments st1 array_size,
      promoteOperands (kernelOperands launch_op)
        (take_back (length (kernelOperands launch_op)) operands) st
      = Some (arguments, st1) /\
      take_back (getNumKernelOperands launch_op) (getOperands launch_op)
      = kernelOperands launch_op /\
      (forall converted_prefix converted_suffix,
          operands = converted_prefix ++ converted_suffix ->
          length converted_suffix = length (kernelOperands launch_op) ->
          take_back (getNumKernelOperands launch_op) operands = converted_suffix) /\
      emittedSince st1 st'
      = marshalOps arguments (map value_type arguments) (next_id st1) /\
      In (OpLLVM (ConstantOp array_size
                    (getI32IntegerAttr (Z.of_nat (length arguments)))))
         (emittedSince st1 st') /\
      In (OpLLVM (AllocaOp array_ptr array_size 0)) (emittedSince st1 st') /\
      ((Z.of_nat (length arguments) < 2 ^ 31)%Z ->
       getI32IntegerAttr (Z.of_nat (length arguments))
       = Z.of_nat (length arguments)) /\
      length (filter (isElementSlot array_ptr) (emittedSince st1 st'))
      = length arguments /\
      (forall operand llvmOperand elem rank st0,
          value_type operand = MemRefType elem rank ->
          exists arguments0 st0',
            promoteOperands [operand] [llvmOperand] st0 = Some (arguments0, st0') /\
            length arguments0 = 3 + 2 * rank).
Proof.
  intros l operands st array_ptr st' H.
  destruct (generateParamsArray_inv _ _ _ _ _ H)
    as (arguments & st1 & Hprom & Htypes & -> & ->).
  exists arguments, st1, (mkValue (2 + next_id st1) llvm_int32_type_).
  rewrite take_back_kernelOperands in Hprom.
  rewrite getNumKernelOperands_length in Hprom.
  split; [exact Hprom|].
  split; [apply take_back_kernelOperands|].
  split.
  { intros pre suf -> Hlen. rewrite getNumKernelOperands_length, <- Hlen.
    apply take_back_app. }
  rewrite emittedSince_advance.
  split; [reflexivity|].
  split; [unfold marshalOps; right; right; left; reflexivity|].
  split; [unfold marshalOps; right; right; right; left; reflexivity|].
  split; [intros Hr; apply getI32IntegerAttr_small; lia|].
  split; [apply marshalOps_element_slots|].
  apply promoteOperands_memref.
Qed.

(** The scenario: two scalar arguments give two entries. *)
Lemma parameter_array_entries_witness :
  exists array_ptr st' arguments st1,
    generateParamsArray example_launch (getOperands example_launch) example_state
    = Some (array_ptr, st') /\
    promoteOperands (kernelOperands example_launch)
      (take_back (length (kernelOperands example_launch))
         (getOperands example_launch)) example_state
    = Some (arguments, st1) /\
    length arguments = 2 /\
    length (filter (isElementSlot array_ptr) (emittedSince st1 st')) = 2 /\
    (exists arguments0 st0,
        promoteOperands (kernelOperands example_memref_launch)
          (take_back (length (kernelOperands example_memref_launch))
             example_memref_operands) example_state
        = Some (arguments0, st0) /\
        length (kernelOperands example_memref_launch) = 1 /\
        length arguments0 = 5).
Proof.
  assert (Hrun : exists array_ptr st',
             generateParamsArray example_launch (getOperands example_launch)
               example_state = Some (array_ptr, st'))
    by (eexists; eexists; vm_compute; reflexivity).
  destruct Hrun as (array_ptr & st' & Hrun).
  destruct (parameter_array_entries _ _ _ _ _ Hrun)
    as (arguments & st1 & array_size & Hprom & _ & _ & _ & _ & _ & _ & Hslots
        & Hmemref).
  exists array_ptr, st', arguments, st1.
  split; [exact Hrun|]. split; [exact Hprom|].
  assert (Hargs : Some (arguments, st1) = Some (example_arguments, example_state))
    by (rewrite <- Hprom; reflexivity).
  injection Hargs as -> ->.
  split; [reflexivity|]. split; [exact Hslots|].
  destruct (Hmemref (mkValue 7 (MemRefType llvm_int32_type_ 1))
                    (mkValue 7 example_descriptor_type)
                    llvm_int32_type_ 1 example_state eq_refl)
    as (arguments0 & st0 & Hp0 & Hl0).
  exists arguments0, st0. split; [exact Hp0|]. split; [reflexivity | exact Hl0].
Defined.

(** ** The cleanup sweep *)

Lemma getGPUModuleOps_erase : forall m, getGPUModuleOps (eraseGPUModules m) = [].
Proof.
  intros [body]. unfold getGPUModuleOps, eraseGPUModules. cbn [getBody].
  induction body as [|t rest IH]; cbn [filter].
  - reflexivity.
  - destruct (isGPUModuleOp t) eqn:E; cbn [negb filter].
    + exact IH.
    + rewrite E. exact IH.
Qed.

Lemma applyFullConversion_eq : forall m p rules,
    applyFullConversion m passTarget p rules =
    match convertTopOps passTarget p rules (getBody m)
            (mkEngine [] (nextFreeId m) [] []) with
    | Some (r, body, es) =>
        Some (r, mkModule body, es_diagnostics es, es_match_failures es)
    | None => None
    end.
Proof. reflexivity. Qed.

(** The sweep does not depend on the result of the conversion. *)
Lemma runOnOperation_sweeps : forall pass rules m r m' diags log,
    applyFullConversion m passTarget (passPattern pass rules) rules
    = Some (r, m', diags, log) ->
    runOnOperation pass rules m
    = Some (mkOutcome (failed r) (eraseGPUModules m') diags log).
Proof.
  intros pass rules m r m' diags log H.
  unfold runOnOperation. fold (passPattern pass rules). cbv zeta.
  rewrite H. destruct r; reflexivity.
Qed.

(** C2, as the code has it.  When the conversion reports failure, the pass
    signals failure and still performs the cleanup sweep: every Device
    Module is removed from the module body, and the other operations are
    left in the partially converted state that the conversion engine
    produced. *)
Theorem cleanup_runs_on_failure :
  forall pass rules m m' diags log,
    applyFullConversion m passTarget (passPattern pass rules) rules
    = Some (failure, m', diags, log) ->
    exists out,
      runOnOperation pass rules m = Some out /\
      pass_failed out = true /\
      getGPUModuleOps (pass_module out) = [] /\
      getBody (pass_module out)
      = filter (fun t => negb (isGPUModuleOp t)) (getBody m') /\
      pass_diagnostics out = diags.
Proof.
  intros pass rules m m' diags log H.
  exists (mkOutcome true (eraseGPUModules m') diags log).
  split; [apply (runOnOperation_sweeps _ _ _ _ _ _ _ H)|].
  split; [reflexivity|].
  split; [apply getGPUModuleOps_erase|].
  split; reflexivity.
Qed.

Lemma example_async_conversion_fails :
  exists m' diags log,
    applyFullConversion example_async_module passTarget
      (passPattern example_pass example_rules) example_rules
    = Some (failure, m', diags, log) /\
    In (TGPUModule example_device_module) (getBody m').
Proof.
  eexists. eexists. eexists. split; [vm_compute; reflexivity|].
  left. reflexivity.
Qed.

(** The asynchronous scenario: the conversion fails and Device Module K is
    swept all the same. *)
Lemma cleanup_runs_on_failure_witness :
  exists m' diags log out,
    applyFullConversion example_async_module passTarget
      (passPattern example_pass example_rules) example_rules
    = Some (failure, m', diags, log) /\
    runOnOperation example_pass example_rules example_async_module = Some out /\
    pass_failed out = true /\
    getGPUModuleOps (pass_module out) = [].
Proof.
  destruct example_async_conversion_fails as (m' & diags & log & Hconv & _).
  destruct (cleanup_runs_on_failure _ _ _ _ _ _ Hconv)
    as (out & Hrun & Hfail & Hgpu & _).
  exists m', diags, log, out. repeat split; assumption.
Defined.

(** C2 as stated fails in the asynchronous scenario: the
    conversion fails and leaves Device Module K in the module, and the pass
    returns a module from which K has been removed. *)
Lemma cleanup_skipped_on_failure_counterexample :
  exists m' diags log out,
    applyFullConversion example_async_module passTarget
      (passPattern example_pass example_rules) example_rules
    = Some (failure, m', diags, log) /\
    runOnOperation example_pass example_rules example_async_module = Some out /\
    In (TGPUModule example_device_module) (getBody m') /\
    ~ In (TGPUModule example_device_module) (getBody (pass_module out)) /\
    pass_module out <> m'.
Proof.
  destruct example_async_conversion_fails as (m' & diags & log & Hconv & Hin).
  exists m', diags, log, (mkOutcome true (eraseGPUModules m') diags log).
  split; [exact Hconv|].
  split; [apply (runOnOperation_sweeps _ _ _ _ _ _ _ Hconv)|].
  split; [exact Hin|].
  assert (Hout : ~ In (TGPUModule example_device_module)
                      (getBody (eraseGPUModules m'))).
  { unfold eraseGPUModules. cbn [getBody]. intros H.
    apply filter_In in H. destruct H as [_ H]. discriminate. }
  split; [exact Hout|].
  cbn [pass_module]. intros E. apply Hout. rewrite E. exact Hin.
Qed.

(** ** No residual launch instructions *)




Lemma example_module_runs :
  exists out,
    runOnOperation example_pass example_rules example_module = Some out /\
    pass_failed out = false.
Proof. eexists. split; [vm_compute; reflexivity | reflexivity]. Qed.




(** ** Deduplication of global strings and of the entry point *)

Lemma find_app_cons : forall (A : Type) (P : A -> bool) l x l',
    find P (l ++ x :: l') =
    match find P l with
    | Some y => Some y
    | None => if P x then Some x else find P l'
    end.
Proof.
  intros A P l x l'. induction l as [|a l IH]; cbn [app find].
  - reflexivity.
  - destruct (P a); [reflexivity | exact IH].
Qed.

Lemma find_none_filter : forall (A : Type) (P : A -> bool) l,
    find P l = None -> filter P l = [].
Proof.
  intros A P l. induction l as [|a l IH]; cbn [find filter]; intros H.
  - reflexivity.
  - destruct (P a); [discriminate | apply IH; exact H].
Qed.

Lemma find_some_filter : forall (A : Type) (P : A -> bool) l x,
    find P l = Some x -> 1 <= length (filter P l).
Proof.
  intros A P l x. induction l as [|a l IH]; cbn [find filter]; intros H.
  - discriminate.
  - destruct (P a); [cbn; lia | apply IH; exact H].
Qed.

Lemma filter_length_replace : forall (A : Type) (P : A -> bool) l x x' l',
    P x' = P x ->
    length (filter P (l ++ x' :: l')) = length (filter P (l ++ x :: l')).
Proof.
  intros A P l x x' l' H. rewrite !filter_app. cbn [filter]. rewrite H.
  rewrite !length_app. destruct (P x); reflexivity.
Qed.

Lemma Stable_and : forall p (J1 J2 : list TopOp -> Prop),
    Stable p J1 -> Stable p J2 -> Stable p (fun body => J1 body /\ J2 body).
Proof.
  intros p J1 J2 [R1 S1] [R2 S2]. split.
  - intros A f f' B Hn Hk [H1 H2]. split; [eapply R1 | eapply R2]; eassumption.
  - intros l operands st r st' [H1 H2] Hm.
    split; [eapply S1 | eapply S2]; eassumption.
Qed.

(** What is counted by name can only grow. *)
Lemma Stable_count : forall p (P : TopOp -> bool) k,
    (forall f f', func_name f' = func_name f -> P (TFunc f') = P (TFunc f)) ->
    Stable p (fun body => k <= length (filter P body)).
Proof.
  intros p P k HP. split.
  - intros A f f' B Hn _ H.
    rewrite (filter_length_replace _ P A (TFunc f) (TFunc f') B (HP _ _ Hn)).
    exact H.
  - intros l operands st r st' H Hm.
    apply matchAndRewrite_extends, moduleBody_extends in Hm.
    destruct Hm as (created & _ & ->).
    rewrite filter_app, length_app. lia.
Qed.

Lemma isGlobalNamed_globalString : forall name name' value linkage,
    isGlobalNamed name' (globalString name value linkage) = String.eqb name name'.
Proof. reflexivity. Qed.

Lemma GlobalsUnique_replace : forall A f f' B,
    GlobalsUnique (A ++ TFunc f :: B) -> GlobalsUnique (A ++ TFunc f' :: B).
Proof.
  intros A f f' B H name.
  rewrite (filter_length_replace _ (isGlobalNamed name) A (TFunc f) (TFunc f') B
             eq_refl).
  apply H.
Qed.

Lemma EntryPointUnique_replace : forall A f f' B,
    func_name f' = func_name f -> func_kind f' = LLVMFunc ->
    EntryPointUnique (A ++ TFunc f :: B) -> EntryPointUnique (A ++ TFunc f' :: B).
Proof.
  intros A f f' B Hn Hk H. unfold EntryPointUnique, lookupSymbolIn in *.
  rewrite (filter_length_replace _ (isFuncNamed kTfWrapperLibaryLaunchHelperName)
             A (TFunc f) (TFunc f') B)
    by (cbn; rewrite Hn; reflexivity).
  rewrite find_app_cons in *.
  destruct (find _ A) as [y|]; [exact H|].
  cbn [symbolName] in *. rewrite Hn.
  destruct (String.eqb (func_name f) kTfWrapperLibaryLaunchHelperName).
  - destruct H as [_ H]. split; assumption.
  - exact H.
Qed.

Lemma GlobalsUnique_cons_global : forall name value linkage body,
    findGlobal body name = None ->
    GlobalsUnique body -> GlobalsUnique (globalString name value linkage :: body).
Proof.
  intros name value linkage body Hnone H name'. cbn [filter].
  rewrite isGlobalNamed_globalString.
  destruct (String.eqb_spec name name') as [<-|_].
  - unfold findGlobal in Hnone. rewrite (find_none_filter _ _ _ Hnone).
    cbn. lia.
  - apply H.
Qed.

Lemma EntryPointUnique_cons_other : forall t body,
    symbolName t <> kTfWrapperLibaryLaunchHelperName ->
    EntryPointUnique body -> EntryPointUnique (t :: body).
Proof.
  intros t body Hn H. unfold EntryPointUnique, lookupSymbolIn in *.
  cbn [find filter].
  destruct (String.eqb_spec (symbolName t) kTfWrapperLibaryLaunchHelperName);
    [contradiction|].
  replace (isFuncNamed kTfWrapperLibaryLaunchHelperName t) with false; [exact H|].
  destruct t as [g|f|g]; try reflexivity. cbn in *.
  destruct (String.eqb_spec (func_name f) kTfWrapperLibaryLaunchHelperName);
    [contradiction | reflexivity].
Qed.

Lemma Deduplicated_emitOrReuse : forall name value st,
    name <> kTfWrapperLibaryLaunchHelperName ->
    Deduplicated (moduleBody st) ->
    Deduplicated (moduleBody (emitOrReuse name value Internal st)).
Proof.
  intros name value st Hn [Hg He]. rewrite moduleBody_emitOrReuse.
  destruct (findGlobal (moduleBody st) name) eqn:E.
  - split; assumption.
  - split.
    + apply GlobalsUnique_cons_global; assumption.
    + apply EntryPointUnique_cons_other; [exact Hn | exact He].
Qed.

Lemma Deduplicated_ensureEntryPoint : forall p st,
    Deduplicated (moduleBody st) ->
    Deduplicated (moduleBody (snd (ensureEntryPoint p st)))
    /\ 1 <= length (filter (isFuncNamed kTfWrapperLibaryLaunchHelperName)
                      (moduleBody (snd (ensureEntryPoint p st)))).
Proof.
  intros p st [Hg He].
  assert (Hnew : EntryPointUnique (moduleBody st) ->
                 length (filter (isFuncNamed kTfWrapperLibaryLaunchHelperName)
                           (moduleBody st)) = 0 ->
                 Deduplicated (TFunc (entryPointDeclaration p) :: moduleBody st)
                 /\ 1 <= length (filter (isFuncNamed kTfWrapperLibaryLaunchHelperName)
                                   (TFunc (entryPointDeclaration p) :: moduleBody st))).
  { intros _ H0. split; [split|].
    - intros name. cbn [filter isGlobalNamed]. apply Hg.
    - unfold EntryPointUnique, lookupSymbolIn. cbn. split; [reflexivity|].
      cbn in H0. rewrite H0. reflexivity.
    - cbn. lia. }
  unfold ensureEntryPoint.
  pose proof He as He'. unfold EntryPointUnique in He'.
  destruct (lookupSymbolIn (moduleBody st) kTfWrapperLibaryLaunchHelperName)
    as [[g|f|g]|] eqn:E; cbn [snd].
  - rewrite moduleBody_prependTop. apply Hnew; assumption.
  - destruct He' as [Hk H1]. rewrite Hk. cbn [snd].
    split; [split; assumption | lia].
  - rewrite moduleBody_prependTop. apply Hnew; assumption.
  - rewrite moduleBody_prependTop. apply Hnew; assumption.
Qed.

Lemma Stable_Deduplicated : forall p, Stable p Deduplicated.
Proof.
  intros p. split.
  - intros A f f' B Hn Hk [Hg He]. split.
    + eapply GlobalsUnique_replace. exact Hg.
    + eapply EntryPointUnique_replace; eassumption.
  - intros l operands st r st' H Hm.
    destruct (matchAndRewrite_cases _ _ _ _ _ _ Hm)
      as [(_ & _ & ->)
         |[(km & _ & _ & _ & _ & ->)
          |(km & binary & ctx & params & st3 & gx & gy & gz & bx & b_y & bz
            & _ & _ & _ & _ & _ & Hgen & _ & _ & _ & _ & _ & _ & _ & ->)]].
    + exact H.
    + exact H.
    + rewrite moduleBody_withRootErased, moduleBody_advance.
      apply Deduplicated_ensureEntryPoint.
      rewrite (moduleBody_generateParamsArray _ _ _ _ _ Hgen).
      unfold stateAfterGlobals. rewrite moduleBody_advance.
      apply Deduplicated_emitOrReuse; [apply kernel_name_not_entry_point|].
      rewrite moduleBody_advance.
      apply Deduplicated_emitOrReuse; [apply blob_name_not_entry_point|].
      exact H.
Qed.

(** After a successful rewrite the blob constant and the entry point are
    in the module body. *)
Lemma matchAndRewrite_success_present : forall p l operands st st',
    matchAndRewrite p l operands st = Some (success, st') ->
    Deduplicated (moduleBody st) ->
    1 <= length (filter (isGlobalNamed (blobGlobalName (getKernelModuleName l)))
                   (moduleBody st'))
    /\ 1 <= length (filter (isFuncNamed kTfWrapperLibaryLaunchHelperName)
                      (moduleBody st')).
Proof.
  intros p l operands st st' Hm HD.
  destruct (matchAndRewrite_cases _ _ _ _ _ _ Hm)
    as [(_ & Hr & _)
       |[(km & _ & _ & _ & Hr & _)
        |(km & binary & ctx & params & st3 & gx & gy & gz & bx & b_y & bz
          & _ & Hres & _ & _ & _ & Hgen & _ & _ & _ & _ & _ & _ & _ & ->)]];
    try discriminate.
  rewrite moduleBody_withRootErased, moduleBody_advance.
  pose proof (resolvedModule_name _ _ _ Hres) as Hname.
  assert (HD3 : Deduplicated (moduleBody st3)).
  { rewrite (moduleBody_generateParamsArray _ _ _ _ _ Hgen).
    unfold stateAfterGlobals. rewrite moduleBody_advance.
    apply Deduplicated_emitOrReuse; [apply kernel_name_not_entry_point|].
    rewrite moduleBody_advance.
    apply Deduplicated_emitOrReuse; [apply blob_name_not_entry_point|].
    exact HD. }
  split; [|apply Deduplicated_ensureEntryPoint; exact HD3].
  assert (Hfound : exists g,
             findGlobal (moduleBody (snd (ensureEntryPoint p st3)))
                        (blobGlobalName (getKernelModuleName l)) = Some g).
  { rewrite findGlobal_ensureEntryPoint.
    rewrite (moduleBody_generateParamsArray _ _ _ _ _ Hgen).
    unfold stateAfterGlobals. rewrite moduleBody_advance.
    rewrite findGlobal_emitOrReuse_other
      by (intros E; symmetry in E; exact (blob_name_not_kernel_name _ _ _ E)).
    rewrite moduleBody_advance. rewrite Hname.
    rewrite findGlobal_emitOrReuse_same.
    destruct (findGlobal (moduleBody st) (blobGlobalName (getKernelModuleName l)));
      eexists; reflexivity. }
  destruct Hfound as [g Hg]. unfold findGlobal in Hg.
  eapply find_some_filter. exact Hg.
Qed.

Lemma NoDup_map_injective : forall (A B : Type) (f : A -> B) l x y,
    NoDup (map f l) -> In x l -> In y l -> f x = f y -> x = y.
Proof.
  intros A B f l x y. induction l as [|a l IH]; cbn [map]; intros Hnd Hx Hy Hf.
  - contradiction.
  - inversion Hnd as [|b l0 Hnotin Hnd']; subst.
    destruct Hx as [->|Hx], Hy as [->|Hy].
    + reflexivity.
    + exfalso. apply Hnotin. rewrite Hf. apply in_map. exact Hy.
    + exfalso. apply Hnotin. rewrite <- Hf. apply in_map. exact Hx.
    + apply IH; assumption.
Qed.

Lemma NoDup_name_filter : forall body (P : TopOp -> bool) name,
    NoDup (map symbolName body) ->
    (forall t, P t = true -> symbolName t = name) ->
    length (filter P body) <= 1.
Proof.
  intros body P name Hnd HP.
  destruct (filter P body) as [|x [|y rest]] eqn:E; cbn [length]; try lia.
  exfalso.
  assert (Hx : In x (filter P body)) by (rewrite E; left; reflexivity).
  assert (Hy : In y (filter P body)) by (rewrite E; right; left; reflexivity).
  apply filter_In in Hx. apply filter_In in Hy.
  destruct Hx as [Hx Px], Hy as [Hy Py].
  assert (Hxy : x = y).
  { eapply NoDup_map_injective; try eassumption.
    rewrite (HP _ Px), (HP _ Py). reflexivity. }
  subst y.
  assert (Hnd' : NoDup (filter P body)).
  { apply NoDup_filter. eapply NoDup_map_inv. exact Hnd. }
  rewrite E in Hnd'. inversion Hnd' as [|? ? Hnotin _]; subst.
  apply Hnotin. left. reflexivity.
Qed.

Lemma isGlobalNamed_name : forall name t,
    isGlobalNamed name t = true -> symbolName t = name.
Proof.
  intros name [g|f|g] H; try discriminate. apply String.eqb_eq. exact H.
Qed.

Lemma isFuncNamed_name : forall name t,
    isFuncNamed name t = true -> symbolName t = name.
Proof.
  intros name [g|f|g] H; try discriminate. apply String.eqb_eq. exact H.
Qed.

(** A module with unique symbol names in which no builtin function carries
    the name of the entry point is deduplicated. *)
Lemma Deduplicated_initial : forall body,
    NoDup (map symbolName body) ->
    (forall f, In (TFunc f) body ->
               func_name f = kTfWrapperLibaryLaunchHelperName ->
               func_kind f = LLVMFunc) ->
    Deduplicated body.
Proof.
  intros body Hnd Hllvm. split.
  - intros name. eapply NoDup_name_filter; [exact Hnd|].
    apply isGlobalNamed_name.
  - unfold EntryPointUnique.
    destruct (lookupSymbolIn body kTfWrapperLibaryLaunchHelperName) as [t|] eqn:E.
    + pose proof (lookupSymbolIn_name _ _ _ E) as Hname.
      unfold lookupSymbolIn in E. apply find_some in E. destruct E as [Hin _].
      assert (Hother : forall x,
                 In x (filter (isFuncNamed kTfWrapperLibaryLaunchHelperName) body) ->
                 x = t).
      { intros x Hx. apply filter_In in Hx. destruct Hx as [Hx Px].
        eapply NoDup_map_injective; try eassumption.
        rewrite (isFuncNamed_name _ _ Px), Hname. reflexivity. }
      destruct t as [g|f|g].
      * destruct (filter (isFuncNamed kTfWrapperLibaryLaunchHelperName) body)
          as [|x rest] eqn:F; [reflexivity|].
        exfalso. assert (Hx : x = TGlobal g) by (apply Hother; left; reflexivity).
        assert (Px : In x (filter (isFuncNamed kTfWrapperLibaryLaunchHelperName) body))
          by (rewrite F; left; reflexivity).
        apply filter_In in Px. destruct Px as [_ Px]. subst x. discriminate.
      * split; [apply Hllvm; assumption|].
        apply Nat.le_antisymm.
        -- eapply NoDup_name_filter; [exact Hnd | apply isFuncNamed_name].
        -- assert (Hf : In (TFunc f)
                           (filter (isFuncNamed kTfWrapperLibaryLaunchHelperName) body)).
           { apply filter_In. split; [exact Hin|]. cbn. cbn in Hname.
             apply String.eqb_eq. exact Hname. }
           destruct (filter (isFuncNamed kTfWrapperLibaryLaunchHelperName) body);
             [contradiction | cbn; lia].
      * destruct (filter (isFuncNamed kTfWrapperLibaryLaunchHelperName) body)
          as [|x rest] eqn:F; [reflexivity|].
        exfalso. assert (Hx : x = TGPUModule g) by (apply Hother; left; reflexivity).
        assert (Px : In x (filter (isFuncNamed kTfWrapperLibaryLaunchHelperName) body))
          by (rewrite F; left; reflexivity).
        apply filter_In in Px. destruct Px as [_ Px]. subst x. discriminate.
    + destruct (filter (isFuncNamed kTfWrapperLibaryLaunchHelperName) body)
        as [|x rest] eqn:F; [reflexivity|].
      exfalso.
      assert (Px : In x (filter (isFuncNamed kTfWrapperLibaryLaunchHelperName) body))
        by (rewrite F; left; reflexivity).
      apply filter_In in Px. destruct Px as [Hx Px].
      unfold lookupSymbolIn in E.
      pose proof (find_none _ _ E x Hx) as Hno. cbv beta in Hno.
      rewrite (isFuncNamed_name _ _ Px), String.eqb_refl in Hno. discriminate.
Qed.

Lemma filter_filter_implied : forall (A : Type) (P Q : A -> bool) l,
    (forall x, P x = true -> Q x = true) ->
    filter P (filter Q l) = filter P l.
Proof.
  intros A P Q l H. induction l as [|a l IH]; cbn [filter].
  - reflexivity.
  - destruct (Q a) eqn:Qa; cbn [filter].
    + rewrite IH. reflexivity.
    + destruct (P a) eqn:Pa; [|exact IH].
      rewrite (H a Pa) in Qa. discriminate.
Qed.

Lemma createGlobalString_again : forall name value value' st handle st1,
    createGlobalString name value Internal st = Some (handle, st1) ->
    exists handle' st2,
      createGlobalString name value' Internal st1 = Some (handle', st2) /\
      moduleBody st2 = moduleBody st1.
Proof.
  intros name value value' st handle st1 H.
  rewrite createGlobalString_eq in H. inversion H; subst. clear H.
  rewrite createGlobalString_eq. eexists. eexists. split; [reflexivity|].
  rewrite moduleBody_advance, moduleBody_emitOrReuse, moduleBody_advance.
  rewrite findGlobal_emitOrReuse_same.
  destruct (findGlobal (moduleBody st) name); reflexivity.
Qed.

Lemma ensureEntryPoint_again : forall p st,
    moduleBody (snd (ensureEntryPoint p (snd (ensureEntryPoint p st))))
    = moduleBody (snd (ensureEntryPoint p st)).
Proof.
  intros p st.
  assert (Hdecl : forall st0,
             moduleBody (snd (ensureEntryPoint p
                                (prependTop (TFunc (entryPointDeclaration p)) st0)))
             = moduleBody (prependTop (TFunc (entryPointDeclaration p)) st0)).
  { intros st0. unfold ensureEntryPoint at 1. rewrite moduleBody_prependTop.
    reflexivity. }
  unfold ensureEntryPoint at 2 3.
  destruct (lookupSymbolIn (moduleBody st) kTfWrapperLibaryLaunchHelperName)
    as [[g|f|g]|] eqn:E; cbn [snd]; try apply Hdecl.
  destruct (func_kind f) eqn:K; cbn [snd]; try apply Hdecl.
  unfold ensureEntryPoint. rewrite E, K. reflexivity.
Qed.

(** ** C1 *)

(** C1, as the code has it.  In a module with unique symbol names in
    which no builtin function carries the name of the runtime entry
    point, and with two launch instructions into the same Device Module,
    after a successful pass run there is exactly one global constant
    named <device-module-name>_blob and exactly one function of the name
    of the runtime entry point: a second request for a global string of a
    name that is in the module returns without inserting a constant, and
    resolving the entry point a second time inserts no declaration.  The
    lookup of the entry point is for an llvm.func: it does not see a
    builtin function of the name. *)
Theorem blob_and_entry_point_deduplicated :
  forall pass rules m out module_name,
    NoDup (map symbolName (getBody m)) ->
    (forall f, In (TFunc f) (getBody m) ->
               func_name f = kTfWrapperLibaryLaunchHelperName ->
               func_kind f = LLVMFunc) ->
    2 <= length (filter (launchesInto module_name) (hostOperations (getBody m))) ->
    runOnOperation pass rules m = Some out ->
    pass_failed out = false ->
    length (globalsNamed (module_name ++ "_blob")%string (pass_module out)) = 1 /\
    length (functionsNamed kTfWrapperLibaryLaunchHelperName (pass_module out)) = 1 /\
    (forall name value value' st handle st1,
        createGlobalString name value Internal st = Some (handle, st1) ->
        exists handle' st2,
          createGlobalString name value' Internal st1 = Some (handle', st2) /\
          moduleBody st2 = moduleBody st1) /\
    (forall p st,
        moduleBody (snd (ensureEntryPoint p (snd (ensureEntryPoint p st))))
        = moduleBody (snd (ensureEntryPoint p st))).
Proof.
  intros pass rules m out M Hnd Hllvm Htwo Hrun Hok.
  assert (Hl : exists l, In (OpLaunchFunc l) (hostOperations (getBody m))
                         /\ getKernelModuleName l = M).
  { destruct (filter (launchesInto M) (hostOperations (getBody m)))
      as [|op rest] eqn:F; [cbn in Htwo; lia|].
    assert (Hop : In op (filter (launchesInto M) (hostOperations (getBody m))))
      by (rewrite F; left; reflexivity).
    apply filter_In in Hop. destruct Hop as [Hin Hinto].
    destruct op as [l|o|d n a b]; try discriminate.
    exists l. split; [exact Hin|]. apply String.eqb_eq. exact Hinto. }
  destruct Hl as (l & Hin & HM).
  rewrite runOnOperation_eq in Hrun.
  destruct (convertTopOps passTarget (passPattern pass rules) rules (getBody m)
              (mkEngine [] (nextFreeId m) [] [])) as [[[r body] es]|] eqn:Hc;
    [|discriminate].
  inversion Hrun; subst out. cbn [pass_failed pass_module] in *.
  destruct r; [|discriminate].
  apply In_hostOperations in Hin. destruct Hin as (f & Hf & Hlf).
  destruct (convertTopOps_success_launch _ rules Deduplicated
              (Stable_Deduplicated _) _ _ _ _ f l Hc)
    as (st1 & st2 & HD1 & Hm & Hkeep).
  { cbn [es_done app]. apply Deduplicated_initial; assumption. }
  { exact Hf. }
  { exact Hlf. }
  set (P1 := isGlobalNamed (blobGlobalName (getKernelModuleName l))).
  set (P2 := isFuncNamed kTfWrapperLibaryLaunchHelperName).
  assert (HJ : Stable (passPattern pass rules)
                 (fun b => Deduplicated b
                           /\ (1 <= length (filter P1 b)
                               /\ 1 <= length (filter P2 b)))).
  { apply Stable_and; [apply Stable_Deduplicated|].
    apply Stable_and; apply Stable_count.
    - reflexivity.
    - intros g g' Hn. cbn. rewrite Hn. reflexivity. }
  destruct (Hkeep _ HJ) as ([Hg He] & Hblob & Hentry).
  { split.
    - destruct (Stable_Deduplicated (passPattern pass rules)) as [_ Hstep].
      eapply Hstep; eassumption.
    - eapply matchAndRewrite_success_present; eassumption. }
  split; [|split; [|split]].
  - unfold globalsNamed, eraseGPUModules. cbn [getBody].
    rewrite filter_filter_implied
      by (intros [g|g|g] Hx; [reflexivity | reflexivity | discriminate]).
    subst P1. rewrite HM in Hblob. unfold blobGlobalName in Hblob.
    specialize (Hg (M ++ "_blob")%string). lia.
  - unfold functionsNamed, eraseGPUModules. cbn [getBody].
    rewrite filter_filter_implied
      by (intros [g|g|g] Hx; [reflexivity | reflexivity | discriminate]).
    subst P2. unfold EntryPointUnique in He.
    destruct (lookupSymbolIn body kTfWrapperLibaryLaunchHelperName) as [[g|g|g]|];
      lia.
  - apply createGlobalString_again.
  - apply ensureEntryPoint_again.
Qed.

Lemma example_twice_module_runs :
  exists out,
    runOnOperation example_pass example_rules example_twice_module = Some out /\
    pass_failed out = false.
Proof. eexists. split; [vm_compute; reflexivity | reflexivity]. Qed.

(** The scenario with two launch instructions into K: one K_blob and one
    declaration of tfKernelGenLaunchKernel. *)
Lemma blob_and_entry_point_deduplicated_witness :
  exists out,
    runOnOperation example_pass example_rules example_twice_module = Some out /\
    pass_failed out = false /\
    length (globalsNamed "K_blob" (pass_module out)) = 1 /\
    length (functionsNamed "tfKernelGenLaunchKernel" (pass_module out)) = 1.
Proof.
  destruct example_twice_module_runs as (out & Hrun & Hok).
  exists out. split; [exact Hrun|]. split; [exact Hok|].
  assert (Hnd : NoDup (map symbolName (getBody example_twice_module))).
  { cbn. constructor.
    - intros [H|[]]. discriminate.
    - constructor; [intros [] | constructor]. }
  assert (Hllvm : forall f, In (TFunc f) (getBody example_twice_module) ->
                            func_name f = kTfWrapperLibaryLaunchHelperName ->
                            func_kind f = LLVMFunc).
  { intros f [H|[H|[]]]; [discriminate|]. inversion H; subst. reflexivity. }
  destruct (blob_and_entry_point_deduplicated example_pass example_rules
              example_twice_module out "K" Hnd Hllvm (le_n 2) Hrun Hok)
    as (Hblob & Hentry & _).
  split; assumption.
Defined.

(** C1 as stated fails where a builtin function of the name of the
    runtime entry point stands behind the host function: the lookup for
    an llvm.func does not find it, the declaration is created, and the
    builtin function is lowered to an llvm.func of the same name
    afterwards.  The run succeeds with one blob constant and two functions
    of the name. *)
Lemma entry_point_duplicated_counterexample :
  NoDup (map symbolName (getBody example_squatter_module)) /\
  length (filter (launchesInto "K")
            (hostOperations (getBody example_squatter_module))) = 2 /\
  exists out,
    runOnOperation example_pass example_lowering_rules example_squatter_module
    = Some out /\
    pass_failed out = false /\
    length (globalsNamed "K_blob" (pass_module out)) = 1 /\
    length (functionsNamed kTfWrapperLibaryLaunchHelperName (pass_module out)) = 2.
Proof.
  split.
  { cbn. repeat constructor; cbn; intuition discriminate. }
  split; [reflexivity|].
  eexists. split; [vm_compute; reflexivity|].
  split; [reflexivity|]. split; vm_compute; reflexivity.
Qed.

(** * Further properties

    ** The outcomes of matchAndRewrite *)

Lemma Inserts_refl : forall p st, Inserts p 0 st st.
Proof.
  intros p st. exists []. repeat split; try reflexivity. constructor.
Qed.

Lemma Inserts_trans : forall p j k st1 st2 st3,
    Inserts p j st1 st2 -> Inserts p k st2 st3 -> Inserts p (j + k) st1 st3.
Proof.
  intros p j k st1 st2 st3 (c1 & Hm1 & Hl1 & Hc1 & Hp1 & Ha1 & Hd1 & Hf1)
         (c2 & Hm2 & Hl2 & Hc2 & Hp2 & Ha2 & Hd2 & Hf2).
  exists (c2 ++ c1).
  rewrite Hm2, Hm1, Hp2, Hp1, Ha2, Ha1, Hd2, Hd1, Hf2, Hf1, <- app_assoc.
  repeat split; try reflexivity.
  - rewrite length_app. lia.
  - apply Forall_app. split; assumption.
Qed.

Lemma Inserts_advance : forall p st ops n, Inserts p 0 st (advance st ops n).
Proof.
  intros p st ops n. exists []. repeat split; try reflexivity. constructor.
Qed.

Lemma Inserts_withRootErased : forall p st b, Inserts p 0 st (withRootErased b st).
Proof.
  intros p st b. exists []. repeat split; try reflexivity. constructor.
Qed.

Lemma Inserts_prependTop : forall p st t,
    isCreatedTop p t -> Inserts p 1 st (prependTop t st).
Proof.
  intros p st t H. exists [t]. repeat split; try reflexivity.
  constructor; [exact H | constructor].
Qed.

Lemma Inserts_weaken : forall p j k st st',
    j <= k -> Inserts p j st st' -> Inserts p k st st'.
Proof.
  intros p j k st st' Hjk (c & Hm & Hl & H). exists c.
  split; [exact Hm|]. split; [lia | exact H].
Qed.

Lemma Inserts_emitOrReuse : forall p st name value,
    Inserts p 1 st (emitOrReuse name value Internal st).
Proof.
  intros p st name value. unfold emitOrReuse.
  destruct (findGlobal (moduleBody st) name).
  - apply (Inserts_weaken p 0); [lia | apply Inserts_refl].
  - apply Inserts_prependTop. left. exists name, value. reflexivity.
Qed.

Lemma Inserts_ensureEntryPoint : forall p st,
    Inserts p 1 st (snd (ensureEntryPoint p st)).
Proof.
  intros p st. unfold ensureEntryPoint.
  destruct (lookupSymbolIn (moduleBody st) kTfWrapperLibaryLaunchHelperName)
    as [[g|f|g]|]; try destruct (func_kind f); cbn [snd];
    try (apply (Inserts_weaken p 0); [lia | apply Inserts_refl]);
    apply Inserts_prependTop; right; reflexivity.
Qed.

Lemma Inserts_stateAfterGlobals : forall p l km binary st,
    Inserts p 2 st (stateAfterGlobals p l km binary st).
Proof.
  intros p l km binary st. unfold stateAfterGlobals.
  eapply (Inserts_trans p 2 0); [|apply Inserts_advance].
  eapply (Inserts_trans p 1 1); [|apply Inserts_emitOrReuse].
  eapply (Inserts_trans p 1 0); [|apply Inserts_advance].
  apply Inserts_emitOrReuse.
Qed.

Lemma Inserts_moduleBody : forall p k st st',
    Inserts p k st st' ->
    exists created, moduleBody st' = created ++ moduleBody st /\
                    length created <= k /\ Forall (isCreatedTop p) created.
Proof.
  intros p k st st' (c & Hm & Hl & Hc & Hp & Ha & _).
  exists c. unfold moduleBody. rewrite Hm, Hp, Ha, <- app_assoc.
  repeat split; assumption.
Qed.

Lemma matchAndRewrite_success_inserts : forall p l operands st st',
    matchAndRewrite p l operands st = Some (success, st') -> Inserts p 3 st st'.
Proof.
  intros p l operands st st' H.
  destruct (matchAndRewrite_cases _ _ _ _ _ _ H)
    as [(_ & Hr & _)
       |[(km & _ & _ & _ & Hr & _)
        |(km & binary & ctx & params & st3 & gx & gy & gz & bx & b_y & bz
          & _ & _ & _ & _ & _ & Hgen & _ & _ & _ & _ & _ & _ & _ & ->)]];
    try discriminate.
  destruct (generateParamsArray_frame _ _ _ _ _ Hgen) as (ops & n & Hst3 & _).
  eapply (Inserts_trans p 3 0); [|apply Inserts_withRootErased].
  eapply (Inserts_trans p 3 0); [|apply Inserts_advance].
  eapply (Inserts_trans p 2 1); [|apply Inserts_ensureEntryPoint].
  eapply (Inserts_trans p 2 0); [apply Inserts_stateAfterGlobals|].
  rewrite Hst3. apply Inserts_advance.
Qed.

(** X1.  A rewrite that returns failure has changed nothing of the IR: the
    module body, the operations in front of the insertion point, the
    erased flag and the value counter are as before.  The failure is
    never silent: either the note on asynchronous launches went to the
    rewriter's log, or one error diagnostic was emitted. *)
Theorem matchAndRewrite_failure_keeps_ir : forall p launch_op operands st st',
    matchAndRewrite p launch_op operands st = Some (failure, st') ->
    moduleBody st' = moduleBody st /\
    blk_before st' = blk_before st /\
    root_erased st' = root_erased st /\
    next_id st' = next_id st /\
    ((match_failures st' = match_failures st ++ [asyncMessage] /\
      diagnostics st' = diagnostics st)
     \/ (exists d, diagnostics st' = diagnostics st ++ [d] /\
                   diag_severity d = SevError /\
                   match_failures st' = match_failures st)).
Proof.
  intros p l operands st st' H.
  destruct (matchAndRewrite_cases _ _ _ _ _ _ H)
    as [(_ & _ & ->)
       |[(km & _ & _ & _ & _ & ->)
        |(km & binary & ctx & params & st3 & gx & gy & gz & bx & b_y & bz
          & _ & _ & _ & _ & _ & _ & _ & _ & _ & _ & _ & _ & Hr & _)]];
    try discriminate.
  - repeat split; try reflexivity. left. split; reflexivity.
  - repeat split; try reflexivity. right.
    exists (missingAttributeDiagnostic p km). repeat split; reflexivity.
Qed.

Lemma example_bare_rewrite_fails :
  exists st',
    matchAndRewrite example_pattern example_launch (getOperands example_launch)
      example_bare_state = Some (failure, st').
Proof. eexists. vm_compute. reflexivity. Qed.

(** The scenario without annotation: the rejected rewrite leaves the
    module body and the function as they were. *)
Lemma matchAndRewrite_failure_keeps_ir_witness :
  exists st',
    matchAndRewrite example_pattern example_launch (getOperands example_launch)
      example_bare_state = Some (failure, st') /\
    moduleBody st' = moduleBody example_bare_state /\
    blk_before st' = blk_before example_bare_state.
Proof.
  destruct example_bare_rewrite_fails as [st' Hrun]. exists st'.
  split; [exact Hrun|].
  destruct (matchAndRewrite_failure_keeps_ir _ _ _ _ _ Hrun) as (Hb & Hk & _).
  split; assumption.
Defined.

(** X2.  A successful rewrite touches the module level only by creating
    operations in front of the module body: at most three of them, each
    an internal global string or the declaration of the runtime entry
    point.  What the module held stays behind them in its order, and
    neither a diagnostic nor a note of the rewriter's log is produced. *)
Theorem matchAndRewrite_success_module_level : forall p launch_op operands st st',
    matchAndRewrite p launch_op operands st = Some (success, st') ->
    exists created,
      moduleBody st' = created ++ moduleBody st /\
      length created <= 3 /\
      Forall (isCreatedTop p) created /\
      diagnostics st' = diagnostics st /\
      match_failures st' = match_failures st.
Proof.
  intros p l operands st st' H.
  pose proof (matchAndRewrite_success_inserts _ _ _ _ _ H) as HI.
  destruct (Inserts_moduleBody _ _ _ _ HI) as (c & Hb & Hl & Hc).
  destruct HI as (_ & _ & _ & _ & _ & _ & Hd & Hf).
  exists c. repeat split; assumption.
Qed.

(** The scenario: the two global strings and the declaration. *)
Lemma matchAndRewrite_success_module_level_witness :
  exists st' created,
    matchAndRewrite example_pattern example_launch (getOperands example_launch)
      example_state = Some (success, st') /\
    moduleBody st' = created ++ moduleBody example_state /\
    length created <= 3.
Proof.
  destruct example_rewrite_succeeds as [st' Hrun].
  destruct (matchAndRewrite_success_module_level _ _ _ _ _ Hrun)
    as (created & Hb & Hl & _).
  exists st', created. split; [exact Hrun|]. split; assumption.
Defined.

Lemma nth_error_six : forall (A : Type) (l : list A),
    6 <= length l ->
    exists a b c d e f,
      nth_error l 0 = Some a /\ nth_error l 1 = Some b /\ nth_error l 2 = Some c /\
      nth_error l 3 = Some d /\ nth_error l 4 = Some e /\ nth_error l 5 = Some f.
Proof.
  intros A l H.
  destruct l as [|a [|b [|c [|d [|e [|f l]]]]]]; cbn [length] in H; try lia.
  exists a, b, c, d, e, f. repeat split.
Qed.

Lemma nth_error_five_length : forall (A : Type) (l : list A) x,
    nth_error l 5 = Some x -> 6 <= length l.
Proof.
  intros A l x H.
  assert (5 < length l) by (apply nth_error_Some; congruence). lia.
Qed.

(** X3.  When the launch rule applies.  matchAndRewrite returns success
    exactly when the launch instruction has neither asynchronous
    dependencies nor an asynchronous result, its kernel module symbol
    resolves to a Device Module that carries the blob annotation as a
    string, the enclosing function is an llvm.func with at least one
    argument, generateParamsArray returns on the state reached behind the
    two global strings, and six converted operands are there for the
    launch dimensions. *)
Theorem matchAndRewrite_succeeds_iff : forall p launch_op operands st,
    (exists st', matchAndRewrite p launch_op operands st = Some (success, st')) <->
    (asyncDependencies launch_op = [] /\ asyncToken launch_op = None /\
     exists kernel_module binary,
       resolvedModule st launch_op = Some kernel_module /\
       getAttrOfType_StringAttr kernel_module (gpu_binary_annotation_ p) = Some binary /\
       func_kind (parent_func st) = LLVMFunc /\
       func_arguments (parent_func st) <> [] /\
       generateParamsArray launch_op operands
         (stateAfterGlobals p launch_op kernel_module binary st) <> None /\
       6 <= length operands).
Proof.
  intros p l operands st. split.
  - intros (st' & H).
    destruct (matchAndRewrite_cases _ _ _ _ _ _ H)
      as [(_ & Hr & _)
         |[(km & _ & _ & _ & Hr & _)
          |(km & binary & ctx & params & st3 & gx & gy & gz & bx & b_y & bz
            & Hsync & Hres & Hattr & Hkind & Hctx & Hgen & _ & _ & _ & _ & _
            & Hbz & _ & _)]];
      try discriminate.
    apply isSynchronous_true in Hsync. destruct Hsync as [Hd Ht].
    split; [exact Hd|]. split; [exact Ht|].
    exists km, binary. repeat split; try assumption.
    + intros E. rewrite E in Hctx. discriminate.
    + rewrite Hgen. discriminate.
    + eapply nth_error_five_length. exact Hbz.
  - intros (Hd & Ht & km & binary & Hres & Hattr & Hkind & Hargs & Hgen & Hlen).
    assert (Hsync : isSynchronous l = true)
      by (apply isSynchronous_true; split; assumption).
    rewrite (matchAndRewrite_rewrites _ _ _ _ _ _ Hsync Hres Hattr).
    cbv zeta. rewrite Hkind.
    destruct (func_arguments (parent_func st)) as [|ctx args]; [contradiction|].
    change (nth_error (ctx :: args) 0) with (Some ctx).
    destruct (generateParamsArray l operands (stateAfterGlobals p l km binary st))
      as [[params st3]|]; [|contradiction].
    destruct (nth_error_six _ _ Hlen)
      as (a & b & c & d & e & f & -> & -> & -> & -> & -> & ->).
    eexists. reflexivity.
Qed.

Lemma example_marshal_after_globals :
  exists array_ptr st',
    generateParamsArray example_launch (getOperands example_launch)
      (stateAfterGlobals example_pattern example_launch example_device_module
         example_blob example_state)
    = Some (array_ptr, st').
Proof. eexists. eexists. vm_compute. reflexivity. Qed.

(** The scenario meets the conditions. *)
Lemma matchAndRewrite_succeeds_iff_witness :
  exists st',
    matchAndRewrite example_pattern example_launch (getOperands example_launch)
      example_state = Some (success, st').
Proof.
  apply (proj2 (matchAndRewrite_succeeds_iff example_pattern example_launch
                  (getOperands example_launch) example_state)).
  split; [reflexivity|]. split; [reflexivity|].
  exists example_device_module, example_blob.
  split; [reflexivity|]. split; [reflexivity|]. split; [reflexivity|].
  split; [discriminate|]. split.
  - destruct example_marshal_after_globals as (a & s & H). rewrite H. discriminate.
  - cbn. lia.
Defined.

(** X4.  When the launch rule rejects.  matchAndRewrite returns failure
    exactly when the launch instruction carries an asynchronous dependency
    or an asynchronous result, or its kernel module symbol resolves to a
    Device Module without a string attribute under the annotation key. *)
Theorem matchAndRewrite_fails_iff : forall p launch_op operands st,
    (exists st', matchAndRewrite p launch_op operands st = Some (failure, st')) <->
    (asyncDependencies launch_op <> [] \/ asyncToken launch_op <> None
     \/ exists kernel_module,
          resolvedModule st launch_op = Some kernel_module /\
          getAttrOfType_StringAttr kernel_module (gpu_binary_annotation_ p) = None).
Proof.
  intros p l operands st. split.
  - intros (st' & H).
    destruct (matchAndRewrite_cases _ _ _ _ _ _ H)
      as [(Hsync & _ & _)
         |[(km & _ & Hres & Hattr & _ & _)
          |(km & binary & ctx & params & st3 & gx & gy & gz & bx & b_y & bz
            & _ & _ & _ & _ & _ & _ & _ & _ & _ & _ & _ & _ & Hr & _)]];
      try discriminate.
    + apply isSynchronous_false in Hsync. tauto.
    + right. right. exists km. split; assumption.
  - intros H.
    destruct (isSynchronous l) eqn:Hsync.
    + destruct H as [H|[H|(km & Hres & Hattr)]].
      * apply isSynchronous_true in Hsync. tauto.
      * apply isSynchronous_true in Hsync. tauto.
      * rewrite (matchAndRewrite_missing _ _ _ _ _ Hsync Hres Hattr).
        eexists. reflexivity.
    + rewrite (matchAndRewrite_async _ _ _ _ Hsync). eexists. reflexivity.
Qed.

(** The scenario without annotation is rejected. *)
Lemma matchAndRewrite_fails_iff_witness :
  exists st',
    matchAndRewrite example_pattern example_launch (getOperands example_launch)
      example_bare_state = Some (failure, st').
Proof.
  apply (proj2 (matchAndRewrite_fails_iff example_pattern example_launch
                  (getOperands example_launch) example_bare_state)).
  right. right. exists example_bare_device_module. split; reflexivity.
Defined.

(** X5.  When the launch rule has no result.  On a synchronous launch
    instruction the assertion on the kernel module is violated when the
    symbol is missing or is no Device Module; behind the global strings a
    null or empty handle is dereferenced when the enclosing function is
    no llvm.func or has no argument, when generateParamsArray has no
    result, or when fewer than six converted operands are there.  These
    are the only ways in which matchAndRewrite has no result; an
    asynchronous launch instruction never gets that far. *)
Theorem matchAndRewrite_aborts_iff : forall p launch_op operands st,
    matchAndRewrite p launch_op operands st = None <->
    (asyncDependencies launch_op = [] /\ asyncToken launch_op = None /\
     (resolvedModule st launch_op = None
      \/ exists kernel_module binary,
           resolvedModule st launch_op = Some kernel_module /\
           getAttrOfType_StringAttr kernel_module (gpu_binary_annotation_ p)
           = Some binary /\
           (func_kind (parent_func st) = BuiltinFunc
            \/ func_arguments (parent_func st) = []
            \/ generateParamsArray launch_op operands
                 (stateAfterGlobals p launch_op kernel_module binary st) = None
            \/ length operands < 6))).
Proof.
  intros p l operands st.
  destruct (isSynchronous l) eqn:Hsync.
  2:{ rewrite (matchAndRewrite_async _ _ _ _ Hsync).
      apply isSynchronous_false in Hsync.
      split; [discriminate|]. intros (Hd & Ht & _). tauto. }
  pose proof Hsync as Hs. apply isSynchronous_true in Hs. destruct Hs as [Hd Ht].
  destruct (resolvedModule st l) as [km|] eqn:Hres.
  2:{ rewrite (matchAndRewrite_unresolved _ _ _ _ Hsync Hres).
      split; [|reflexivity]. intros _. repeat split; try assumption.
      left. reflexivity. }
  destruct (getAttrOfType_StringAttr km (gpu_binary_annotation_ p))
    as [binary|] eqn:Hattr.
  2:{ rewrite (matchAndRewrite_missing _ _ _ _ _ Hsync Hres Hattr).
      split; [discriminate|].
      intros (_ & _ & [E|(km' & binary & E & Hattr' & _)]); [discriminate|].
      inversion E; subst km'. congruence. }
  rewrite (matchAndRewrite_rewrites _ _ _ _ _ _ Hsync Hres Hattr). cbv zeta.
  split.
  - intros H. split; [exact Hd|]. split; [exact Ht|]. right.
    exists km, binary. split; [reflexivity|]. split; [exact Hattr|].
    destruct (func_kind (parent_func st)); [left; reflexivity|].
    right.
    destruct (func_arguments (parent_func st)) as [|ctx args]; [left; reflexivity|].
    right. change (nth_error (ctx :: args) 0) with (Some ctx) in H.
    destruct (generateParamsArray l operands (stateAfterGlobals p l km binary st))
      as [[params st3]|]; [|left; reflexivity].
    right.
    destruct (le_lt_dec 6 (length operands)) as [Hlen|Hlen]; [|exact Hlen].
    destruct (nth_error_six _ _ Hlen)
      as (a & b & c & d & e & f & Ea & Eb & Ec & Ed & Ee & Ef).
    rewrite Ea, Eb, Ec, Ed, Ee, Ef in H. discriminate.
  - intros (_ & _ & [E|(km' & binary' & E & Hattr' & Hwhy)]); [discriminate|].
    inversion E; subst km'.
    assert (binary' = binary) by congruence. subst binary'.
    destruct Hwhy as [Hk|[Ha|[Hg|Hlen]]].
    + rewrite Hk. reflexivity.
    + rewrite Ha. destruct (func_kind (parent_func st)); reflexivity.
    + rewrite Hg.
      destruct (func_kind (parent_func st)); [reflexivity|].
      destruct (nth_error (func_arguments (parent_func st)) 0); reflexivity.
    + destruct (func_kind (parent_func st)); [reflexivity|].
      destruct (nth_error (func_arguments (parent_func st)) 0); [|reflexivity].
      destruct (generateParamsArray l operands (stateAfterGlobals p l km binary st))
        as [[params st3]|]; [|reflexivity].
      assert (E5 : nth_error operands 5 = None) by (apply nth_error_None; lia).
      rewrite E5.
      destruct (nth_error operands 0), (nth_error operands 1),
        (nth_error operands 2), (nth_error operands 3), (nth_error operands 4);
        reflexivity.
Qed.

(** The scenario without its Device Module. *)
Lemma matchAndRewrite_aborts_iff_witness :
  matchAndRewrite example_pattern example_launch (getOperands example_launch)
    example_orphan_state = None.
Proof.
  apply (proj2 (matchAndRewrite_aborts_iff example_pattern example_launch
                  (getOperands example_launch) example_orphan_state)).
  split; [reflexivity|]. split; [reflexivity|]. left. reflexivity.
Defined.

(** ** The callee of the emitted call *)

Lemma lookupNearestLLVMFunc_eq : forall symbol st,
    lookupNearestLLVMFunc symbol st =
    Some (match lookupSymbolIn (moduleBody st) symbol with
          | Some (TFunc f) =>
              match func_kind f with LLVMFunc => Some f | BuiltinFunc => None end
          | _ => None
          end, st).
Proof. reflexivity. Qed.

Lemma lookupSymbolIn_cons_other : forall t body symbol,
    symbolName t <> symbol ->
    lookupSymbolIn (t :: body) symbol = lookupSymbolIn body symbol.
Proof.
  intros t body symbol H. unfold lookupSymbolIn. cbn [find].
  destruct (String.eqb_spec (symbolName t) symbol); [contradiction | reflexivity].
Qed.

Lemma lookupSymbolIn_cons_same : forall t body,
    lookupSymbolIn (t :: body) (symbolName t) = Some t.
Proof.
  intros t body. unfold lookupSymbolIn. cbn [find].
  rewrite String.eqb_refl. reflexivity.
Qed.

Lemma lookupSymbolIn_emitOrReuse : forall name value linkage st symbol,
    name <> symbol ->
    lookupSymbolIn (moduleBody (emitOrReuse name value linkage st)) symbol
    = lookupSymbolIn (moduleBody st) symbol.
Proof.
  intros name value linkage st symbol H. rewrite moduleBody_emitOrReuse.
  destruct (findGlobal (moduleBody st) name); [reflexivity|].
  apply lookupSymbolIn_cons_other. exact H.
Qed.

Lemma lookupSymbolIn_stateAfterGlobals : forall p l km binary st,
    lookupSymbolIn (moduleBody (stateAfterGlobals p l km binary st))
      kTfWrapperLibaryLaunchHelperName
    = lookupSymbolIn (moduleBody st) kTfWrapperLibaryLaunchHelperName.
Proof.
  intros p l km binary st. unfold stateAfterGlobals.
  rewrite moduleBody_advance.
  rewrite lookupSymbolIn_emitOrReuse by apply kernel_name_not_entry_point.
  rewrite moduleBody_advance.
  apply lookupSymbolIn_emitOrReuse. apply blob_name_not_entry_point.
Qed.

Lemma lookupSymbolIn_ensureEntryPoint : forall p st,
    lookupSymbolIn (moduleBody (snd (ensureEntryPoint p st)))
      kTfWrapperLibaryLaunchHelperName
    = Some (TFunc (fst (ensureEntryPoint p st)))
    /\ func_kind (fst (ensureEntryPoint p st)) = LLVMFunc.
Proof.
  intros p st. unfold ensureEntryPoint.
  destruct (lookupSymbolIn (moduleBody st) kTfWrapperLibaryLaunchHelperName)
    as [[g|f|g]|] eqn:E; try destruct (func_kind f) eqn:K; cbn [fst snd];
    try (split; [apply (lookupSymbolIn_cons_same
                          (TFunc (entryPointDeclaration p))) | reflexivity]).
  split; assumption.
Qed.

(** X6.  After a successful rewrite the name of the runtime entry point
    resolves to an llvm.func, and the last created operation calls that
    function.  Where the lookup had found no llvm.func of the name, the
    function is the declaration that the rule created; where it had found
    one, that function is the callee as it is, whatever its type.  The
    handles passed for the blob, the kernel name and the parameter array
    have the types that the created declaration gives to its second,
    third and tenth parameter. *)
Theorem entry_point_resolves_after_rewrite :
  forall p launch_op operands st st',
    matchAndRewrite p launch_op operands st = Some (success, st') ->
    exists function context_arg module_blob kernel_name_global kernel_params
           grid_x grid_y grid_z block_x block_y block_z,
      lookupNearestLLVMFunc kTfWrapperLibaryLaunchHelperName st'
      = Some (Some function, st') /\
      (lookupNearestLLVMFunc kTfWrapperLibaryLaunchHelperName st = Some (None, st) ->
       function = entryPointDeclaration p) /\
      (forall existing,
          lookupNearestLLVMFunc kTfWrapperLibaryLaunchHelperName st
          = Some (Some existing, st) ->
          function = existing) /\
      last (blk_before st') (OpLaunchFunc launch_op)
      = OpLLVM (CallOp llvm_void_type_ (func_name function)
                  [context_arg; module_blob; kernel_name_global;
                   grid_x; grid_y; grid_z; block_x; block_y; block_z;
                   kernel_params]) /\
      func_type (entryPointDeclaration p)
      = LLVMFunction llvm_void_type_
          [llvm_pointer_type_; value_type module_blob;
           value_type kernel_name_global;
           llvm_intptr_type_ p; llvm_intptr_type_ p; llvm_intptr_type_ p;
           llvm_intptr_type_ p; llvm_intptr_type_ p; llvm_intptr_type_ p;
           value_type kernel_params].
Proof.
  intros p l operands st st' H.
  destruct (matchAndRewrite_cases _ _ _ _ _ _ H)
    as [(_ & Hr & _)
       |[(km & _ & _ & _ & Hr & _)
        |(km & binary & ctx & params & st3 & gx & gy & gz & bx & b_y & bz
          & _ & _ & _ & _ & _ & Hgen & _ & _ & _ & _ & _ & _ & _ & ->)]];
    try discriminate.
  destruct (lookupSymbolIn_ensureEntryPoint p st3) as [Hlook Hkind].
  assert (Hbefore : lookupSymbolIn (moduleBody st3) kTfWrapperLibaryLaunchHelperName
                    = lookupSymbolIn (moduleBody st) kTfWrapperLibaryLaunchHelperName).
  { rewrite (moduleBody_generateParamsArray _ _ _ _ _ Hgen).
    apply lookupSymbolIn_stateAfterGlobals. }
  destruct (generateParamsArray_inv _ _ _ _ _ Hgen)
    as (arguments & st1 & _ & _ & Hparams & _).
  exists (fst (ensureEntryPoint p st3)), ctx,
    (mkValue (next_id st) llvm_pointer_type_),
    (mkValue (S (next_id st)) llvm_pointer_type_), params, gx, gy, gz, bx, b_y, bz.
  split.
  { rewrite lookupNearestLLVMFunc_eq.
    rewrite moduleBody_withRootErased, moduleBody_advance, Hlook, Hkind.
    reflexivity. }
  split.
  { rewrite lookupNearestLLVMFunc_eq. intros E.
    unfold ensureEntryPoint. rewrite Hbefore.
    destruct (lookupSymbolIn (moduleBody st) kTfWrapperLibaryLaunchHelperName)
      as [[g|f|g]|]; try reflexivity.
    destruct (func_kind f); [reflexivity | discriminate]. }
  split.
  { intros existing. rewrite lookupNearestLLVMFunc_eq. intros E.
    unfold ensureEntryPoint. rewrite Hbefore.
    destruct (lookupSymbolIn (moduleBody st) kTfWrapperLibaryLaunchHelperName)
      as [[g|f|g]|]; try discriminate.
    destruct (func_kind f); [discriminate|].
    inversion E; subst. reflexivity. }
  split.
  { cbn [withRootErased advance blk_before]. apply last_last. }
  rewrite Hparams. reflexivity.
Qed.

(** The scenario: the callee is the declaration that the rule created. *)
Lemma entry_point_resolves_after_rewrite_witness :
  exists st',
    matchAndRewrite example_pattern example_launch (getOperands example_launch)
      example_state = Some (success, st') /\
    lookupNearestLLVMFunc kTfWrapperLibaryLaunchHelperName st'
    = Some (Some (entryPointDeclaration example_pattern), st').
Proof.
  destruct example_rewrite_succeeds as [st' Hrun]. exists st'.
  split; [exact Hrun|].
  destruct (entry_point_resolves_after_rewrite _ _ _ _ _ Hrun)
    as (function & ctx & blob & name & params & gx & gy & gz & bx & b_y & bz
        & Hlook & Hnew & _).
  rewrite <- (Hnew eq_refl). exact Hlook.
Defined.

(** ** The marshalling code and the memory *)

(** Running [marshalOps]: two blocks are allocated, and nothing that
    existed is touched. *)
Lemma exec_marshalOps : forall arguments vals next env mem,
    Forall (fun a => value_id a < next) arguments ->
    Forall2 (fun a v => lookupValue env a = Some v) arguments vals ->
    (Z.of_nat (length arguments) < 2 ^ 31)%Z ->
    exists env' mem',
      execOperations (marshalOps arguments (map value_type arguments) next) (env, mem)
      = Some (env', mem') /\
      (forall id, id < next -> env' id = env id) /\
      mem_blocks mem'
      = mem_blocks mem ++ [Z.of_nat (length arguments); Z.of_nat (length arguments)] /\
      (forall b o, b < length (mem_blocks mem) ->
                   mem_cells mem' b o = mem_cells mem b o).
Proof.
  intros arguments vals next env mem Hfresh Hvals Hrange.
  set (types := map value_type arguments).
  set (n := length arguments) in *.
  set (sblk := length (mem_blocks mem)).
  set (ablk := S sblk).
  assert (Hn : length types = n) by (subst types n; apply length_map).
  set (one := mkValue next llvm_int32_type_).
  set (struct_ptr := marshalStructPtr types next).
  set (array_size := mkValue (2 + next) llvm_int32_type_).
  set (array_ptr := marshalArrayPtr next).
  set (zero := mkValue (4 + next) llvm_int32_type_).
  set (env1 := bindValue env one (RInt 1)).
  set (mem1 := mkMemory (mem_blocks mem ++ [(1 * slotsOf (createStructTy types))%Z])
                        (mem_cells mem)).
  set (env2 := bindValue env1 struct_ptr (RPointer sblk 0)).
  set (env3 := bindValue env2 array_size (RInt (Z.of_nat n))).
  set (mem2 := mkMemory (mem_blocks mem1 ++ [(Z.of_nat n * slotsOf llvm_pointer_type_)%Z])
                        (mem_cells mem1)).
  set (env4 := bindValue env3 array_ptr (RPointer ablk 0)).
  set (env5 := bindValue env4 zero (RInt 0)).
  assert (Hkeep : forall w, value_id w < next ->
                            lookupValue env5 w = lookupValue env w).
  { intros w Hw. subst env5 env4 env3 env2 env1.
    unfold one, struct_ptr, array_size, array_ptr, zero,
      marshalStructPtr, marshalArrayPtr.
    repeat (rewrite lookup_bindValue_other by (cbn [value_id]; lia)).
    reflexivity. }
  destruct (@exec_storeOps struct_ptr array_ptr zero types sblk ablk
              eq_refl eq_refl (n_Sn sblk)
              arguments vals 0 (5 + next) env5 mem2 (Z.of_nat n))
    as (env' & mem' & Hexec & Henv & Hblocks & _ & Hframe).
  - unfold struct_ptr, marshalStructPtr. cbn [value_id]. lia.
  - unfold array_ptr, marshalArrayPtr. cbn [value_id]. lia.
  - unfold zero. cbn [value_id]. lia.
  - eapply Forall_impl; [|exact Hfresh]. cbn beta. intros; lia.
  - subst env5 env4 env3 env2.
    unfold one, struct_ptr, array_size, array_ptr, zero,
      marshalStructPtr, marshalArrayPtr.
    repeat (rewrite lookup_bindValue_other by (cbn [value_id]; lia)).
    apply bindValue_same.
  - subst env5 env4.
    unfold one, struct_ptr, array_size, array_ptr, zero,
      marshalStructPtr, marshalArrayPtr.
    repeat (rewrite lookup_bindValue_other by (cbn [value_id]; lia)).
    apply bindValue_same.
  - subst env5. apply bindValue_same.
  - apply (Forall2_lookup_keep _ _ _ _ _ Hkeep Hfresh Hvals).
  - subst mem2. apply blockSize_app_old. subst mem1.
    rewrite blockSize_app_new. cbn [slotsOf createStructTy]. f_equal. lia.
  - subst mem2 ablk sblk.
    replace (S (length (mem_blocks mem))) with (length (mem_blocks mem1))
      by (subst mem1; cbn [mem_blocks]; rewrite length_app; cbn [length]; lia).
    rewrite blockSize_app_new. cbn [slotsOf llvm_pointer_type_ getPointerTo].
    f_equal. lia.
  - cbn [Nat.add]. lia.
  - cbn [Nat.add]. lia.
  - cbn [Nat.add]. lia.
  - exists env', mem'.
    split.
    { fold types n.
      unfold marshalOps. fold one struct_ptr array_size array_ptr zero.
      rewrite !getI32IntegerAttr_small by lia.
      cbn [app execOperations execOperation].
      rewrite exec_constant. fold env1.
      rewrite (@exec_alloca struct_ptr one 0%Z env1 mem 1%Z (createStructTy types));
        [ | subst env1; apply bindValue_same | reflexivity | lia ].
      fold sblk mem1 env2. fold n.
      rewrite exec_constant. fold env3.
      rewrite (@exec_alloca array_ptr array_size 0%Z env3 mem1 (Z.of_nat n)
                 llvm_pointer_type_);
        [ | subst env3; apply bindValue_same | reflexivity | lia ].
      replace (length (mem_blocks mem1)) with ablk
        by (subst mem1 ablk sblk; cbn [mem_blocks]; rewrite length_app;
            cbn [length]; lia).
      fold mem2 env4.
      rewrite exec_constant. fold env5.
      exact Hexec. }
    split.
    { intros id Hid. rewrite Henv by lia.
      apply (Hkeep (mkValue id LLVMVoid)). exact Hid. }
    split.
    { rewrite Hblocks. subst mem2 mem1. cbn [mem_blocks].
      rewrite <- app_assoc. cbn [app slotsOf createStructTy llvm_pointer_type_
                                  getPointerTo].
      rewrite Hn. do 3 f_equal; lia. }
    intros b o Hb. rewrite Hframe by (left; subst ablk sblk; lia).
    reflexivity.
Qed.

Lemma load_frame : forall mem mem' b o,
    b < length (mem_blocks mem) ->
    (exists extra, mem_blocks mem' = mem_blocks mem ++ extra) ->
    mem_cells mem' b o = mem_cells mem b o ->
    load mem' b o = load mem b o.
Proof.
  intros mem mem' b o Hb (extra & Hblocks) Hcell.
  unfold load, inBounds, blockSize. rewrite Hblocks.
  rewrite nth_error_app1 by exact Hb. rewrite Hcell. reflexivity.
Qed.

(** X7.  The marshalling code that generateParamsArray emits allocates two
    blocks and touches nothing else: when it is run, the memory has
    exactly two more blocks, each of as many slots as there are promoted
    arguments, every slot of every block that existed reads as before,
    and every value that was defined before keeps its binding.  The
    hypotheses are those under which the code runs: promoted arguments of
    LLVM types, defined before the insertion point and bound in the
    environment, and a count within the range of the emitted i32
    indices. *)
Theorem generateParamsArray_preserves_memory :
  forall launch_op operands st arguments st1 vals env mem,
    promoteOperands
      (take_back (getNumKernelOperands launch_op) (getOperands launch_op))
      (take_back (getNumKernelOperands launch_op) operands) st
    = Some (arguments, st1) ->
    Forall (fun a => isLLVMType (value_type a) = true) arguments ->
    Forall (fun a => value_id a < next_id st1) arguments ->
    Forall2 (fun a v => lookupValue env a = Some v) arguments vals ->
    (Z.of_nat (length arguments) < 2 ^ 31)%Z ->
    exists array_ptr st2 env' mem',
      generateParamsArray launch_op operands st = Some (array_ptr, st2) /\
      execOperations (emittedSince st1 st2) (env, mem) = Some (env', mem') /\
      mem_blocks mem'
      = mem_blocks mem ++ [Z.of_nat (length arguments); Z.of_nat (length arguments)] /\
      (forall block offset,
          block < length (mem_blocks mem) ->
          load mem' block offset = load mem block offset) /\
      (forall v, value_id v < next_id st1 ->
                 lookupValue env' v = lookupValue env v).
Proof.
  intros l operands st arguments st1 vals env mem Hprom Htypes Hfresh Hvals Hrange.
  destruct (exec_marshalOps arguments vals (next_id st1) env mem Hfresh Hvals Hrange)
    as (env' & mem' & Hexec & Henv & Hblocks & Hcells).
  exists (marshalArrayPtr (next_id st1)).
  eexists. exists env', mem'.
  split; [apply (generateParamsArray_emits _ _ _ _ _ Hprom Htypes)|].
  split; [rewrite emittedSince_advance; exact Hexec|].
  split; [exact Hblocks|].
  split.
  - intros b o Hb. apply load_frame; [exact Hb | eexists; exact Hblocks |].
    apply Hcells. exact Hb.
  - intros v Hv. unfold lookupValue. apply Henv. exact Hv.
Qed.

(** The scenario, run on a memory that holds a block already. *)
Lemma generateParamsArray_preserves_memory_witness :
  exists array_ptr st2 env' mem',
    generateParamsArray example_launch (getOperands example_launch) example_state
    = Some (array_ptr, st2) /\
    execOperations (emittedSince example_state st2) (example_env, example_busy_memory)
    = Some (env', mem') /\
    mem_blocks mem'
    = mem_blocks example_busy_memory
      ++ [Z.of_nat (length example_arguments); Z.of_nat (length example_arguments)] /\
    (forall block offset,
        block < length (mem_blocks example_busy_memory) ->
        load mem' block offset = load example_busy_memory block offset) /\
    (forall v, value_id v < next_id example_state ->
               lookupValue env' v = lookupValue example_env v).
Proof.
  apply (@generateParamsArray_preserves_memory example_launch
           (getOperands example_launch) example_state example_arguments
           example_state [RInt 11; RInt 22] example_env example_busy_memory).
  - reflexivity.
  - repeat constructor.
  - repeat constructor.
  - repeat constructor.
  - vm_compute. reflexivity.
Defined.

(** ** What generateParamsArray emits *)

Lemma promoteOperands_total : forall opOperands operands st,
    exists arguments st', promoteOperands opOperands operands st = Some (arguments, st').
Proof.
  induction opOperands as [|operand opRest IH]; intros operands st.
  - exists [], st. reflexivity.
  - destruct operands as [|llvmOperand rest].
    + exists [], st. reflexivity.
    + cbn [promoteOperands].
      assert (Hfirst : exists promoted st1,
                 match value_type operand with
                 | UnrankedMemRefType _ => unpackUnrankedMemRef llvmOperand
                 | MemRefType _ rank => unpackMemRef llvmOperand rank
                 | _ => ret [llvmOperand]
                 end st = Some (promoted, st1)).
      { destruct (value_type operand);
          try (exists [llvmOperand], st; reflexivity).
        - unfold unpackMemRef.
          destruct (extractFields_total llvmOperand
                      ([[0]; [1]; [2]] ++ map (fun i => [3; i]) (seq 0 rank)
                       ++ map (fun i => [4; i]) (seq 0 rank)) st)
            as (vs & st' & Hvs & _).
          exists vs, st'. exact Hvs.
        - unfold unpackUnrankedMemRef.
          destruct (extractFields_total llvmOperand [[0]; [1]] st)
            as (vs & st' & Hvs & _).
          exists vs, st'. exact Hvs. }
      destruct Hfirst as (promoted & st1 & Hp).
      destruct (IH rest st1) as (others & st2 & Ho).
      exists (promoted ++ others), st2.
      rewrite (bind_eq _ _ _ _ _ _ _ Hp), (bind_eq _ _ _ _ _ _ _ Ho).
      reflexivity.
Qed.

Lemma extractFields_extracts : forall packed positions st vs st',
    extractFields packed positions st = Some (vs, st') ->
    exists ops n, st' = advance st ops n /\ forallb isExtractValueOp ops = true.
Proof.
  intros packed positions st vs st' H.
  destruct (extractFields_frame _ _ _ _ _ H) as (ops & Hst & _ & Hops).
  exists ops, (length positions). split; [exact Hst|].
  apply forallb_forall. intros op Hin.
  rewrite Forall_forall in Hops. destruct (Hops op Hin) as (r & c & pos & ->).
  reflexivity.
Qed.

Lemma promoteOperands_extracts : forall opOperands operands st arguments st',
    promoteOperands opOperands operands st = Some (arguments, st') ->
    exists ops n, st' = advance st ops n /\ forallb isExtractValueOp ops = true.
Proof.
  induction opOperands as [|operand opRest IH]; intros operands st arguments st' H.
  - cbn in H. inversion H; subst. exists [], 0. rewrite advance_nil. split; reflexivity.
  - destruct operands as [|llvmOperand rest].
    + cbn in H. inversion H; subst. exists [], 0. rewrite advance_nil. split; reflexivity.
    + cbn [promoteOperands] in H.
      apply bind_Some in H. destruct H as (promoted & st1 & Hp & H).
      apply bind_Some in H. destruct H as (others & st2 & Ho & H).
      unfold ret in H. inversion H; subst.
      destruct (IH _ _ _ _ Ho) as (ops2 & n2 & Hst2 & Hops2).
      assert (Hfirst : exists ops1 n1, st1 = advance st ops1 n1
                                       /\ forallb isExtractValueOp ops1 = true).
      { destruct (value_type operand);
          try (unfold ret in Hp; inversion Hp; subst; exists [], 0;
               rewrite advance_nil; split; reflexivity).
        - unfold unpackMemRef in Hp. eapply extractFields_extracts. exact Hp.
        - unfold unpackUnrankedMemRef in Hp. eapply extractFields_extracts. exact Hp. }
      destruct Hfirst as (ops1 & n1 & Hst1 & Hops1).
      exists (ops1 ++ ops2), (n2 + n1). subst st' st1.
      rewrite advance_advance. split; [reflexivity|].
      rewrite forallb_app, Hops1, Hops2. reflexivity.
Qed.

Lemma filter_none : forall (A : Type) (f g : A -> bool) l,
    forallb g l = true -> (forall x, g x = true -> f x = false) ->
    filter f l = [].
Proof.
  intros A f g l H Hfg. induction l as [|x l IH]; cbn [filter]; [reflexivity|].
  cbn [forallb] in H. apply andb_prop in H. destruct H as [Hx Hl].
  rewrite (Hfg x Hx). apply IH. exact Hl.
Qed.

Lemma storeOps_census : forall struct_ptr array_ptr zero types arguments idx next,
    length (storeOps struct_ptr array_ptr zero types idx arguments next)
    = 6 * length arguments /\
    filter isAllocaOp (storeOps struct_ptr array_ptr zero types idx arguments next) = [] /\
    length (filter isStoreOp
              (storeOps struct_ptr array_ptr zero types idx arguments next))
    = 2 * length arguments.
Proof.
  intros struct_ptr array_ptr zero types arguments.
  induction arguments as [|a rest IH]; intros idx next.
  - repeat split.
  - destruct (IH (S idx) (4 + next)) as (Hlen & Halloca & Hstore).
    cbn [storeOps app filter isAllocaOp isStoreOp length].
    rewrite Hlen, Halloca, Hstore. repeat split; lia.
Qed.

Lemma marshalOps_census : forall arguments types next,
    length (marshalOps arguments types next) = 5 + 6 * length arguments /\
    length (filter isAllocaOp (marshalOps arguments types next)) = 2 /\
    length (filter isStoreOp (marshalOps arguments types next))
    = 2 * length arguments.
Proof.
  intros arguments types next. unfold marshalOps.
  destruct (storeOps_census (marshalStructPtr types next) (marshalArrayPtr next)
              (mkValue (4 + next) llvm_int32_type_) types arguments 0 (5 + next))
    as (Hlen & Halloca & Hstore).
  cbn [app filter isAllocaOp isStoreOp length].
  rewrite Hlen, Halloca, Hstore. repeat split; lia.
Qed.

(** X8.  generateParamsArray returns exactly when every promoted argument
    has an LLVM type: the promotion of the trailing kernel operands always
    yields an argument list, and the cast of an argument type of another
    dialect is the only way in which the function has no result. *)
Theorem generateParamsArray_returns_iff : forall launch_op operands st,
    exists arguments st1,
      promoteOperands
        (take_back (getNumKernelOperands launch_op) (getOperands launch_op))
        (take_back (getNumKernelOperands launch_op) operands) st
      = Some (arguments, st1) /\
      ((exists array_ptr st',
           generateParamsArray launch_op operands st = Some (array_ptr, st')) <->
       Forall (fun a => isLLVMType (value_type a) = true) arguments).
Proof.
  intros l operands st.
  destruct (promoteOperands_total
              (take_back (getNumKernelOperands l) (getOperands l))
              (take_back (getNumKernelOperands l) operands) st)
    as (arguments & st1 & Hprom).
  exists arguments, st1. split; [exact Hprom|]. split.
  - intros (array_ptr & st' & H).
    destruct (generateParamsArray_inv _ _ _ _ _ H)
      as (arguments' & st1' & Hprom' & Htypes & _).
    rewrite Hprom in Hprom'. inversion Hprom'; subst. exact Htypes.
  - intros Htypes. eexists. eexists.
    apply (generateParamsArray_emits _ _ _ _ _ Hprom Htypes).
Qed.

(** X9.  What generateParamsArray emits, by count.  Behind the operations
    of the promotion, which are extractvalue operations only, it creates
    [5 + 6 * n] operations for [n] promoted arguments; the whole call
    creates exactly two stack allocations, whatever the number of
    arguments, and two stores per argument. *)
Theorem generateParamsArray_census : forall launch_op operands st array_ptr st',
    generateParamsArray launch_op operands st = Some (array_ptr, st') ->
    exists arguments st1,
      promoteOperands
        (take_back (getNumKernelOperands launch_op) (getOperands launch_op))
        (take_back (getNumKernelOperands launch_op) operands) st
      = Some (arguments, st1) /\
      length (emittedSince st1 st') = 5 + 6 * length arguments /\
      length (filter isAllocaOp (emittedSince st st')) = 2 /\
      length (filter isStoreOp (emittedSince st st')) = 2 * length arguments /\
      forallb isExtractValueOp (emittedSince st st1) = true /\
      emittedSince st st' = emittedSince st st1 ++ emittedSince st1 st'.
Proof.
  intros l operands st array_ptr st' H.
  destruct (generateParamsArray_inv _ _ _ _ _ H)
    as (arguments & st1 & Hprom & _ & _ & ->).
  exists arguments, st1. split; [exact Hprom|].
  destruct (promoteOperands_extracts _ _ _ _ _ Hprom) as (ops & n & -> & Hops).
  destruct (marshalOps_census arguments (map value_type arguments)
              (next_id (advance st ops n))) as (Hlen & Halloca & Hstore).
  rewrite emittedSince_advance.
  rewrite advance_advance, !emittedSince_advance.
  rewrite !filter_app, !length_app.
  rewrite (filter_none _ isAllocaOp isExtractValueOp ops Hops)
    by (intros [x|[]|]; cbn; congruence).
  rewrite (filter_none _ isStoreOp isExtractValueOp ops Hops)
    by (intros [x|[]|]; cbn; congruence).
  cbn [length Nat.add].
  repeat split; assumption.
Qed.

Lemma example_marshal_runs :
  exists array_ptr st',
    generateParamsArray example_launch (getOperands example_launch) example_state
    = Some (array_ptr, st').
Proof. eexists. eexists. vm_compute. reflexivity. Qed.

(** The scenario: two allocations, four stores. *)
Lemma generateParamsArray_census_witness :
  exists array_ptr st',
    generateParamsArray example_launch (getOperands example_launch) example_state
    = Some (array_ptr, st') /\
    length (filter isAllocaOp (emittedSince example_state st')) = 2.
Proof.
  destruct example_marshal_runs as (array_ptr & st' & Hrun).
  exists array_ptr, st'. split; [exact Hrun|].
  destruct (generateParamsArray_census _ _ _ _ _ Hrun)
    as (arguments & st1 & _ & _ & Halloca & _).
  exact Halloca.
Defined.

(** ** The emitted sequence *)



(** ** The legality target and lowered modules *)

Lemma isLegalName_passTarget : forall dialect name,
    isLegalName passTarget (dialect, name) =
    match dialect with
    | DBuiltin => String.eqb "module" name || String.eqb "module_terminator" name
    | DDialect LLVMDialect => negb (String.eqb "mlir.cast" name)
    | DDialect GPUDialect => String.eqb "module" name
    | DDialect _ => false
    end.
Proof.
  intros dialect name.
  unfold isLegalName, getOpAction, passTarget, markOpRecursivelyLegal, addLegalOp,
    addIllegalOp, addIllegalDialect, addLegalDialect, setOpAction, setDialectAction,
    emptyTarget, ModuleOpName, ModuleTerminatorOpName, GPUModuleOpName,
    DialectCastOpName.
  cbn [operationActions dialectActions map app find fst snd].
  unfold opName_eqb. cbn [fst snd].
  destruct dialect as [|[| | | |d]];
    cbn [opDialect_eqb dialect_eqb andb fst snd find];
    repeat match goal with
           | |- context [String.eqb ?a name] => destruct (String.eqb a name)
           end; reflexivity.
Qed.

Lemma isRecursivelyLegalName_passTarget : forall n,
    isRecursivelyLegalName passTarget n = opName_eqb n GPUModuleOpName.
Proof.
  intros [dialect name]. unfold isRecursivelyLegalName.
  rewrite isLegalName_passTarget.
  unfold passTarget, markOpRecursivelyLegal. cbn [recursivelyLegal app existsb].
  unfold opName_eqb, GPUModuleOpName. cbn [fst snd].
  rewrite orb_false_r, (String.eqb_sym name).
  destruct dialect as [|[| | | |d]]; cbn [opDialect_eqb dialect_eqb andb];
    destruct (String.eqb "module" name); try reflexivity;
    destruct (String.eqb _ name); reflexivity.
Qed.

Lemma isLegal_passTarget : forall op,
    isLegal passTarget op = true ->
    operationName op = GPUModuleOpName
    \/ exists name, operationName op = (DDialect LLVMDialect, name)
                    /\ name <> "mlir.cast"%string.
Proof.
  intros op H. unfold isLegal in H.
  destruct (operationName op) as [dialect name] eqn:E.
  rewrite isLegalName_passTarget in H.
  destruct dialect as [|[| | | |d]]; try discriminate.
  - destruct op as [l|o|d n a b]; discriminate.
  - right. exists name. split; [reflexivity|].
    intros ->. discriminate.
  - left. apply String.eqb_eq in H. subst name. reflexivity.
Qed.

(** X10.  The legality target that runOnOperation sets up, name by name.
    An operation of the LLVM dialect is legal unless it is llvm.mlir.cast;
    an operation of the GPU dialect is illegal unless it is gpu.module; the
    builtin module and its terminator are legal; every operation of the
    standard and the TF framework dialect, and of any dialect that the
    target does not name, has to be converted.  The action set for an
    operation wins over the action of its dialect.  gpu.module is the one
    operation that is legal with everything it contains. *)
Theorem passTarget_legality : forall dialect name,
    isLegalName passTarget (dialect, name) =
    match dialect with
    | DBuiltin => String.eqb "module" name || String.eqb "module_terminator" name
    | DDialect LLVMDialect => negb (String.eqb "mlir.cast" name)
    | DDialect GPUDialect => String.eqb "module" name
    | DDialect _ => false
    end
    /\ isRecursivelyLegalName passTarget (dialect, name)
       = opName_eqb (dialect, name) GPUModuleOpName.
Proof.
  intros dialect name. split.
  - apply isLegalName_passTarget.
  - apply isRecursivelyLegalName_passTarget.
Qed.

Lemma legalizeOperation_legal : forall p rules op st,
    isLegal passTarget op = true ->
    legalizeOperation passTarget p rules op st = Some (success, advance st [op] 0).
Proof.
  intros p rules op st H. unfold legalizeOperation. rewrite H. reflexivity.
Qed.

Lemma legalizeOperations_legal : forall p rules ops st,
    forallb (isLegal passTarget) ops = true ->
    legalizeOperations passTarget p rules ops st = Some (success, advance st ops 0).
Proof.
  intros p rules. induction ops as [|op rest IH]; intros st H.
  - cbn [legalizeOperations]. unfold ret. rewrite advance_nil. reflexivity.
  - cbn [forallb] in H. apply andb_prop in H. destruct H as [Hop Hrest].
    rewrite legalizeOperations_step, (legalizeOperation_legal _ _ _ _ Hop).
    cbn [failed]. rewrite (IH _ Hrest), advance_advance. reflexivity.
Qed.

Lemma setBody_same : forall f, setBody f (func_body f) = f.
Proof. intros [n k t a b]. reflexivity. Qed.

Lemma convertTopOps_lowered : forall p rules todo es,
    forallb isLowered todo = true ->
    convertTopOps passTarget p rules todo es =
    Some (success, es_done es ++ todo,
          mkEngine (es_done es ++ todo) (es_next_id es)
                   (es_diagnostics es) (es_match_failures es)).
Proof.
  intros p rules. induction todo as [|t rest IH]; intros es H.
  - cbn [convertTopOps]. rewrite app_nil_r. destruct es; reflexivity.
  - cbn [forallb] in H. apply andb_prop in H. destruct H as [Ht Hrest].
    unfold isLowered in Ht. apply andb_prop in Ht. destruct Ht as [Htop Hbody].
    destruct t as [g|f|g].
    + rewrite convertTopOps_global, (IH _ Hrest). cbn [es_done es_next_id
        es_diagnostics es_match_failures]. rewrite <- app_assoc. reflexivity.
    + rewrite convertTopOps_func.
      rewrite isLegalTop_func in Htop.
      unfold focusOf. destruct (func_kind f) eqn:Hk; [discriminate|].
      cbn [hostLegal] in Hbody.
      rewrite (legalizeOperations_legal _ _ _ _ Hbody). cbv zeta.
      cbn [failed advance focusState blk_before mod_before app engineOf
           next_id diagnostics match_failures].
      rewrite setBody_same, (IH _ Hrest).
      unfold engineOf, advance, focusState.
      cbn [es_done es_next_id es_diagnostics es_match_failures Nat.add
           next_id diagnostics match_failures].
      rewrite <- app_assoc. reflexivity.
    + rewrite convertTopOps_gpu, (IH _ Hrest). cbn [es_done es_next_id
        es_diagnostics es_match_failures]. rewrite <- app_assoc. reflexivity.
Qed.

(** X11.  On a module that is lowered already, where every function is an
    llvm.func of legal operations, the pass succeeds without a diagnostic
    and returns the module with its Device Modules removed and nothing
    else changed; what the Device Modules contain is not looked at. *)
Theorem lowered_module_is_only_swept : forall pass rules m,
    forallb isLowered (getBody m) = true ->
    runOnOperation pass rules m = Some (mkOutcome false (eraseGPUModules m) [] []).
Proof.
  intros pass rules m H. rewrite runOnOperation_eq.
  rewrite (convertTopOps_lowered _ _ _ _ H).
  cbn [es_done app failed es_diagnostics es_match_failures].
  destruct m as [body]. reflexivity.
Qed.

Lemma lowered_module_is_only_swept_witness :
  forallb isLowered (getBody example_lowered_module) = true /\
  runOnOperation example_pass example_rules example_lowered_module
  = Some (mkOutcome false (eraseGPUModules example_lowered_module) [] []).
Proof.
  assert (H : forallb isLowered (getBody example_lowered_module) = true)
    by (vm_compute; reflexivity).
  split; [exact H|].
  apply (lowered_module_is_only_swept example_pass example_rules
           example_lowered_module H).
Defined.

Lemma isLowered_created : forall p created,
    Forall (isCreatedTop p) created -> forallb isLowered created = true.
Proof.
  intros p created H. induction H as [|t rest Ht _ IH]; cbn [forallb].
  - reflexivity.
  - rewrite IH. destruct Ht as [(n & v & ->)| ->]; reflexivity.
Qed.

Lemma convertTopOps_success_lowered : forall p rules todo es body es',
    convertTopOps passTarget p rules todo es = Some (success, body, es') ->
    forallb isLowered (es_done es) = true ->
    forallb isLowered body = true.
Proof.
  intros p rules. induction todo as [|t rest IH]; intros es body es' H Hdone.
  - cbn in H. inversion H; subst. exact Hdone.
  - destruct t as [g|f|g].
    + rewrite convertTopOps_global in H. eapply IH; [exact H|].
      cbn [es_done]. rewrite forallb_app, Hdone. reflexivity.
    + rewrite convertTopOps_func in H.
      destruct (focusOf rules f) as [f'|] eqn:Hf; [|discriminate].
      destruct (focusOf_spec _ _ _ Hf) as (_ & Hkind & _).
      destruct (legalizeOperations passTarget p rules (func_body f')
                  (focusState es f' rest)) as [[r1 st]|] eqn:Hl; [|discriminate].
      cbv zeta in H. destruct r1; cbn [failed] in H; [|discriminate].
      destruct (legalizeOperations_grows _ _ _ _ _ _ Hl)
        as (created & _ & Hmb & Hc & _).
      destruct (legalizeOperations_success_legal _ _ _ _ _ Hl)
        as (ops & Hb & Hops).
      eapply IH; [exact H|].
      cbn [es_done engineOf]. rewrite Hmb. cbn [focusState mod_before].
      rewrite !forallb_app, (isLowered_created _ _ Hc), Hdone.
      cbn [forallb]. unfold isLowered at 1.
      rewrite isLegalTop_func. cbn [setBody func_kind hostLegal func_body].
      rewrite Hkind, Hb.
      cbn [focusState blk_before app]. rewrite Hops. reflexivity.
    + rewrite convertTopOps_gpu in H. eapply IH; [exact H|].
      cbn [es_done]. rewrite forallb_app, Hdone. reflexivity.
Qed.

Lemma runOnOperation_success_lowered : forall pass rules m out,
    runOnOperation pass rules m = Some out ->
    pass_failed out = false ->
    forallb isLowered (getBody (pass_module out)) = true /\
    getGPUModuleOps (pass_module out) = [].
Proof.
  intros pass rules m out Hrun Hok.
  rewrite runOnOperation_eq in Hrun.
  destruct (convertTopOps passTarget (passPattern pass rules) rules (getBody m)
              (mkEngine [] (nextFreeId m) [] [])) as [[[r body] es]|] eqn:Hc;
    [|discriminate].
  inversion Hrun; subst out. cbn [pass_failed pass_module] in *.
  destruct r; [|discriminate].
  split; [|apply getGPUModuleOps_erase].
  pose proof (convertTopOps_success_lowered _ _ _ _ _ _ Hc eq_refl) as Hlow.
  unfold eraseGPUModules. cbn [getBody].
  apply forallb_forall. intros t Ht. apply filter_In in Ht.
  rewrite forallb_forall in Hlow. apply Hlow. tauto.
Qed.

(** X12.  After a successful pass run the module body holds globals and
    llvm.funcs only: no builtin function and no Device Module is left, and
    every operation of every function is one that the target accepts, an
    operation of the LLVM dialect other than llvm.mlir.cast (or an
    operation of the name of gpu.module, which the target marks legal). *)
Theorem successful_run_leaves_llvm_only : forall pass rules m out,
    runOnOperation pass rules m = Some out ->
    pass_failed out = false ->
    forall t, In t (getBody (pass_module out)) ->
      match t with
      | TGlobal _ => True
      | TFunc f =>
          func_kind f = LLVMFunc /\
          forall op, In op (func_body f) ->
            operationName op = GPUModuleOpName
            \/ exists name, operationName op = (DDialect LLVMDialect, name)
                            /\ name <> "mlir.cast"%string
      | TGPUModule _ => False
      end.
Proof.
  intros pass rules m out Hrun Hok t Ht.
  destruct (runOnOperation_success_lowered _ _ _ _ Hrun Hok) as [Hlow Hgpu].
  rewrite forallb_forall in Hlow. specialize (Hlow t Ht).
  unfold isLowered in Hlow. apply andb_prop in Hlow. destruct Hlow as [Htop Hbody].
  destruct t as [g|f|g].
  - exact I.
  - rewrite isLegalTop_func in Htop. split.
    + destruct (func_kind f); [discriminate | reflexivity].
    + intros op Hop. cbn [hostLegal] in Hbody. rewrite forallb_forall in Hbody.
      apply isLegal_passTarget. apply Hbody. exact Hop.
  - unfold getGPUModuleOps in Hgpu.
    assert (Hin : In (TGPUModule g) (filter isGPUModuleOp (getBody (pass_module out))))
      by (apply filter_In; split; [exact Ht | reflexivity]).
    rewrite Hgpu in Hin. contradiction.
Qed.

Lemma successful_run_leaves_llvm_only_witness :
  exists out,
    runOnOperation example_pass example_rules example_module = Some out /\
    pass_failed out = false /\
    forall f, In (TFunc f) (getBody (pass_module out)) -> func_kind f = LLVMFunc.
Proof.
  destruct example_module_runs as (out & Hrun & Hok).
  exists out. split; [exact Hrun|]. split; [exact Hok|].
  intros f Hin.
  exact (proj1 (successful_run_leaves_llvm_only _ _ _ _ Hrun Hok (TFunc f) Hin)).
Defined.

Lemma eraseGPUModules_lowered : forall m,
    getGPUModuleOps m = [] -> eraseGPUModules m = m.
Proof.
  intros [body] H. unfold eraseGPUModules, getGPUModuleOps in *. cbn [getBody] in *.
  f_equal. induction body as [|t rest IH]; cbn [filter] in *; [reflexivity|].
  destruct (isGPUModuleOp t); [discriminate|]. cbn [negb]. f_equal. apply IH. exact H.
Qed.

(** X13.  The pass is idempotent on its successful results: run again,
    with whatever annotation key and generic rules, on the module that a
    successful run returned, it succeeds, emits no diagnostic and returns
    that module unchanged. *)
Theorem runOnOperation_idempotent : forall pass rules m out pass' rules',
    runOnOperation pass rules m = Some out ->
    pass_failed out = false ->
    runOnOperation pass' rules' (pass_module out)
    = Some (mkOutcome false (pass_module out) [] []).
Proof.
  intros pass rules m out pass' rules' Hrun Hok.
  destruct (runOnOperation_success_lowered _ _ _ _ Hrun Hok) as [Hlow Hgpu].
  rewrite runOnOperation_eq, (convertTopOps_lowered _ _ _ _ Hlow).
  cbn [es_done app failed es_diagnostics es_match_failures].
  replace (mkModule (getBody (pass_module out))) with (pass_module out)
    by (destruct (pass_module out); reflexivity).
  rewrite (eraseGPUModules_lowered _ Hgpu). reflexivity.
Qed.

Lemma runOnOperation_idempotent_witness :
  exists out,
    runOnOperation example_pass example_rules example_module = Some out /\
    pass_failed out = false /\
    runOnOperation example_pass example_rules (pass_module out)
    = Some (mkOutcome false (pass_module out) [] []).
Proof.
  destruct example_module_runs as (out & Hrun & Hok).
  exists out. split; [exact Hrun|]. split; [exact Hok|].
  exact (runOnOperation_idempotent _ _ _ _ example_pass example_rules Hrun Hok).
Defined.

(** ** Diagnostics and symbols of a pass run *)

Lemma legalizeOperation_success_quiet : forall p rules op st st',
    legalizeOperation passTarget p rules op st = Some (success, st') ->
    diagnostics st' = diagnostics st /\ match_failures st' = match_failures st.
Proof.
  intros p rules op st st' H.
  destruct (isLaunchFunc op) eqn:Hop.
  - destruct op as [l|o|d n a b]; try discriminate.
    apply legalizeOperation_success_launch in H.
    apply matchAndRewrite_success_inserts in H.
    destruct H as (_ & _ & _ & _ & _ & _ & Hd & Hf).
    split; assumption.
  - rewrite (legalizeOperation_other _ _ _ _ Hop) in H.
    destruct (isLegal passTarget op).
    + inversion H; subst. split; reflexivity.
    + destruct (lowerOperation rules op) as [ops|]; [|discriminate].
      destruct (forallb (isLegal passTarget) ops); [|discriminate].
      inversion H; subst. split; reflexivity.
Qed.

Lemma legalizeOperations_success_quiet : forall p rules ops st st',
    legalizeOperations passTarget p rules ops st = Some (success, st') ->
    diagnostics st' = diagnostics st /\ match_failures st' = match_failures st.
Proof.
  intros p rules. induction ops as [|op rest IH]; intros st st' H.
  - cbn in H. inversion H; subst. split; reflexivity.
  - rewrite legalizeOperations_step in H.
    destruct (legalizeOperation passTarget p rules op st) as [[r1 st1]|] eqn:H1;
      [|discriminate].
    destruct r1; cbn [failed] in H; [|discriminate].
    destruct (legalizeOperation_success_quiet _ _ _ _ _ H1) as [Hd1 Hf1].
    destruct (IH _ _ H) as [Hd Hf].
    split; congruence.
Qed.

Lemma convertTopOps_success_quiet : forall p rules todo es body es',
    convertTopOps passTarget p rules todo es = Some (success, body, es') ->
    es_diagnostics es' = es_diagnostics es /\
    es_match_failures es' = es_match_failures es.
Proof.
  intros p rules. induction todo as [|t rest IH]; intros es body es' H.
  - cbn in H. inversion H; subst. split; reflexivity.
  - destruct t as [g|f|g].
    + rewrite convertTopOps_global in H. apply IH in H. exact H.
    + rewrite convertTopOps_func in H.
      destruct (focusOf rules f) as [f'|]; [|discriminate].
      destruct (legalizeOperations passTarget p rules (func_body f')
                  (focusState es f' rest)) as [[r1 st]|] eqn:Hl; [|discriminate].
      cbv zeta in H. destruct r1; cbn [failed] in H; [|discriminate].
      destruct (legalizeOperations_success_quiet _ _ _ _ _ Hl) as [Hd Hf].
      apply IH in H. cbn [engineOf es_diagnostics es_match_failures] in H.
      cbn [focusState diagnostics match_failures] in Hd, Hf.
      destruct H as [Hd' Hf']. split; congruence.
    + rewrite convertTopOps_gpu in H. apply IH in H. exact H.
Qed.

(** X14.  A successful pass run has emitted no diagnostic and logged no
    match failure: every diagnostic of the launch rule comes with a failed
    rewrite, and a failed rewrite of a launch instruction fails the
    run. *)
Theorem successful_run_is_silent : forall pass rules m out,
    runOnOperation pass rules m = Some out ->
    pass_failed out = false ->
    pass_diagnostics out = [] /\ pass_match_failures out = [].
Proof.
  intros pass rules m out Hrun Hok.
  rewrite runOnOperation_eq in Hrun.
  destruct (convertTopOps passTarget (passPattern pass rules) rules (getBody m)
              (mkEngine [] (nextFreeId m) [] [])) as [[[r body] es]|] eqn:Hc;
    [|discriminate].
  inversion Hrun; subst out. cbn [pass_failed pass_diagnostics pass_match_failures] in *.
  destruct r; [|discriminate].
  apply convertTopOps_success_quiet in Hc. exact Hc.
Qed.

Lemma successful_run_is_silent_witness :
  exists out,
    runOnOperation example_pass example_rules example_module = Some out /\
    pass_failed out = false /\
    pass_diagnostics out = [] /\ pass_match_failures out = [].
Proof.
  destruct example_module_runs as (out & Hrun & Hok).
  exists out. split; [exact Hrun|]. split; [exact Hok|].
  exact (successful_run_is_silent _ _ _ _ Hrun Hok).
Defined.

Lemma Evolves_In : forall o c t,
    Evolves o c -> In t o -> exists t', In t' c /\ sameSymbol t t'.
Proof.
  intros o c t H. induction H as [|t0 t0' o c Hs He IH|t0 o c Hg He IH]; intros Hin.
  - contradiction.
  - destruct Hin as [->|Hin].
    + exists t0'. split; [left; reflexivity | exact Hs].
    + destruct (IH Hin) as (t' & Ht' & Hs'). exists t'. split; [right|]; assumption.
  - destruct (IH Hin) as (t' & Ht' & Hs'). exists t'. split; [right|]; assumption.
Qed.

Lemma runOnOperation_evolves : forall pass rules m out,
    runOnOperation pass rules m = Some out ->
    exists body,
      Evolves (getBody m) body /\
      getBody (pass_module out) = filter (fun t => negb (isGPUModuleOp t)) body.
Proof.
  intros pass rules m out Hrun.
  rewrite runOnOperation_eq in Hrun.
  destruct (convertTopOps passTarget (passPattern pass rules) rules (getBody m)
              (mkEngine [] (nextFreeId m) [] [])) as [[[r body] es]|] eqn:Hc;
    [|discriminate].
  inversion Hrun; subst out. exists body. split; [|reflexivity].
  eapply (convertTopOps_preserves _ rules (Evolves (getBody m))
            (Stable_Evolves _ _)); [exact Hc|].
  cbn [es_done app]. apply Evolves_refl.
Qed.

(** X15.  Whatever its outcome, a pass run drops no global and no function
    of the input module: every global is in the returned module as it
    was, and for every function the returned module has a function of the
    same name.  Only Device Modules are removed. *)
Theorem runOnOperation_keeps_symbols : forall pass rules m out,
    runOnOperation pass rules m = Some out ->
    (forall g, In (TGlobal g) (getBody m) ->
               In (TGlobal g) (getBody (pass_module out))) /\
    (forall f, In (TFunc f) (getBody m) ->
               exists f', In (TFunc f') (getBody (pass_module out)) /\
                          func_name f' = func_name f).
Proof.
  intros pass rules m out Hrun.
  destruct (runOnOperation_evolves _ _ _ _ Hrun) as (body & He & ->).
  split.
  - intros g Hin. destruct (Evolves_In _ _ _ He Hin) as (t' & Ht' & Hs).
    destruct t' as [g'|f'|g']; cbn in Hs; try contradiction. subst g'.
    apply filter_In. split; [exact Ht' | reflexivity].
  - intros f Hin. destruct (Evolves_In _ _ _ He Hin) as (t' & Ht' & Hs).
    destruct t' as [g'|f'|g']; cbn in Hs; try contradiction.
    exists f'. split; [|symmetry; exact Hs].
    apply filter_In. split; [exact Ht' | reflexivity].
Qed.

(** The asynchronous scenario: the run fails and the host function is
    still there. *)
Lemma runOnOperation_keeps_symbols_witness :
  exists out f',
    runOnOperation example_pass example_rules example_async_module = Some out /\
    In (TFunc f') (getBody (pass_module out)) /\
    func_name f' = "host"%string.
Proof.
  destruct example_async_module_runs as (out & Hrun).
  destruct (proj2 (runOnOperation_keeps_symbols _ _ _ _ Hrun)
              (mkFunc "host" LLVMFunc (LLVMFunction LLVMVoid [llvm_pointer_type_])
                      [example_context] [OpLaunchFunc example_async_launch])
              (or_intror (or_introl eq_refl)))
    as (f' & Hin & Hname).
  exists out, f'. split; [exact Hrun|]. split; [exact Hin | exact Hname].
Defined.

(** ** Names of the global strings, continued *)

Lemma string_length_append : forall s t,
    String.length (s ++ t) = String.length s + String.length t.
Proof.
  induction s as [|c s IH]; intros t; cbn [String.append String.length].
  - reflexivity.
  - rewrite IH. reflexivity.
Qed.

Lemma append_inj_r : forall a b t, (a ++ t)%string = (b ++ t)%string -> a = b.
Proof.
  induction a as [|c a IH]; intros b t H.
  - destruct b as [|d b]; [reflexivity|].
    apply (f_equal String.length) in H.
    cbn [String.append String.length] in H. rewrite string_length_append in H. lia.
  - destruct b as [|d b].
    + apply (f_equal String.length) in H.
      cbn [String.append String.length] in H. rewrite string_length_append in H. lia.
    + cbn [String.append] in H. inversion H. f_equal. eapply IH. eassumption.
Qed.

Lemma string_append_assoc : forall a b c : string,
    ((a ++ b) ++ c)%string = (a ++ b ++ c)%string.
Proof.
  induction a as [|x a IH]; intros b c; cbn [String.append].
  - reflexivity.
  - rewrite IH. reflexivity.
Qed.

(** X16.  The names of the global strings.  The name of a blob constant
    determines the Device Module name; for one Device Module, the name of
    a kernel-name constant determines the kernel name; a blob constant
    and a kernel-name constant never share a name, and neither carries
    the name of the runtime entry point. *)
Theorem global_names_determine_their_source :
  forall module_name module_name' kernel_name kernel_name',
    (blobGlobalName module_name = blobGlobalName module_name' ->
     module_name = module_name') /\
    (kernelNameGlobalName module_name kernel_name
     = kernelNameGlobalName module_name kernel_name' ->
     kernel_name = kernel_name') /\
    blobGlobalName module_name <> kernelNameGlobalName module_name' kernel_name /\
    blobGlobalName module_name <> kTfWrapperLibaryLaunchHelperName /\
    kernelNameGlobalName module_name kernel_name <> kTfWrapperLibaryLaunchHelperName.
Proof.
  intros m m' k k'. split; [|split; [|split; [|split]]].
  - unfold blobGlobalName. apply append_inj_r.
  - unfold kernelNameGlobalName. intros H.
    apply append_inj_l in H. apply (append_inj_l "_") in H.
    apply append_inj_r in H. exact H.
  - apply blob_name_not_kernel_name.
  - apply blob_name_not_entry_point.
  - apply kernel_name_not_entry_point.
Qed.

Lemma global_names_determine_their_source_witness :
  blobGlobalName "K" <> kernelNameGlobalName "K" "kern" /\
  blobGlobalName "K" <> kTfWrapperLibaryLaunchHelperName /\
  kernelNameGlobalName "K" "kern" <> kTfWrapperLibaryLaunchHelperName.
Proof.
  exact (proj2 (proj2 (global_names_determine_their_source "K" "K" "kern" "kern"))).
Defined.

(** X17.  The name of a kernel-name constant does not determine the pair of
    Device Module name and kernel name: the separator can be read at
    either underscore, so a module [m_i] with kernel [k] and a module [m]
    with kernel [i_k], two different modules and two different kernels,
    get the same constant name. *)
Theorem kernel_name_global_names_collide : forall module_name infix kernel_name,
    kernelNameGlobalName (module_name ++ "_" ++ infix) kernel_name
    = kernelNameGlobalName module_name (infix ++ "_" ++ kernel_name)
    /\ (module_name ++ "_" ++ infix)%string <> module_name
    /\ kernel_name <> (infix ++ "_" ++ kernel_name)%string.
Proof.
  intros m i k. split; [|split].
  - unfold kernelNameGlobalName. rewrite !string_append_assoc. reflexivity.
  - intros H. apply (f_equal String.length) in H.
    rewrite !string_length_append in H. cbn [String.length] in H. lia.
  - intros H. apply (f_equal String.length) in H.
    rewrite !string_length_append in H. cbn [String.length] in H. lia.
Qed.
